(** * AgentSimLab: the deterministic kernel (agentsimlab/kernel.py)

    A shallow embedding of [RNGStream], [RNGManager] and [Kernel], together
    with the agents of agentsimlab/agent.py, the runner of
    agentsimlab/runner.py and the network stub of agentsimlab/network.py,
    and the properties the specification states about them.

    Python objects that are mutated in place are modelled by explicit state
    passing: a method of a class [C] is a computation over the state of the
    [C] instance that may finish normally or raise, and that leaves behind
    whatever it had already written when it raises.

    - [random.Random], [hashlib.sha256] and [pickle] are libraries: the model
      takes them as interfaces ([PyRandom], [HashLib], [Pickle]) and the
      properties hold for every implementation of them.
    - An entity is an object of the caller. The model knows its identity (a
      [handle]) and what a call of its hook does to the kernel and to the
      objects of the caller; a hook does not call [Kernel.step] itself.
    - Values have the types of the annotations in the source: the time is an
      integer, a phase is a string, a state dictionary has string keys. *)

From Stdlib Require Import ZArith Floats Uint63.
From stdpp Require Import gmap strings list fin_maps.

Local Open Scope Z_scope.

(** ** Exceptions and stateful computations *)

(** The exceptions that the modelled code can raise or let through. *)
Inductive Exn : Type :=
| ValueError (msg : string)
| KeyError (key : string)
| IndexError
| AttributeError (attr : string)
| UnpicklingError
| NotImplementedError
| UnicodeEncodeError
| EntityStepError (tag : string).

(** What a call leaves behind: the state it reached and either the exception
    it raised or the value it returned. *)
Record Outcome (S A : Type) : Type := mkOutcome {
  final : S;
  result : Exn + A
}.
Arguments mkOutcome {S A} _ _.
Arguments final {S A} _.
Arguments result {S A} _.

Definition M (S A : Type) : Type := S → Outcome S A.

Definition ret {S A} (a : A) : M S A := λ s, mkOutcome s (inr a).
Definition raise {S A} (e : Exn) : M S A := λ s, mkOutcome s (inl e).
Definition bind {S A B} (m : M S A) (k : A → M S B) : M S B :=
  λ s, let o := m s in
       match result o with
       | inl e => mkOutcome (final o) (inl e)
       | inr a => k a (final o)
       end.
Definition get {S} : M S S := λ s, mkOutcome s (inr s).
Definition modify {S} (f : S → S) : M S unit := λ s, mkOutcome (f s) (inr tt).

(** Running a method of a component object held in a field of [S]. *)
Definition zoom {S T A} (proj : S → T) (upd : T → S → S) (m : M T A) : M S A :=
  λ s, let o := m (proj s) in mkOutcome (upd (final o) s) (result o).

Notation "x <~ c1 ;; c2" := (bind c1 (λ x, c2))
  (at level 100, c1 at next level, right associativity).
Notation "c1 ;;; c2" := (bind c1 (λ _, c2))
  (at level 100, right associativity).

Definition raised {S A} (o : Outcome S A) : option Exn :=
  match result o with inl e => Some e | inr _ => None end.

Definition returned {S A} (o : Outcome S A) : Prop := raised o = None.

(** ** The libraries the kernel is built on *)

(** [random.Random]: the generator's internal position is [rng]; [token] is
    what [getstate] returns and [setstate] is given, which for [setstate]
    includes tokens that no generator ever produced. A token that [setstate]
    accepts replaces the whole position, whatever it was. A token that it
    rejects need not leave the generator alone: CPython's [setstate] assigns
    [gauss_next] from the token before it validates the rest of it, and
    [rng_setstate_rejected] is the generator that the failed call leaves
    behind. [randint] keeps the position when it raises. *)
Class PyRandom : Type := {
  rng : Type;
  token : Type;
  Random : Z → rng;
  rng_random : rng → float * rng;
  rng_randint : Z → Z → rng → Exn + (Z * rng);
  rng_getrandbits : N → rng → Z * rng;
  rng_getstate : rng → token;
  rng_setstate : token → Exn + rng;
  rng_setstate_rejected : token → rng → rng;
  rng_setstate_getstate : ∀ r, rng_setstate (rng_getstate r) = inr r
}.

(** [int(hashlib.sha256(name.encode('utf-8')).hexdigest(), 16)], or the
    [UnicodeEncodeError] that [name.encode('utf-8')] raises on a str that
    UTF-8 cannot encode, such as one with a lone surrogate. *)
Class HashLib : Type := {
  sha256_int : string → Exn + Z
}.

(** [pickle.dumps] and [pickle.loads] at the type [T] of the pickled object.
    A [blob] is either bytes on which [pickle.loads] raises or the pickle of
    an object of type [T]. The pickle of an object of another type has no
    counterpart here: what the code makes of one is outside the model, and
    no property below speaks of it. *)
Class Pickle (T : Type) : Type := {
  blob : Type;
  pickle_dumps : T → blob;
  pickle_loads : blob → Exn + T;
  pickle_loads_dumps : ∀ v, pickle_loads (pickle_dumps v) = inr v
}.

(** ** class RNGStream *)

Module RNGStream.
Section RNGStream.
Context `{PyRandom}.

Record t : Type := mk { _seed : Z; _rng : rng }.

Definition set_rng (r : rng) (s : t) : t := mk (_seed s) r.

Definition init (seed : Z) : t := mk seed (Random seed).

Definition random : M t float :=
  s <~ get ;;
  let '(v, r) := rng_random (_rng s) in
  modify (set_rng r) ;;; ret v.

Definition randint (a b : Z) : M t Z :=
  s <~ get ;;
  match rng_randint a b (_rng s) with
  | inl e => raise e
  | inr (v, r) => modify (set_rng r) ;;; ret v
  end.

Definition get_state : M t token :=
  s <~ get ;; ret (rng_getstate (_rng s)).

Definition set_state (state : token) : M t unit :=
  match rng_setstate state with
  | inl e =>
      modify (λ s, set_rng (rng_setstate_rejected state (_rng s)) s) ;;;
      raise e
  | inr r => modify (set_rng r)
  end.

Definition reseed (seed : Z) : M t unit :=
  modify (λ _, mk seed (Random seed)).
End RNGStream.
End RNGStream.

(** ** class RNGManager *)

(** The state dictionary built by [RNGManager.get_state] and read back by
    [RNGManager.set_state]: a key that is absent from the dictionary is
    [None]. *)
Record RngState `{PyRandom} : Type := mkRngState {
  master_state : option token;
  streams : option (list (string * token))
}.
Arguments mkRngState {_} _ _.

Module RNGManager.
Section RNGManager.
Context `{PyRandom} `{HashLib}.

(** [_streams] is a dict keyed by stream name. A stream object, once in the
    dict, is never replaced by another object, so the name stands for the
    object wherever a caller holds on to the stream. *)
Record t : Type := mk {
  master_seed : Z;
  master : rng;
  _streams : gmap string RNGStream.t
}.

Definition set_master (r : rng) (m : t) : t :=
  mk (master_seed m) r (_streams m).
Definition set_streams (d : gmap string RNGStream.t) (m : t) : t :=
  mk (master_seed m) (master m) d.

Definition init (master_seed : Z) : t :=
  mk master_seed (Random master_seed) ∅.

Definition _derive_seed (name : string) : M t Z :=
  m <~ get ;;
  let '(drawn, r) := rng_getrandbits 64 (master m) in
  modify (set_master r) ;;;
  match sha256_int name with
  | inl e => raise e
  | inr digest =>
      let h := Z.land digest (Z.shiftl 1 64 - 1) in
      let seed := Z.land (Z.lxor drawn h) (Z.shiftl 1 63 - 1) in
      ret seed
  end.

(** Returns the stream; the caller's handle on it is its name. *)
Definition get_stream (name : string) : M t string :=
  m <~ get ;;
  match _streams m !! name with
  | Some _ => ret tt
  | None =>
      seed <~ _derive_seed name ;;
      modify (λ m, set_streams (<[name := RNGStream.init seed]> (_streams m)) m)
  end ;;;
  ret name.

(** A method call on the stream object that [name] stands for. *)
Definition on_stream {A} (name : string) (c : M RNGStream.t A) : M t A :=
  m <~ get ;;
  match _streams m !! name with
  | None => raise (KeyError name)
  | Some s =>
      zoom (λ _, s) (λ s' m, set_streams (<[name := s']> (_streams m)) m) c
  end.

(** The items of ['streams'] come in the order of [map_to_list], not in the
    insertion order of the dict; nothing below depends on that order. *)
Definition get_state : M t RngState :=
  m <~ get ;;
  ret (mkRngState (Some (rng_getstate (master m)))
         (Some (map_to_list (rng_getstate ∘ RNGStream._rng <$> _streams m)))).

Definition import_stream (name : string) (st : token) : M t unit :=
  m <~ get ;;
  match _streams m !! name with
  | Some _ => on_stream name (RNGStream.set_state st)
  | None =>
      match RNGStream.set_state st (RNGStream.init 0) with
      | mkOutcome _ (inl e) => raise e
      | mkOutcome s (inr _) =>
          modify (λ m, set_streams (<[name := s]> (_streams m)) m)
      end
  end.

Fixpoint import_streams (items : list (string * token)) : M t unit :=
  match items with
  | [] => ret tt
  | (name, st) :: rest => import_stream name st ;;; import_streams rest
  end.

Definition set_state (state : RngState) : M t unit :=
  match master_state state with
  | None => raise (KeyError "master_state")
  | Some ms =>
      match rng_setstate ms with
      | inl e =>
          modify (λ m, set_master (rng_setstate_rejected ms (master m)) m) ;;;
          raise e
      | inr r =>
          modify (set_master r) ;;;
          import_streams (default [] (streams state))
      end
  end.
End RNGManager.
End RNGManager.

(** ** class Kernel *)

(** An entity handle is the identity of a Python object: [is] on two
    handles is equality of handles. *)
Definition handle : Type := nat.

(** The state dictionary pickled by [Kernel.snapshot] and read back by
    [Kernel.restore]; an absent key is [None]. *)
Record KernelState `{PyRandom} : Type := mkKernelState {
  st_time : option Z;
  st_rng : option RngState;
  st_phases : option (list string)
}.
Arguments mkKernelState {_} _ _ _.

Module Kernel.
Section Kernel.
Context `{PyRandom} `{HashLib} `{!Pickle KernelState}.

Record t : Type := mk {
  time : Z;
  _rng_manager : RNGManager.t;
  _entities : list (string * handle);
  _phases : list string;
  _phase_registrations : gmap string (list (string * handle))
}.

Definition set_time (v : Z) (k : t) : t :=
  mk v (_rng_manager k) (_entities k) (_phases k) (_phase_registrations k).
Definition set_rng_manager (v : RNGManager.t) (k : t) : t :=
  mk (time k) v (_entities k) (_phases k) (_phase_registrations k).
Definition set_entities (v : list (string * handle)) (k : t) : t :=
  mk (time k) (_rng_manager k) v (_phases k) (_phase_registrations k).
Definition set_phases (v : list string) (k : t) : t :=
  mk (time k) (_rng_manager k) (_entities k) v (_phase_registrations k).
Definition set_phase_registrations
    (v : gmap string (list (string * handle))) (k : t) : t :=
  mk (time k) (_rng_manager k) (_entities k) (_phases k) v.

Definition default_phases : list string := ["perceive"; "act"; "commit"].

(** [Kernel(seed, phases)]: [phases or [...]] takes the default for [None]
    and for the empty list. *)
Definition init (seed : Z) (phases : option (list string)) : t :=
  let ps := match phases with
            | Some (p :: rest) => p :: rest
            | _ => default_phases
            end in
  mk 0 (RNGManager.init seed) [] ps (foldl (λ d p, <[p := []]> d) ∅ ps).

Definition is_registered (entity : handle) (k : t) : bool :=
  existsb (λ ie, bool_decide (entity = ie.2)) (_entities k).

Definition register (entity_id : string) (entity : handle)
    (phase : option string) : M t unit :=
  k <~ get ;;
  phase <~ match phase with
           | Some p => ret p
           | None => match _phases k with
                     | p :: _ => ret p
                     | [] => raise IndexError
                     end
           end ;;
  if negb (bool_decide (phase ∈ _phases k)) then
    raise (ValueError ("Unknown phase: " +:+ phase))
  else if is_registered entity k then ret tt
  else
    modify (set_entities (_entities k ++ [(entity_id, entity)])) ;;;
    match _phase_registrations k !! phase with
    | None => raise (KeyError phase)
    | Some l =>
        modify (set_phase_registrations
                  (<[phase := l ++ [(entity_id, entity)]]>
                     (_phase_registrations k)))
    end.

Definition without (entity : handle) (l : list (string * handle)) :
    list (string * handle) :=
  filter (λ ie, ie.2 ≠ entity) l.

Fixpoint unregister_phases (entity : handle) (ps : list string) : M t unit :=
  match ps with
  | [] => ret tt
  | p :: rest =>
      k <~ get ;;
      match _phase_registrations k !! p with
      | None => raise (KeyError p)
      | Some l =>
          modify (set_phase_registrations
                    (<[p := without entity l]> (_phase_registrations k))) ;;;
          unregister_phases entity rest
      end
  end.

Definition unregister (entity : handle) : M t unit :=
  k <~ get ;;
  modify (set_entities (without entity (_entities k))) ;;;
  unregister_phases entity (_phases k).

Definition get_rng (name : string) : M t string :=
  zoom _rng_manager set_rng_manager (RNGManager.get_stream name).

Definition snapshot : M t blob :=
  k <~ get ;;
  rs <~ zoom _rng_manager set_rng_manager RNGManager.get_state ;;
  ret (pickle_dumps (mkKernelState (Some (time k)) (Some rs) (Some (_phases k)))).

Definition restore (b : blob) : M t unit :=
  match pickle_loads b with
  | inl e => raise e
  | inr state =>
      match st_time state with
      | None => raise (KeyError "time")
      | Some tm =>
          modify (set_time tm) ;;;
          k <~ get ;;
          modify (set_phases (default (_phases k) (st_phases state))) ;;;
          match st_rng state with
          | None => raise (KeyError "rng")
          | Some rs =>
              zoom _rng_manager set_rng_manager (RNGManager.set_state rs)
          end
      end
  end.
End Kernel.

(** *** Kernel.step and Kernel.run *)

(** A tick calls into the registered entities, which are arbitrary objects
    of the caller. [E] is the part of the Python heap that belongs to them.
    What an entity does when it is called is a computation over the kernel it
    is handed and over [E]. *)
Section Step.
Context `{PyRandom} `{HashLib} `{!Pickle KernelState} {E : Type}.

(** What [getattr(entity, 'step_phase', None)] finds on the object. *)
Inductive Entity : Type :=
| PhaseAware (step_phase : string → M (Kernel.t * E) unit)
| Generic (step : M (Kernel.t * E) unit)
| NoStep.

(** One invocation: the phase, the id and the entity object. *)
Definition Call : Type := string * string * handle.

(** [invoked] is a log of the invocations made so far, oldest first. It
    belongs to the model, not to the program: no entity reads or writes it. *)
Record World : Type := mkWorld {
  kernel : Kernel.t;
  env : E;
  invoked : list Call
}.

Definition heap (w : World) : Kernel.t * E := (kernel w, env w).
Definition set_heap (ke : Kernel.t * E) (w : World) : World :=
  mkWorld ke.1 ke.2 (invoked w).
Definition set_kernel (k : Kernel.t) (w : World) : World :=
  mkWorld k (env w) (invoked w).
Definition log_call (c : Call) (w : World) : World :=
  mkWorld (kernel w) (env w) (invoked w ++ [c]).

Variable objects : handle → Entity.

(** [step_phase(self, phase)] if the entity has it, else [step(self)]. *)
Definition dispatch (entity : handle) (phase : string) : M (Kernel.t * E) unit :=
  match objects entity with
  | PhaseAware step_fn => step_fn phase
  | Generic step_fn => step_fn
  | NoStep => raise (AttributeError "step")
  end.

Definition invoke (phase entity_id : string) (entity : handle) : M World unit :=
  modify (log_call (phase, entity_id, entity)) ;;;
  zoom heap set_heap (dispatch entity phase).

Fixpoint run_entities (phase : string) (members : list (string * handle)) :
    M World unit :=
  match members with
  | [] => ret tt
  | (entity_id, entity) :: rest =>
      invoke phase entity_id entity ;;; run_entities phase rest
  end.

(** [list(self._phase_registrations[phase])] is read when the phase starts. *)
Fixpoint run_phases (phases : list string) : M World unit :=
  match phases with
  | [] => ret tt
  | phase :: rest =>
      w <~ get ;;
      match Kernel._phase_registrations (kernel w) !! phase with
      | None => raise (KeyError phase)
      | Some members => run_entities phase members ;;; run_phases rest
      end
  end.

Definition step : M World unit :=
  w <~ get ;;
  run_phases (Kernel._phases (kernel w)) ;;;
  modify (λ w, set_kernel (Kernel.set_time (Kernel.time (kernel w) + 1) (kernel w)) w).

Fixpoint repeat_step (n : nat) : M World unit :=
  match n with
  | O => ret tt
  | S n' => step ;;; repeat_step n'
  end.

(** [for _ in range(steps)]: no iteration for [steps <= 0]. *)
Definition run (steps : Z) : M World unit := repeat_step (Z.to_nat steps).

(** A method of the kernel called from outside a tick. *)
Definition on_kernel {A} (c : M Kernel.t A) : M World A :=
  zoom kernel set_kernel c.

(** A script of registrations: it stops at the first call that raises. *)
Definition Registration : Type := string * handle * option string.

Fixpoint register_all (script : list Registration) : M World unit :=
  match script with
  | [] => ret tt
  | (entity_id, entity, phase) :: rest =>
      on_kernel (Kernel.register entity_id entity phase) ;;; register_all rest
  end.

(** The entries that one tick goes through when nothing changes the
    registry on the way: phase by phase, members in list order. *)
Definition phase_calls (k : Kernel.t) (phase : string) : list Call :=
  map (λ ie, (phase, ie.1, ie.2))
    (default [] (Kernel._phase_registrations k !! phase)).

Definition schedule (k : Kernel.t) : list Call :=
  flat_map (phase_calls k) (Kernel._phases k).

(** The bookkeeping of the scheduler: who is registered, the declared
    phases, and the members of each phase. *)
Definition registry (k : Kernel.t) :
    list (string * handle) * list string * gmap string (list (string * handle)) :=
  (Kernel._entities k, Kernel._phases k, Kernel._phase_registrations k).
End Step.
End Kernel.

(** ** agentsimlab/agent.py *)

Module Agent.

(** An agent object with its attributes. *)
Inductive Obj : Type :=
| BaseAgent (agent_id : string)
| CounterAgent (agent_id : string) (counter : float).

(** The agent objects of a run, by identity. *)
Abbreviation Objs := (gmap handle Obj).

Section Agent.
Context `{PyRandom} `{HashLib} `{!Pickle KernelState}.

Definition with_kernel {A} (c : M Kernel.t A) : M (Kernel.t * Objs) A :=
  zoom fst (λ k ke, (k, ke.2)) c.

(** A draw from the stream object that [kernel.get_rng] returned. *)
Definition stream_random (stream : string) : M Kernel.t float :=
  zoom Kernel._rng_manager Kernel.set_rng_manager
    (RNGManager.on_stream stream RNGStream.random).

Definition act (self : handle) : M (Kernel.t * Objs) unit :=
  ke <~ get ;;
  match ke.2 !! self with
  | None => raise (AttributeError "act")
  | Some (BaseAgent _) => raise NotImplementedError
  | Some (CounterAgent agent_id counter) =>
      stream <~ with_kernel (Kernel.get_rng agent_id) ;;
      v <~ with_kernel (stream_random stream) ;;
      modify (λ ke, (ke.1, <[self := CounterAgent agent_id (counter + v)]> ke.2))
  end.

Definition step (self : handle) : M (Kernel.t * Objs) unit := act self.

Definition step_phase (self : handle) (phase : string) :
    M (Kernel.t * Objs) unit :=
  step self.

(** Every agent class inherits [step_phase] from [BaseAgent]. *)
Definition entity (self : handle) : Kernel.Entity (E := Objs) :=
  Kernel.PhaseAware (step_phase self).
End Agent.
End Agent.

(** ** Stand-ins for the libraries, for running the model on examples *)

Module Standin.

(** A 64-bit linear congruential generator in the place of the Mersenne
    Twister; its state token carries a version tag, as CPython's does. It
    has no [gauss_next], so a token it rejects leaves it alone. *)
Definition lcg_next (r : Z) : Z :=
  (r * 6364136223846793005 + 1442695040888963407) mod 2 ^ 64.

Definition lcg_float (r : Z) : float :=
  (PrimFloat.of_uint63 (Uint63.of_Z (r / 2 ^ 11))
   / PrimFloat.of_uint63 (Uint63.of_Z (2 ^ 53)))%float.

Definition lcg_setstate (tok : list Z) : Exn + Z :=
  match tok with
  | [3; r] => inr r
  | _ => inl (ValueError "state with wrong version passed to setstate()")
  end.

#[export] Instance lcg : PyRandom := {|
  rng := Z;
  token := list Z;
  Random seed := Z.abs seed mod 2 ^ 64;
  rng_random r := let r' := lcg_next r in (lcg_float r', r');
  rng_randint a b r :=
    if b <? a then inl (ValueError "empty range for randrange()")
    else let r' := lcg_next r in inr (a + r' mod (b - a + 1), r');
  rng_getrandbits k r := let r' := lcg_next r in (r' mod 2 ^ Z.of_N k, r');
  rng_getstate r := [3; r];
  rng_setstate := lcg_setstate;
  rng_setstate_rejected _ r := r;
  rng_setstate_getstate r := eq_refl
|}.

Fixpoint mix (s : string) (acc : Z) : Z :=
  match s with
  | EmptyString => acc
  | String c rest => mix rest ((acc * 31 + Z.of_N (Ascii.N_of_ascii c)) mod 2 ^ 256)
  end.

(** A name is written here in the generalised UTF-8 in which a lone
    surrogate [U+D800..U+DFFF] is the three bytes [ED A0..BF 80..BF]; the
    names that hold one are those that [encode('utf-8')] refuses. *)
Fixpoint has_surrogate (s : string) : bool :=
  match s with
  | EmptyString => false
  | String c rest =>
      match rest with
      | EmptyString => false
      | String d _ =>
          (Ascii.N_of_ascii c =? 237)%N && (160 <=? Ascii.N_of_ascii d)%N
          || has_surrogate rest
      end
  end.

#[export] Instance digest : HashLib := {|
  sha256_int name :=
    if has_surrogate name then inl UnicodeEncodeError else inr (mix name 7)
|}.

(** [Some v] stands for the bytes of [pickle.dumps(v)], [None] for bytes
    that do not unpickle. *)
#[export] Instance codec : Pickle KernelState := {|
  blob := option KernelState;
  pickle_dumps v := Some v;
  pickle_loads b := match b with Some v => inr v | None => inl UnpicklingError end;
  pickle_loads_dumps v := eq_refl
|}.

End Standin.

(** * Properties *)

Ltac unfold_m :=
  unfold bind, get, modify, ret, raise, zoom, raised, returned in *;
  simpl in *.

Lemma outcome_eta {S A} (o : Outcome S A) (r : Exn + A) :
  result o = r → o = mkOutcome (final o) r.
Proof. intros <-. by destruct o. Qed.

Lemma outcome_eta_full {S A} (o : Outcome S A) (s : S) (r : Exn + A) :
  final o = s → result o = r → o = mkOutcome s r.
Proof. intros <- <-. by destruct o. Qed.

(** ** The stream manager *)

Section StreamManager.
Context `{PyRandom} `{HashLib}.

(** The seed that [_derive_seed] computes from the digest of the name and
    the 64 bits it drew. *)
Definition mixed_seed (digest drawn : Z) : Z :=
  Z.land (Z.lxor drawn (Z.land digest (2 ^ 64 - 1))) (2 ^ 63 - 1).

(** A name that [name.encode('utf-8')] accepts. *)
Definition encodable (name : string) : Prop :=
  ∃ digest, sha256_int name = inr digest.

(** The manager after a [get_stream name] that had to derive the stream:
    the master has drawn 64 bits, and the stream is stored unless the name
    does not encode. *)
Definition derived (name : string) (m : RNGManager.t) : RNGManager.t :=
  let dr := rng_getrandbits 64 (RNGManager.master m) in
  RNGManager.mk (RNGManager.master_seed m) dr.2
    match sha256_int name with
    | inr digest =>
        <[name := RNGStream.init (mixed_seed digest dr.1)]>
          (RNGManager._streams m)
    | inl _ => RNGManager._streams m
    end.

Lemma get_stream_final (name : string) (m : RNGManager.t) :
  final (RNGManager.get_stream name m) =
    match RNGManager._streams m !! name with
    | Some _ => m
    | None => derived name m
    end.
Proof.
  unfold RNGManager.get_stream, RNGManager._derive_seed, derived.
  unfold_m. destruct (RNGManager._streams m !! name) eqn:Hl; simpl; [done|].
  destruct (rng_getrandbits 64 (RNGManager.master m)) as [drawn r]. simpl.
  destruct (sha256_int name); simpl; [|done]. by destruct m.
Qed.

Lemma get_stream_result_cases (name : string) (m : RNGManager.t) :
  result (RNGManager.get_stream name m) =
    match RNGManager._streams m !! name, sha256_int name with
    | None, inl e => inl e
    | _, _ => inr name
    end.
Proof.
  unfold RNGManager.get_stream, RNGManager._derive_seed.
  unfold_m. destruct (RNGManager._streams m !! name); simpl.
  - by destruct (sha256_int name).
  - destruct (rng_getrandbits 64 (RNGManager.master m)). simpl.
    by destruct (sha256_int name).
Qed.

Lemma get_stream_result (name : string) (m : RNGManager.t) :
  is_Some (RNGManager._streams m !! name) ∨ encodable name →
  result (RNGManager.get_stream name m) = inr name.
Proof.
  intros Hcan. rewrite get_stream_result_cases.
  destruct (RNGManager._streams m !! name) as [s|] eqn:Hs.
  - by destruct (sha256_int name).
  - destruct Hcan as [[s Hs']|[digest ->]]; done.
Qed.

Lemma get_stream_present (name : string) (m : RNGManager.t) :
  is_Some (RNGManager._streams m !! name) ∨ encodable name →
  is_Some (RNGManager._streams (final (RNGManager.get_stream name m)) !! name).
Proof.
  intros Hcan. rewrite get_stream_final.
  destruct (RNGManager._streams m !! name) eqn:Hl; [by rewrite Hl|].
  destruct Hcan as [[s Hs]|[digest Hd]]; [done|].
  unfold derived. simpl. rewrite Hd, lookup_insert_eq. eauto.
Qed.

Lemma get_stream_hit (name : string) (m : RNGManager.t) :
  is_Some (RNGManager._streams m !! name) →
  RNGManager.get_stream name m = mkOutcome m (inr name).
Proof.
  intros Hin.
  pose proof (get_stream_final name m) as Hf.
  pose proof (get_stream_result name m (or_introl Hin)) as Hr.
  destruct Hin as [s Hs].
  rewrite Hs in Hf. destruct (RNGManager.get_stream name m).
  simpl in *. by subst.
Qed.

Lemma get_stream_again (name : string) (m : RNGManager.t) :
  is_Some (RNGManager._streams m !! name) ∨ encodable name →
  RNGManager.get_stream name (final (RNGManager.get_stream name m)) =
    mkOutcome (final (RNGManager.get_stream name m)) (inr name).
Proof. intros Hcan. by apply get_stream_hit, get_stream_present. Qed.

Lemma get_stream_unencodable (name : string) (m : RNGManager.t) (e : Exn) :
  RNGManager._streams m !! name = None →
  sha256_int name = inl e →
  RNGManager.get_stream name m =
    mkOutcome
      (RNGManager.set_master (rng_getrandbits 64 (RNGManager.master m)).2 m)
      (inl e).
Proof.
  intros Hs He. apply outcome_eta_full.
  - rewrite get_stream_final, Hs. unfold derived. by rewrite He.
  - by rewrite get_stream_result_cases, Hs, He.
Qed.

(** Looking the stream up [S lookups] times in a row and drawing once from
    the handle. *)
Definition lookup_and_draw (lookups : nat) (name : string) : M RNGManager.t float :=
  Nat.iter lookups (λ c, RNGManager.get_stream name ;;; c)
    (stream <~ RNGManager.get_stream name ;;
     RNGManager.on_stream stream RNGStream.random).

Lemma lookup_and_draw_hit (n : nat) (name : string) (m : RNGManager.t) :
  is_Some (RNGManager._streams m !! name) →
  lookup_and_draw n name m = RNGManager.on_stream name RNGStream.random m.
Proof.
  intros Hin. unfold lookup_and_draw.
  induction n as [|n IH]; simpl; unfold bind at 1;
    rewrite (get_stream_hit name m Hin); simpl; [done|apply IH].
Qed.

(** C5, as the code has it. On a name that is already there [get_stream]
    changes nothing; on a new name it first draws 64 bits from the master
    generator. If the name is there or UTF-8 can encode it, the call
    returns the stream, which is stored from then on; any further
    [get_stream name] returns the same stream and leaves the manager, the
    master position included, as it was, and a draw after any number of
    repeated lookups is the draw after one. If the name is new and does not
    encode, the call raises the encoder's error after the master has drawn,
    and stores nothing: the next call finds the name new again. *)
Theorem get_stream_idempotent (name : string) (m : RNGManager.t) (again : nat) :
  let first := RNGManager.get_stream name m in
  final first =
    match RNGManager._streams m !! name with
    | Some _ => m
    | None => derived name m
    end
  ∧ (is_Some (RNGManager._streams m !! name) ∨ encodable name →
     result first = inr name
     ∧ is_Some (RNGManager._streams (final first) !! name)
     ∧ RNGManager.get_stream name (final first) =
         mkOutcome (final first) (inr name)
     ∧ RNGManager.master (final (RNGManager.get_stream name (final first))) =
         RNGManager.master (final first)
     ∧ lookup_and_draw again name m = lookup_and_draw 0 name m)
  ∧ (∀ e, RNGManager._streams m !! name = None → sha256_int name = inl e →
     result first = inl e
     ∧ RNGManager.master (final first) =
         (rng_getrandbits 64 (RNGManager.master m)).2
     ∧ RNGManager._streams (final first) = RNGManager._streams m
     ∧ RNGManager.master_seed (final first) = RNGManager.master_seed m).
Proof.
  intros first. subst first.
  split; [apply get_stream_final|]. split.
  - intros Hcan.
    split; [by apply get_stream_result|].
    split; [by apply get_stream_present|].
    split; [by apply get_stream_again|].
    split; [by rewrite get_stream_again|].
    assert (∀ n, lookup_and_draw n name m =
                 RNGManager.on_stream name RNGStream.random
                   (final (RNGManager.get_stream name m))) as Hall.
    { intros n. destruct n as [|n]; unfold lookup_and_draw; simpl;
        unfold bind at 1; rewrite get_stream_result by done; simpl; [done|].
      by apply (lookup_and_draw_hit n), get_stream_present. }
    by rewrite !Hall.
  - intros e Hs He. by rewrite (get_stream_unencodable name m e).
Qed.
End StreamManager.

(** ** Registration *)

Section Registration.
Context `{PyRandom} `{HashLib} `{!Pickle KernelState}.

(** The entity is somewhere in the registry: in the global list or in the
    list of some phase. *)
Definition in_registry (entity : handle) (k : Kernel.t) : Prop :=
  entity ∈ (Kernel._entities k).*2 ∨
  ∃ p members, Kernel._phase_registrations k !! p = Some members ∧
               entity ∈ members.*2.

Lemma is_registered_spec (entity : handle) (k : Kernel.t) :
  Kernel.is_registered entity k = true ↔ entity ∈ (Kernel._entities k).*2.
Proof.
  unfold Kernel.is_registered. rewrite existsb_exists. split.
  - intros [ie [Hin Heq]]. apply bool_decide_eq_true in Heq. subst.
    apply list_elem_of_fmap. exists ie. split; [done|]. by apply list_elem_of_In.
  - intros [ie [-> Hin]]%list_elem_of_fmap. exists ie.
    split; [by apply list_elem_of_In|]. by apply bool_decide_eq_true.
Qed.

Lemma register_unknown (entity_id : string) (entity : handle) (phase : string)
    (k : Kernel.t) :
  phase ∉ Kernel._phases k →
  Kernel.register entity_id entity (Some phase) k =
    mkOutcome k (inl (ValueError ("Unknown phase: " +:+ phase))).
Proof.
  intros Hp. unfold Kernel.register. unfold_m.
  by rewrite bool_decide_eq_false_2.
Qed.

Lemma register_duplicate (entity_id : string) (entity : handle) (phase : string)
    (k : Kernel.t) :
  phase ∈ Kernel._phases k →
  Kernel.is_registered entity k = true →
  Kernel.register entity_id entity (Some phase) k = mkOutcome k (inr tt).
Proof.
  intros Hp Hr. unfold Kernel.register. unfold_m.
  rewrite bool_decide_eq_true_2 by done. simpl. by rewrite Hr.
Qed.

Lemma register_default_phase (entity_id : string) (entity : handle)
    (p : string) (rest : list string) (k : Kernel.t) :
  Kernel._phases k = p :: rest →
  Kernel.register entity_id entity None k =
    Kernel.register entity_id entity (Some p) k.
Proof. intros Hp. unfold Kernel.register. unfold_m. by rewrite Hp. Qed.

(** C4. A [register] call that names a phase outside the declared list
    raises the unknown-phase [ValueError] before it writes anything: the
    kernel is left as it was, so an entity that was nowhere in the registry
    is nowhere in it afterwards. *)
Theorem register_unknown_phase_raises (entity_id : string) (entity : handle)
    (phase : string) (k : Kernel.t) :
  phase ∉ Kernel._phases k →
  let o := Kernel.register entity_id entity (Some phase) k in
  raised o = Some (ValueError ("Unknown phase: " +:+ phase)) ∧
  final o = k ∧
  (¬ in_registry entity k → ¬ in_registry entity (final o)).
Proof.
  intros Hp o. subst o. by rewrite register_unknown.
Qed.

(** C10. For an entity that is already registered the phase is still
    checked first: an undeclared phase raises the unknown-phase error, a
    declared one, or the default when there is a first phase, makes the call
    a no-op. *)
Theorem register_checks_phase_before_duplicate (entity_id : string)
    (entity : handle) (phase : option string) (k : Kernel.t) :
  Kernel.is_registered entity k = true →
  Kernel.register entity_id entity phase k =
    match phase with
    | Some p =>
        if bool_decide (p ∈ Kernel._phases k) then mkOutcome k (inr tt)
        else mkOutcome k (inl (ValueError ("Unknown phase: " +:+ p)))
    | None =>
        match Kernel._phases k with
        | [] => mkOutcome k (inl IndexError)
        | _ :: _ => mkOutcome k (inr tt)
        end
    end.
Proof.
  intros Hr. destruct phase as [p|].
  - case_bool_decide.
    + by apply register_duplicate.
    + by apply register_unknown.
  - destruct (Kernel._phases k) as [|p rest] eqn:Hp.
    + unfold Kernel.register. unfold_m. by rewrite Hp.
    + rewrite (register_default_phase _ _ p rest) by done.
      apply register_duplicate; [rewrite Hp; left|done].
Qed.
End Registration.

(** ** Importing state *)

Section ImportState.
Context `{PyRandom} `{HashLib}.

Definition accepted (tok : token) : Prop := ∃ r, rng_setstate tok = inr r.

(** The dict of streams once position [r] has been imported under [name]:
    an existing stream object keeps its [_seed], a new one was made by
    [RNGStream(0)]. *)
Definition stored (name : string) (r : rng) (d : gmap string RNGStream.t) :
    gmap string RNGStream.t :=
  <[name := RNGStream.mk
              (match d !! name with Some s => RNGStream._seed s | None => 0 end)
              r]> d.

Fixpoint stored_all (items : list (string * token))
    (d : gmap string RNGStream.t) : gmap string RNGStream.t :=
  match items with
  | [] => d
  | (name, tok) :: rest =>
      match rng_setstate tok with
      | inr r => stored_all rest (stored name r d)
      | inl _ => d
      end
  end.

Lemma set_streams_same (m : RNGManager.t) :
  RNGManager.set_streams (RNGManager._streams m) m = m.
Proof. by destruct m. Qed.

Lemma stream_set_state_rejected (tok : token) (e : Exn) (s : RNGStream.t) :
  rng_setstate tok = inl e →
  RNGStream.set_state tok s =
    mkOutcome
      (RNGStream.set_rng (rng_setstate_rejected tok (RNGStream._rng s)) s)
      (inl e).
Proof. intros Hr. unfold RNGStream.set_state. by rewrite Hr. Qed.

Lemma stream_set_state_accepted (tok : token) (r : rng) (s : RNGStream.t) :
  rng_setstate tok = inr r →
  RNGStream.set_state tok s = mkOutcome (RNGStream.set_rng r s) (inr tt).
Proof. intros Hr. unfold RNGStream.set_state. by rewrite Hr. Qed.

Lemma import_stream_accepted (name : string) (tok : token) (r : rng)
    (m : RNGManager.t) :
  rng_setstate tok = inr r →
  RNGManager.import_stream name tok m =
    mkOutcome (RNGManager.set_streams (stored name r (RNGManager._streams m)) m)
      (inr tt).
Proof.
  intros Hr. unfold RNGManager.import_stream, RNGManager.on_stream, stored.
  unfold_m. destruct (RNGManager._streams m !! name) as [s|] eqn:Hl; simpl.
  - rewrite Hl. simpl. by rewrite (stream_set_state_accepted _ r).
  - by rewrite (stream_set_state_accepted _ r).
Qed.

(** The dict of streams after [tok] was rejected on the way to [name]: an
    existing stream object has been through the failed call, a new one was
    dropped. *)
Definition rejected (name : string) (tok : token)
    (d : gmap string RNGStream.t) : gmap string RNGStream.t :=
  match d !! name with
  | Some s =>
      <[name := RNGStream.set_rng
                  (rng_setstate_rejected tok (RNGStream._rng s)) s]> d
  | None => d
  end.

Lemma import_stream_rejected (name : string) (tok : token) (e : Exn)
    (m : RNGManager.t) :
  rng_setstate tok = inl e →
  RNGManager.import_stream name tok m =
    mkOutcome (RNGManager.set_streams (rejected name tok (RNGManager._streams m)) m)
      (inl e).
Proof.
  intros Hr. unfold RNGManager.import_stream, RNGManager.on_stream, rejected.
  unfold_m. destruct (RNGManager._streams m !! name) as [s|] eqn:Hl; simpl.
  - rewrite Hl. simpl. by rewrite (stream_set_state_rejected _ e).
  - rewrite (stream_set_state_rejected _ e) by done. simpl.
    by rewrite set_streams_same.
Qed.

Lemma import_streams_accepted (items : list (string * token))
    (m : RNGManager.t) :
  Forall (λ nt, accepted nt.2) items →
  RNGManager.import_streams items m =
    mkOutcome (RNGManager.set_streams (stored_all items (RNGManager._streams m)) m)
      (inr tt).
Proof.
  intros Hall. revert m.
  induction Hall as [|[name tok] rest [r Hr] _ IH]; intros m; simpl.
  - unfold ret. by rewrite set_streams_same.
  - simpl in Hr. unfold bind. rewrite (import_stream_accepted _ _ r) by done.
    simpl. rewrite IH, Hr. by destruct m.
Qed.

Lemma import_streams_stops (before rest : list (string * token))
    (name : string) (tok : token) (e : Exn) (m : RNGManager.t) :
  Forall (λ nt, accepted nt.2) before →
  rng_setstate tok = inl e →
  RNGManager.import_streams (before ++ (name, tok) :: rest) m =
    mkOutcome
      (RNGManager.set_streams
         (rejected name tok (stored_all before (RNGManager._streams m))) m)
      (inl e).
Proof.
  intros Hall He. revert m.
  induction Hall as [|[n t] before [r Hr] _ IH]; intros m; simpl.
  - unfold bind. by rewrite (import_stream_rejected _ _ e).
  - simpl in Hr. unfold bind. rewrite (import_stream_accepted _ _ r) by done.
    simpl. rewrite IH, Hr. by destruct m.
Qed.

Lemma stored_all_other (items : list (string * token))
    (d : gmap string RNGStream.t) (name : string) :
  name ∉ items.*1 → stored_all items d !! name = d !! name.
Proof.
  revert d. induction items as [|[n tok] rest IH]; intros d Hnot; [done|].
  simpl in *. apply not_elem_of_cons in Hnot as [Hne Hnot].
  destruct (rng_setstate tok); [done|].
  rewrite IH by done. unfold stored. by rewrite lookup_insert_ne.
Qed.

Lemma stored_all_imported (items : list (string * token))
    (d : gmap string RNGStream.t) (name : string) (tok : token) (r : rng) :
  NoDup items.*1 →
  Forall (λ nt, accepted nt.2) items →
  (name, tok) ∈ items →
  rng_setstate tok = inr r →
  stored_all items d !! name =
    Some (RNGStream.mk
            (match d !! name with Some s => RNGStream._seed s | None => 0 end)
            r).
Proof.
  revert d. induction items as [|[n t] rest IH]; intros d Hnd Hall Hin Hr.
  - by apply elem_of_nil in Hin.
  - simpl in *. apply NoDup_cons in Hnd as [Hfresh Hnd].
    apply Forall_cons in Hall as [[r' Hr'] Hall]. simpl in Hr'.
    rewrite Hr'. apply elem_of_cons in Hin as [Heq|Hin].
    + inversion Heq; subst. rewrite stored_all_other by done.
      unfold stored. rewrite lookup_insert_eq. congruence.
    + assert (name ≠ n) as Hne.
      { intros ->. apply Hfresh. apply list_elem_of_fmap. by exists (n, tok). }
      rewrite (IH _ Hnd Hall Hin Hr). unfold stored.
      by rewrite lookup_insert_ne.
Qed.
End ImportState.

Section Restore.
Context `{PyRandom} `{HashLib} `{!Pickle KernelState}.

Lemma set_state_accepted (rs : RngState) (ms : token) (r : rng)
    (m : RNGManager.t) :
  master_state rs = Some ms →
  rng_setstate ms = inr r →
  Forall (λ nt, accepted nt.2) (default [] (streams rs)) →
  RNGManager.set_state rs m =
    mkOutcome
      (RNGManager.mk (RNGManager.master_seed m) r
         (stored_all (default [] (streams rs)) (RNGManager._streams m)))
      (inr tt).
Proof.
  intros Hms Hr Hall. unfold RNGManager.set_state. rewrite Hms, Hr.
  unfold bind, modify. simpl. by rewrite import_streams_accepted.
Qed.

(** The kernel after a [restore] that went through. *)
Definition restored (tm : Z) (phases : option (list string)) (r : rng)
    (items : list (string * token)) (k : Kernel.t) : Kernel.t :=
  Kernel.mk tm
    (RNGManager.mk (RNGManager.master_seed (Kernel._rng_manager k)) r
       (stored_all items (RNGManager._streams (Kernel._rng_manager k))))
    (Kernel._entities k)
    (default (Kernel._phases k) phases)
    (Kernel._phase_registrations k).

Lemma restore_accepted (b : blob) (k : Kernel.t) (state : KernelState)
    (tm : Z) (rs : RngState) (ms : token) (r : rng) :
  pickle_loads b = inr state →
  st_time state = Some tm →
  st_rng state = Some rs →
  master_state rs = Some ms →
  rng_setstate ms = inr r →
  Forall (λ nt, accepted nt.2) (default [] (streams rs)) →
  Kernel.restore b k =
    mkOutcome (restored tm (st_phases state) r (default [] (streams rs)) k)
      (inr tt).
Proof.
  intros Hb Ht Hrs Hms Hr Hall. unfold Kernel.restore.
  rewrite Hb, Ht. unfold_m. rewrite Hrs.
  by rewrite (set_state_accepted rs ms r).
Qed.

Lemma restore_registry (b : blob) (k : Kernel.t) :
  Kernel._entities (final (Kernel.restore b k)) = Kernel._entities k ∧
  Kernel._phase_registrations (final (Kernel.restore b k)) =
    Kernel._phase_registrations k.
Proof.
  unfold Kernel.restore. destruct (pickle_loads b) as [e|state]; [done|].
  destruct (st_time state); [|done]. unfold_m.
  by destruct (st_rng state).
Qed.

(** C9. On a well-formed blob [restore] returns, having written exactly the
    time, the phase list and the state of the stream manager: the global
    entity list and the per-phase lists are as before. In the manager the
    master generator and every stream named in the blob are at the imported
    position, and a stream whose name the blob does not mention is the
    stream it was. *)
Theorem restore_frame (b : blob) (k : Kernel.t) (state : KernelState)
    (tm : Z) (rs : RngState) (ms : token) (r : rng) :
  pickle_loads b = inr state →
  st_time state = Some tm →
  st_rng state = Some rs →
  master_state rs = Some ms →
  rng_setstate ms = inr r →
  Forall (λ nt, accepted nt.2) (default [] (streams rs)) →
  NoDup (default [] (streams rs)).*1 →
  let o := Kernel.restore b k in
  let before := RNGManager._streams (Kernel._rng_manager k) in
  let after := RNGManager._streams (Kernel._rng_manager (final o)) in
  returned o ∧
  Kernel.time (final o) = tm ∧
  Kernel._phases (final o) = default (Kernel._phases k) (st_phases state) ∧
  RNGManager.master (Kernel._rng_manager (final o)) = r ∧
  Kernel._entities (final o) = Kernel._entities k ∧
  Kernel._phase_registrations (final o) = Kernel._phase_registrations k ∧
  (∀ name tok r', (name, tok) ∈ default [] (streams rs) →
     rng_setstate tok = inr r' →
     RNGStream._rng <$> after !! name = Some r') ∧
  (∀ name, name ∉ (default [] (streams rs)).*1 →
     after !! name = before !! name).
Proof.
  intros Hb Ht Hrs Hms Hr Hall Hnd o before after. subst o before after.
  rewrite (restore_accepted b k state tm rs ms r) by done. simpl.
  repeat split; try done.
  - intros name tok r' Hin Hr'.
    by rewrite (stored_all_imported _ _ name tok r').
  - intros name Hnot. by apply stored_all_other.
Qed.

(** The kernel once [restore] has assigned the time and the phase list. *)
Definition retimed (tm : Z) (phases : option (list string)) (k : Kernel.t) :
    Kernel.t :=
  Kernel.set_phases (default (Kernel._phases k) phases) (Kernel.set_time tm k).

Lemma restore_after_time (b : blob) (k : Kernel.t) (state : KernelState)
    (tm : Z) :
  pickle_loads b = inr state →
  st_time state = Some tm →
  Kernel.restore b k =
    match st_rng state with
    | None => mkOutcome (retimed tm (st_phases state) k) (inl (KeyError "rng"))
    | Some rs =>
        let o := RNGManager.set_state rs (Kernel._rng_manager k) in
        mkOutcome
          (Kernel.set_rng_manager (final o) (retimed tm (st_phases state) k))
          (result o)
    end.
Proof.
  intros Hb Ht. unfold Kernel.restore. rewrite Hb, Ht. unfold_m.
  destruct (st_rng state) as [rs|]; [|done]. simpl. by destruct k.
Qed.

(** C3, as the code has it. [restore] does not look at the whole blob before
    it writes, and takes nothing back. A blob that does not unpickle, or
    whose dictionary has no time, raises with the kernel exactly as it was.
    After that the time and the phase list are assigned, and a missing
    ['rng'] or ['master_state'] key raises [KeyError] with both written. A
    master token that the generator rejects raises the generator's error
    with the master as the failed call left it; a stream token that is
    rejected raises it with the master and the streams before that one at
    their imported positions. A stream handed a token that its generator
    rejects raises that error and keeps its [_seed]. Whatever the blob, the
    entity registry is untouched. *)
Theorem restore_rejects_malformed (b : blob) (k : Kernel.t) :
  let o := Kernel.restore b k in
  (∀ e, pickle_loads b = inl e → o = mkOutcome k (inl e)) ∧
  (∀ state, pickle_loads b = inr state → st_time state = None →
     o = mkOutcome k (inl (KeyError "time"))) ∧
  (∀ state tm, pickle_loads b = inr state → st_time state = Some tm →
     st_rng state = None →
     o = mkOutcome (retimed tm (st_phases state) k) (inl (KeyError "rng"))) ∧
  (∀ state tm rs, pickle_loads b = inr state → st_time state = Some tm →
     st_rng state = Some rs → master_state rs = None →
     o = mkOutcome (retimed tm (st_phases state) k)
           (inl (KeyError "master_state"))) ∧
  (∀ state tm rs ms e, pickle_loads b = inr state → st_time state = Some tm →
     st_rng state = Some rs → master_state rs = Some ms →
     rng_setstate ms = inl e →
     o = mkOutcome
           (Kernel.set_rng_manager
              (RNGManager.set_master
                 (rng_setstate_rejected ms
                    (RNGManager.master (Kernel._rng_manager k)))
                 (Kernel._rng_manager k))
              (retimed tm (st_phases state) k))
           (inl e)) ∧
  (∀ state tm rs ms r before name tok rest e,
     pickle_loads b = inr state → st_time state = Some tm →
     st_rng state = Some rs → master_state rs = Some ms →
     rng_setstate ms = inr r →
     default [] (streams rs) = before ++ (name, tok) :: rest →
     Forall (λ nt, accepted nt.2) before →
     rng_setstate tok = inl e →
     o = mkOutcome
           (Kernel.set_rng_manager
              (RNGManager.mk
                 (RNGManager.master_seed (Kernel._rng_manager k)) r
                 (rejected name tok
                    (stored_all before
                       (RNGManager._streams (Kernel._rng_manager k)))))
              (retimed tm (st_phases state) k))
           (inl e)) ∧
  Kernel._entities (final o) = Kernel._entities k ∧
  Kernel._phase_registrations (final o) = Kernel._phase_registrations k ∧
  (∀ tok e s, rng_setstate tok = inl e →
     raised (RNGStream.set_state tok s) = Some e ∧
     RNGStream._seed (final (RNGStream.set_state tok s)) = RNGStream._seed s).
Proof.
  intros o. subst o.
  split; [intros e Hb; unfold Kernel.restore; by rewrite Hb|].
  split; [intros state Hb Ht; unfold Kernel.restore; by rewrite Hb, Ht|].
  split.
  { intros state tm Hb Ht Hrs. by rewrite (restore_after_time b k state tm), Hrs. }
  split.
  { intros state tm rs Hb Ht Hrs Hms.
    rewrite (restore_after_time b k state tm), Hrs by done.
    unfold RNGManager.set_state. rewrite Hms. simpl. by destruct k. }
  split.
  { intros state tm rs ms e Hb Ht Hrs Hms He.
    rewrite (restore_after_time b k state tm), Hrs by done.
    unfold RNGManager.set_state. by rewrite Hms, He. }
  split.
  { intros state tm rs ms r before name tok rest e Hb Ht Hrs Hms Hr Hitems
      Hall He.
    rewrite (restore_after_time b k state tm), Hrs by done.
    unfold RNGManager.set_state. rewrite Hms, Hr, Hitems.
    unfold bind, modify. simpl.
    by rewrite (import_streams_stops before rest name tok e). }
  split; [apply restore_registry|].
  split; [apply restore_registry|].
  intros tok e s He. by rewrite (stream_set_state_rejected tok e s).
Qed.
End Restore.

(** ** Ticks *)

Section Ticks.
Context `{PyRandom} `{HashLib} `{!Pickle KernelState} {E : Type}.
Variable objects : handle → Kernel.Entity (E := E).

Local Abbreviation World := (Kernel.World (E := E)).
Local Abbreviation run_entities := (Kernel.run_entities objects).
Local Abbreviation run_phases := (Kernel.run_phases objects).
Local Abbreviation step := (Kernel.step objects).
Local Abbreviation run := (Kernel.run objects).

Lemma bind_returned {S A B} (m : M S A) (f : A → M S B) (s s' : S) (a : A) :
  m s = mkOutcome s' (inr a) → bind m f s = f a s'.
Proof. intros Hm. unfold bind. by rewrite Hm. Qed.

Lemma bind_raised {S A B} (m : M S A) (f : A → M S B) (s s' : S) (e : Exn) :
  m s = mkOutcome s' (inl e) → bind m f s = mkOutcome s' (inl e).
Proof. intros Hm. unfold bind. by rewrite Hm. Qed.

Lemma run_entities_app (phase : string) (ms1 ms2 : list (string * handle))
    (w : World) :
  run_entities phase (ms1 ++ ms2) w =
    (run_entities phase ms1 ;;; run_entities phase ms2) w.
Proof.
  revert w. induction ms1 as [|[i e] ms1 IH]; intros w; simpl.
  - unfold bind, ret. simpl. by destruct (run_entities phase ms2 w).
  - unfold bind in *.
    destruct (Kernel.invoke objects phase i e w) as [w1 [x|[]]]; simpl; [done|].
    apply IH.
Qed.

Lemma run_phases_app (ps1 ps2 : list string) (w : World) :
  run_phases (ps1 ++ ps2) w = (run_phases ps1 ;;; run_phases ps2) w.
Proof.
  revert w. induction ps1 as [|p ps1 IH]; intros w; simpl.
  - unfold bind, ret. simpl. by destruct (run_phases ps2 w).
  - unfold bind, get in *. simpl.
    destruct (Kernel._phase_registrations (Kernel.kernel w) !! p)
      as [members|]; [|done].
    destruct (run_entities p members w) as [w1 [x|[]]]; simpl; [done|].
    apply IH.
Qed.

(** The loops of [step] end at the first invocation that raises. *)
Lemma step_stops (w w1 w2 w3 : World) (ps1 ps2 : list string)
    (p : string) (ms1 ms2 : list (string * handle)) (entity_id : string)
    (entity : handle) (e : Exn) (steps : Z) :
  Kernel._phases (Kernel.kernel w) = ps1 ++ p :: ps2 →
  run_phases ps1 w = mkOutcome w1 (inr tt) →
  Kernel._phase_registrations (Kernel.kernel w1) !! p =
    Some (ms1 ++ (entity_id, entity) :: ms2) →
  run_entities p ms1 w1 = mkOutcome w2 (inr tt) →
  Kernel.invoke objects p entity_id entity w2 = mkOutcome w3 (inl e) →
  0 < steps →
  step w = mkOutcome w3 (inl e) ∧
  run steps w = mkOutcome w3 (inl e) ∧
  Kernel.time (Kernel.kernel (final (step w))) =
    Kernel.time (Kernel.kernel w3).
Proof.
  intros Hps H1 Hreg H2 H3 Hsteps.
  assert (step w = mkOutcome w3 (inl e)) as Hstep.
  { unfold Kernel.step. unfold bind at 1. unfold get. simpl.
    apply bind_raised. rewrite Hps, run_phases_app.
    rewrite (bind_returned _ _ _ _ _ H1). simpl.
    unfold bind at 1. unfold get. simpl. rewrite Hreg.
    apply bind_raised. rewrite run_entities_app.
    rewrite (bind_returned _ _ _ _ _ H2). simpl.
    by apply bind_raised. }
  split; [done|]. split; [|by rewrite Hstep].
  unfold Kernel.run. destruct (Z.to_nat steps) as [|n] eqn:Hn; [lia|].
  simpl. by apply bind_raised.
Qed.
(** The members called in a phase are those of the list handed to
    [run_entities], which [run_phases] read when the phase started: whatever
    the entities do to the registry while the phase runs, a phase that
    completes has called exactly them, in their order. *)
Lemma run_entities_calls (p : string) (members : list (string * handle))
    (w : World) :
  returned (run_entities p members w) →
  Kernel.invoked (final (run_entities p members w)) =
    Kernel.invoked w ++ map (λ ie, (p, ie.1, ie.2)) members.
Proof.
  revert w. induction members as [|[i e] members IH]; intros w Hret.
  - simpl. by rewrite app_nil_r.
  - cbn [Kernel.run_entities map] in *. unfold bind in *.
    destruct (Kernel.invoke objects p i e w) as [w1 [x|[]]] eqn:Hinvoke;
      cbn [final result] in *; [done|].
    rewrite (IH w1 Hret). unfold Kernel.invoke in Hinvoke. unfold_m.
    injection Hinvoke as <- _. simpl. by rewrite <- app_assoc.
Qed.

(** *** Ticks over entities that leave the kernel's bookkeeping alone *)

(** [Inv] is whatever the entities need of the kernel and of their own
    objects in order to run. *)
Variable Inv : Kernel.t * E → Prop.

(** A call that returns, keeps [Inv], and writes neither the registry nor
    the time. *)
Definition quiet_call (ke : Kernel.t * E) (o : Outcome (Kernel.t * E) unit) :
    Prop :=
  returned o ∧ Inv (final o) ∧
  Kernel.registry (final o).1 = Kernel.registry ke.1 ∧
  Kernel.time (final o).1 = Kernel.time ke.1.

(** Every entry of the schedule is such a call wherever [Inv] holds. *)
Definition quiet : Prop :=
  ∀ (c : Kernel.Call) (ke : Kernel.t * E),
    Inv ke → c ∈ Kernel.schedule ke.1 →
    quiet_call ke (Kernel.dispatch objects c.2 c.1.1 ke).

(** A stretch of a tick that made exactly the calls [calls]. *)
Definition quiet_stretch (w : World) (o : Outcome World unit)
    (calls : list Kernel.Call) : Prop :=
  returned o ∧ Inv (Kernel.heap (final o)) ∧
  Kernel.registry (Kernel.kernel (final o)) =
    Kernel.registry (Kernel.kernel w) ∧
  Kernel.time (Kernel.kernel (final o)) = Kernel.time (Kernel.kernel w) ∧
  Kernel.invoked (final o) = Kernel.invoked w ++ calls.

Lemma schedule_registry (k k' : Kernel.t) :
  Kernel.registry k' = Kernel.registry k →
  Kernel.schedule k' = Kernel.schedule k.
Proof.
  unfold Kernel.registry, Kernel.schedule, Kernel.phase_calls.
  intros [= _ -> ->]. done.
Qed.

Lemma registry_phases (k k' : Kernel.t) :
  Kernel.registry k' = Kernel.registry k →
  Kernel._phases k' = Kernel._phases k ∧
  Kernel._phase_registrations k' = Kernel._phase_registrations k.
Proof. unfold Kernel.registry. by intros [= _ -> ->]. Qed.

Lemma phase_calls_in_schedule (k : Kernel.t) (p : string) (c : Kernel.Call) :
  p ∈ Kernel._phases k → c ∈ Kernel.phase_calls k p →
  c ∈ Kernel.schedule k.
Proof.
  intros Hp Hc. unfold Kernel.schedule.
  apply list_elem_of_In, in_flat_map. exists p.
  split; by apply list_elem_of_In.
Qed.

Lemma invoke_quiet (w : World) (p i : string) (e : handle) :
  quiet → Inv (Kernel.heap w) →
  (p, i, e) ∈ Kernel.schedule (Kernel.kernel w) →
  quiet_stretch w (Kernel.invoke objects p i e w) [(p, i, e)].
Proof.
  intros Hq Hinv Hin.
  destruct (Hq (p, i, e) (Kernel.heap w) Hinv Hin) as (Hret & Hinv' & Hreg & Htm).
  unfold Kernel.invoke, quiet_stretch. unfold_m.
  change (Kernel.heap (Kernel.log_call (p, i, e) w)) with (Kernel.heap w).
  destruct (Kernel.dispatch objects e p (Kernel.heap w)) as [[k' env'] [x|[]]];
    simpl in *; done.
Qed.

Lemma run_entities_quiet (p : string) (members : list (string * handle))
    (w : World) :
  quiet → Inv (Kernel.heap w) →
  (∀ ie, ie ∈ members →
     (p, ie.1, ie.2) ∈ Kernel.schedule (Kernel.kernel w)) →
  quiet_stretch w (run_entities p members w)
    (map (λ ie, (p, ie.1, ie.2)) members).
Proof.
  intros Hq. revert w.
  induction members as [|[i e] members IH]; intros w Hinv Hin; simpl.
  - unfold quiet_stretch, ret, returned, raised. simpl.
    by rewrite app_nil_r.
  - destruct (invoke_quiet w p i e Hq Hinv) as (Hret & Hinv1 & Hreg1 & Htm1 & Hlog1).
    { apply (Hin (i, e)). left. }
    unfold bind. unfold returned, raised in Hret.
    destruct (Kernel.invoke objects p i e w) as [w1 [x|[]]]; simpl in *; [done|].
    destruct (IH w1 Hinv1) as (Hret2 & Hinv2 & Hreg2 & Htm2 & Hlog2).
    { intros ie Hie. rewrite (schedule_registry _ _ Hreg1). apply Hin. by right. }
    unfold quiet_stretch. rewrite Hreg2, Htm2, Hlog2, Hlog1, <- app_assoc.
    done.
Qed.

Lemma run_phases_quiet (ps : list string) (w : World) :
  quiet → Inv (Kernel.heap w) →
  (∀ p, p ∈ ps → p ∈ Kernel._phases (Kernel.kernel w) ∧
     is_Some (Kernel._phase_registrations (Kernel.kernel w) !! p)) →
  quiet_stretch w (run_phases ps w)
    (flat_map (Kernel.phase_calls (Kernel.kernel w)) ps).
Proof.
  intros Hq. revert w.
  induction ps as [|p ps IH]; intros w Hinv Hps; simpl.
  - unfold quiet_stretch, ret, returned, raised. simpl.
    by rewrite app_nil_r.
  - destruct (Hps p) as [Hp [members Hm]]; [left|].
    unfold bind at 1. unfold get. simpl. rewrite Hm.
    destruct (run_entities_quiet p members w Hq Hinv)
      as (Hret & Hinv1 & Hreg1 & Htm1 & Hlog1).
    { intros ie Hie. apply (phase_calls_in_schedule _ p); [done|].
      unfold Kernel.phase_calls. rewrite Hm. simpl.
      apply list_elem_of_fmap. by exists ie. }
    unfold bind. unfold returned, raised in Hret.
    destruct (run_entities p members w) as [w1 [x|[]]]; simpl in *; [done|].
    destruct (registry_phases _ _ Hreg1) as [Hph1 Hpr1].
    destruct (IH w1 Hinv1) as (Hret2 & Hinv2 & Hreg2 & Htm2 & Hlog2).
    { intros q Hq'. rewrite Hph1, Hpr1. apply Hps. by right. }
    unfold quiet_stretch. rewrite Hreg2, Htm2, Hlog2, Hlog1, <- app_assoc.
    repeat split; try done. do 2 f_equal.
    + unfold Kernel.phase_calls. by rewrite Hm.
    + apply flat_map_ext. intros q. unfold Kernel.phase_calls. by rewrite Hpr1.
Qed.
(** The scheduler writes the time between ticks, so [Inv] must not hang
    on it. *)
Definition timeless : Prop :=
  ∀ k env tm, Inv (k, env) → Inv (Kernel.set_time tm k, env).

(** Every declared phase has its list of members. *)
Definition phases_keyed (k : Kernel.t) : Prop :=
  ∀ p, p ∈ Kernel._phases k → is_Some (Kernel._phase_registrations k !! p).

Lemma step_quiet (w : World) :
  quiet → timeless → Inv (Kernel.heap w) →
  phases_keyed (Kernel.kernel w) →
  let o := step w in
  returned o ∧ Inv (Kernel.heap (final o)) ∧
  Kernel.registry (Kernel.kernel (final o)) =
    Kernel.registry (Kernel.kernel w) ∧
  Kernel.time (Kernel.kernel (final o)) =
    Kernel.time (Kernel.kernel w) + 1 ∧
  Kernel.invoked (final o) =
    Kernel.invoked w ++ Kernel.schedule (Kernel.kernel w).
Proof.
  intros Hq Htl Hinv Hkeys o. subst o.
  destruct (run_phases_quiet (Kernel._phases (Kernel.kernel w)) w Hq Hinv)
    as (Hret & Hinv1 & Hreg1 & Htm1 & Hlog1).
  { intros p Hp. split; [done|by apply Hkeys]. }
  unfold returned, raised in Hret.
  destruct (run_phases (Kernel._phases (Kernel.kernel w)) w)
    as [w1 [x|[]]] eqn:Hrun; simpl in *; [done|].
  unfold Kernel.step, bind, get, modify. simpl. rewrite Hrun. simpl.
  unfold returned, raised. simpl. rewrite Htm1.
  repeat split; try done.
  apply (Htl _ _ _ Hinv1).
Qed.

Lemma repeat_step_quiet (n : nat) (w : World) :
  quiet → timeless → Inv (Kernel.heap w) →
  phases_keyed (Kernel.kernel w) →
  let o := Kernel.repeat_step objects n w in
  returned o ∧
  Kernel.registry (Kernel.kernel (final o)) =
    Kernel.registry (Kernel.kernel w) ∧
  Kernel.time (Kernel.kernel (final o)) =
    Kernel.time (Kernel.kernel w) + Z.of_nat n ∧
  Kernel.invoked (final o) =
    Kernel.invoked w ++
    concat (replicate n (Kernel.schedule (Kernel.kernel w))).
Proof.
  intros Hq Htl. revert w. induction n as [|n IH]; intros w Hinv Hkeys; simpl.
  - unfold returned, raised, ret. simpl. rewrite app_nil_r.
    repeat split; try done. lia.
  - destruct (step_quiet w Hq Htl Hinv Hkeys) as (Hret & Hinv1 & Hreg1 & Htm1 & Hlog1).
    unfold returned, raised in Hret.
    destruct (step w) as [w1 [x|[]]] eqn:Hstep;
      simpl in Hret, Hinv1, Hreg1, Htm1, Hlog1; [done|].
    unfold bind. rewrite Hstep. cbn [final result].
    destruct (registry_phases _ _ Hreg1) as [Hph1 Hpr1].
    destruct (IH w1 Hinv1) as (Hret2 & Hreg2 & Htm2 & Hlog2).
    { unfold phases_keyed. rewrite Hph1, Hpr1. apply Hkeys. }
    rewrite Hreg2, Htm2, Hlog2, Hlog1, Htm1, (schedule_registry _ _ Hreg1),
      <- app_assoc.
    repeat split; try done. lia.
Qed.

(** *** The tick in terms of the hooks of the entities *)

(** The specification's words for what a tick invokes on an entity: "the
    entity's per-phase behavior hook if it exposes one (passing the phase
    name), else its generic step behavior". An object that exposes neither
    has no hook. *)
Definition behaviour_hook (entity : handle) (phase : string) :
    option (M (Kernel.t * E) unit) :=
  match objects entity with
  | Kernel.PhaseAware per_phase => Some (per_phase phase)
  | Kernel.Generic generic => Some generic
  | Kernel.NoStep => None
  end.

(** The entries of a phase with the members [members], in list order. *)
Definition calls_of (phase : string) (members : list (string * handle)) :
    list Kernel.Call :=
  map (λ ie, (phase, ie.1, ie.2)) members.

(** [hs] are the hooks of the entries [calls], one for one. *)
Definition hooks_of (calls : list Kernel.Call)
    (hs : list (M (Kernel.t * E) unit)) : Prop :=
  Forall2 (λ c h, behaviour_hook c.2 c.1.1 = Some h) calls hs.

(** Computations run one after the other; the first that raises ends the
    sequence. *)
Fixpoint in_sequence {S} (cs : list (M S unit)) : M S unit :=
  match cs with
  | [] => ret tt
  | c :: rest => c ;;; in_sequence rest
  end.

(** A tick as a plain sequence: the hooks [hs], then one more on the
    time. *)
Definition tick_of (hs : list (M (Kernel.t * E) unit)) :
    M (Kernel.t * E) unit :=
  in_sequence hs ;;;
  modify (λ ke, (Kernel.set_time (Kernel.time ke.1 + 1) ke.1, ke.2)).

Lemma hooks_of_nil : hooks_of [] [].
Proof. constructor. Qed.

Lemma in_sequence_app {S} (cs1 cs2 : list (M S unit)) (s : S) :
  in_sequence (cs1 ++ cs2) s = (in_sequence cs1 ;;; in_sequence cs2) s.
Proof.
  revert s. induction cs1 as [|c cs1 IH]; intros s; simpl.
  - unfold bind, ret. simpl. by destruct (in_sequence cs2 s).
  - unfold bind in *. destruct (c s) as [s1 [x|[]]]; simpl; [done|]. apply IH.
Qed.

Lemma world_eta (w : World) :
  Kernel.mkWorld (Kernel.heap w).1 (Kernel.heap w).2 (Kernel.invoked w) = w.
Proof. by destruct w. Qed.

Lemma invoke_hook (p i : string) (e : handle) (h : M (Kernel.t * E) unit)
    (w : World) :
  behaviour_hook e p = Some h →
  Kernel.invoke objects p i e w =
    mkOutcome
      (Kernel.mkWorld (final (h (Kernel.heap w))).1 (final (h (Kernel.heap w))).2
         (Kernel.invoked w ++ [(p, i, e)]))
      (result (h (Kernel.heap w))).
Proof.
  unfold behaviour_hook, Kernel.invoke, Kernel.dispatch. intros Hh.
  destruct (objects e); simplify_eq; unfold_m; done.
Qed.

Lemma run_entities_hooks (p : string) (members : list (string * handle))
    (hs : list (M (Kernel.t * E) unit)) (w : World) :
  hooks_of (calls_of p members) hs →
  let o := in_sequence hs (Kernel.heap w) in
  result (run_entities p members w) = result o ∧
  Kernel.heap (final (run_entities p members w)) = final o ∧
  (returned o →
   Kernel.invoked (final (run_entities p members w)) =
     Kernel.invoked w ++ calls_of p members).
Proof.
  revert hs w. induction members as [|[i e] members IH]; intros hs w Hhs.
  - apply Forall2_nil_inv_l in Hhs as ->. simpl. by rewrite app_nil_r.
  - apply Forall2_cons_inv_l in Hhs as (h & hs' & Hh & Hrest & ->).
    cbn [Kernel.run_entities in_sequence calls_of map]. unfold bind.
    rewrite (invoke_hook p i e h w Hh).
    destruct (h (Kernel.heap w)) as [[k' env'] [x|[]]];
      cbn [final result fst snd].
    + split; [done|]. split; [done|]. by intros Hret.
    + destruct (IH hs' (Kernel.mkWorld k' env' (Kernel.invoked w ++ [(p, i, e)]))
                  Hrest) as (Hres & Hheap & Hlog).
      split; [exact Hres|]. split; [exact Hheap|].
      intros Hret. rewrite (Hlog Hret). cbn [Kernel.invoked].
      by rewrite <- app_assoc.
Qed.

Lemma run_entities_returned (p : string) (members : list (string * handle))
    (hs : list (M (Kernel.t * E) unit)) (w : World) (ke : Kernel.t * E) :
  hooks_of (calls_of p members) hs →
  in_sequence hs (Kernel.heap w) = mkOutcome ke (inr tt) →
  run_entities p members w =
    mkOutcome (Kernel.mkWorld ke.1 ke.2 (Kernel.invoked w ++ calls_of p members))
      (inr tt).
Proof.
  intros Hhs Hseq.
  destruct (run_entities_hooks p members hs w Hhs) as (Hres & Hheap & Hlog).
  rewrite Hseq in Hres, Hheap, Hlog. cbn [final result] in *.
  apply outcome_eta_full; [|done].
  rewrite <- (world_eta (final (run_entities p members w))).
  by rewrite Hheap, Hlog.
Qed.

(** C7. When the hook of an entity raises in the middle of a tick, after
    the phases before it have run and the hooks of the members before it in
    its phase have returned, [step] ends there: it raises the very exception
    that the hook raised and leaves the kernel and the entities as the
    failing hook left them, with the effects of everything that ran before
    and with no increment of the time; the failing call is the last one
    made. [run] stops at such a tick in the same way. *)
Theorem step_failure_propagates (w w1 : World) (ps1 ps2 : list string)
    (p : string) (ms1 ms2 : list (string * handle)) (entity_id : string)
    (entity : handle) (hs1 : list (M (Kernel.t * E) unit))
    (h : M (Kernel.t * E) unit) (ke2 ke3 : Kernel.t * E) (e : Exn)
    (steps : Z) :
  Kernel._phases (Kernel.kernel w) = ps1 ++ p :: ps2 →
  run_phases ps1 w = mkOutcome w1 (inr tt) →
  Kernel._phase_registrations (Kernel.kernel w1) !! p =
    Some (ms1 ++ (entity_id, entity) :: ms2) →
  hooks_of (calls_of p ms1) hs1 →
  in_sequence hs1 (Kernel.heap w1) = mkOutcome ke2 (inr tt) →
  behaviour_hook entity p = Some h →
  h ke2 = mkOutcome ke3 (inl e) →
  0 < steps →
  let w3 :=
    Kernel.mkWorld ke3.1 ke3.2
      (Kernel.invoked w1 ++ calls_of p (ms1 ++ [(entity_id, entity)])) in
  step w = mkOutcome w3 (inl e) ∧
  run steps w = mkOutcome w3 (inl e) ∧
  Kernel.time (Kernel.kernel (final (step w))) = Kernel.time ke3.1.
Proof.
  intros Hps H1 Hreg Hhs1 Hseq Hh Hraise Hsteps w3.
  pose proof (run_entities_returned p ms1 hs1 w1 ke2 Hhs1 Hseq) as H2.
  assert (Kernel.invoke objects p entity_id entity
            (Kernel.mkWorld ke2.1 ke2.2 (Kernel.invoked w1 ++ calls_of p ms1)) =
          mkOutcome w3 (inl e)) as H3.
  { rewrite (invoke_hook p entity_id entity h _ Hh).
    unfold Kernel.heap. cbn [Kernel.kernel Kernel.env Kernel.invoked].
    rewrite <- (surjective_pairing ke2), Hraise. cbn [final result].
    subst w3. unfold calls_of. by rewrite map_app, <- app_assoc. }
  destruct (step_stops w w1 _ w3 ps1 ps2 p ms1 ms2 entity_id entity e steps
              Hps H1 Hreg H2 H3 Hsteps) as (Hstep & Hrun & Htm).
  split; [done|]. split; [done|]. by rewrite Hstep.
Qed.

(** *** What a tick does, whatever the entities *)

Lemma bind_returned_to {S A B} (m : M S A) (f : A → M S B) (s s' : S) (a : A)
    (o : Outcome S B) :
  m s = mkOutcome s' (inr a) → f a s' = o → bind m f s = o.
Proof. intros Hm <-. unfold bind. by rewrite Hm. Qed.

Lemma bind_congr {S A B} (m m' : M S A) (f : A → M S B) (s s' : S) :
  m s = m' s' → bind m f s = bind m' f s'.
Proof. intros Hm. unfold bind. by rewrite Hm. Qed.

Lemma step_unfold (w : World) :
  step w =
    (run_phases (Kernel._phases (Kernel.kernel w)) ;;;
     modify (λ w', Kernel.set_kernel
                     (Kernel.set_time (Kernel.time (Kernel.kernel w') + 1)
                        (Kernel.kernel w')) w')) w.
Proof. reflexivity. Qed.

Lemma run_phases_cons (p : string) (ps : list string)
    (members : list (string * handle)) (w : World) :
  Kernel._phase_registrations (Kernel.kernel w) !! p = Some members →
  run_phases (p :: ps) w = (run_entities p members ;;; run_phases ps) w.
Proof.
  intros Hreg. cbn [Kernel.run_phases]. unfold bind at 1. unfold get.
  cbn [final result]. by rewrite Hreg.
Qed.

(** The calls that a phase has made are a first part of its list, the
    whole of it when the phase completes, and the log only grows. *)
Lemma run_entities_log (p : string) (members : list (string * handle))
    (w : World) :
  ∃ n, Kernel.invoked (final (run_entities p members w)) =
         Kernel.invoked w ++ take n (calls_of p members).
Proof.
  revert w. induction members as [|[i e] members IH]; intros w.
  - exists 0%nat. simpl. by rewrite app_nil_r.
  - cbn [Kernel.run_entities]. unfold bind.
    assert (Kernel.invoked (final (Kernel.invoke objects p i e w)) =
            Kernel.invoked w ++ [(p, i, e)]) as Hlog.
    { unfold Kernel.invoke. unfold_m. done. }
    destruct (Kernel.invoke objects p i e w) as [w1 [x|[]]];
      cbn [final result] in *.
    + exists 1%nat. by rewrite Hlog.
    + destruct (IH w1) as [n Hn]. exists (S n).
      rewrite Hn, Hlog, <- app_assoc. done.
Qed.

Lemma run_phases_log (ps : list string) (w : World) :
  ∃ l, Kernel.invoked (final (run_phases ps w)) = Kernel.invoked w ++ l.
Proof.
  revert w. induction ps as [|p ps IH]; intros w.
  - exists []. simpl. by rewrite app_nil_r.
  - cbn [Kernel.run_phases]. unfold bind at 1. unfold get. cbn [final result].
    destruct (Kernel._phase_registrations (Kernel.kernel w) !! p)
      as [members|]; [|exists []; simpl; by rewrite app_nil_r].
    unfold bind. destruct (run_entities_log p members w) as [n Hn].
    destruct (run_entities p members w) as [w1 [x|[]]]; cbn [final result] in *.
    + by eexists.
    + destruct (IH w1) as [l Hl]. rewrite Hl, Hn, <- app_assoc. by eexists.
Qed.

(** A phase calls the members of the list that it found when it started:
    their hooks run in list order, from the state that the earlier phases
    left, whatever they do to the registry on the way. *)
Lemma step_phase_members (w w1 : World) (ps1 ps2 : list string) (p : string)
    (members : list (string * handle)) (hs : list (M (Kernel.t * E) unit)) :
  Kernel._phases (Kernel.kernel w) = ps1 ++ p :: ps2 →
  run_phases ps1 w = mkOutcome w1 (inr tt) →
  Kernel._phase_registrations (Kernel.kernel w1) !! p = Some members →
  hooks_of (calls_of p members) hs →
  let o := in_sequence hs (Kernel.heap w1) in
  (∀ e, result o = inl e →
     result (step w) = inl e ∧ Kernel.heap (final (step w)) = final o ∧
     ∃ n, Kernel.invoked (final (step w)) =
            Kernel.invoked w1 ++ take n (calls_of p members)) ∧
  (returned o →
   step w =
     (run_phases ps2 ;;;
      modify (λ w', Kernel.set_kernel
                      (Kernel.set_time (Kernel.time (Kernel.kernel w') + 1)
                         (Kernel.kernel w')) w'))
       (Kernel.mkWorld (final o).1 (final o).2
          (Kernel.invoked w1 ++ calls_of p members)) ∧
   ∃ later, Kernel.invoked (final (step w)) =
              Kernel.invoked w1 ++ calls_of p members ++ later).
Proof.
  intros Hps H1 Hreg Hhs o.
  destruct (run_entities_hooks p members hs w1 Hhs) as (Hres & Hheap & Hlog).
  fold o in Hres, Hheap, Hlog.
  assert (step w =
          ((run_entities p members ;;; run_phases ps2) ;;;
           modify (λ w', Kernel.set_kernel
                           (Kernel.set_time
                              (Kernel.time (Kernel.kernel w') + 1)
                              (Kernel.kernel w')) w')) w1) as Hstep.
  { rewrite step_unfold. apply bind_congr.
    rewrite Hps, run_phases_app, (bind_returned _ _ _ _ _ H1).
    by apply run_phases_cons. }
  split.
  - intros e He. rewrite Hstep. unfold bind. rewrite He in Hres.
    destruct (run_entities_log p members w1) as [n Hn].
    destruct (run_entities p members w1) as [w2 r2]. cbn [final result] in *.
    subst r2. cbn [final result]. split; [done|]. split; [done|]. by exists n.
  - intros Hret. rewrite Hstep. unfold returned, raised in Hret.
    destruct (result o) as [e|[]] eqn:Ho; [done|].
    assert (run_entities p members w1 =
            mkOutcome (Kernel.mkWorld (final o).1 (final o).2
                         (Kernel.invoked w1 ++ calls_of p members)) (inr tt))
      as Hrun.
    { apply (run_entities_returned p members hs); [done|].
      by apply outcome_eta_full. }
    assert (((run_entities p members ;;; run_phases ps2) ;;;
             modify (λ w', Kernel.set_kernel
                             (Kernel.set_time
                                (Kernel.time (Kernel.kernel w') + 1)
                                (Kernel.kernel w')) w')) w1 =
            (run_phases ps2 ;;;
             modify (λ w', Kernel.set_kernel
                             (Kernel.set_time
                                (Kernel.time (Kernel.kernel w') + 1)
                                (Kernel.kernel w')) w'))
              (Kernel.mkWorld (final o).1 (final o).2
                 (Kernel.invoked w1 ++ calls_of p members))) as ->.
    { unfold bind. by rewrite Hrun. }
    split; [done|].
    destruct (run_phases_log ps2
                (Kernel.mkWorld (final o).1 (final o).2
                   (Kernel.invoked w1 ++ calls_of p members))) as [l Hl].
    exists l. rewrite app_assoc. unfold bind, modify.
    destruct (run_phases ps2 _) as [w3 [x|[]]]; cbn [final result] in *;
      exact Hl.
Qed.

(** The phases of a tick as the specification words them: "for each phase
    in declared order, for each (id, entity) pair currently registered in
    that phase at the moment the phase begins [...] invoke the entity's
    per-phase behavior hook if it exposes one (passing the phase name), else
    invoke its generic step behavior". [phased ps ke calls ke'] says that
    going through the phases [ps] from the state [ke] in this way, with
    every hook returning, makes the calls [calls] and ends in [ke']. *)
Inductive phased :
    list string → Kernel.t * E → list Kernel.Call → Kernel.t * E → Prop :=
| phased_done (ke : Kernel.t * E) : phased [] ke [] ke
| phased_phase (p : string) (ps : list string) (ke ke1 ke2 : Kernel.t * E)
    (members : list (string * handle)) (hs : list (M (Kernel.t * E) unit))
    (calls : list Kernel.Call) :
    Kernel._phase_registrations ke.1 !! p = Some members →
    hooks_of (calls_of p members) hs →
    in_sequence hs ke = mkOutcome ke1 (inr tt) →
    phased ps ke1 calls ke2 →
    phased (p :: ps) ke (calls_of p members ++ calls) ke2.

Lemma run_phases_phased (ps : list string) (ke ke' : Kernel.t * E)
    (calls : list Kernel.Call) (log : list Kernel.Call) :
  phased ps ke calls ke' →
  run_phases ps (Kernel.mkWorld ke.1 ke.2 log) =
    mkOutcome (Kernel.mkWorld ke'.1 ke'.2 (log ++ calls)) (inr tt).
Proof.
  intros Hphased. revert log.
  induction Hphased as [ke|p ps ke ke1 ke2 members hs calls Hm Hhs Hseq _ IH];
    intros log.
  - simpl. by rewrite app_nil_r.
  - rewrite (run_phases_cons p ps members) by done.
    apply (bind_returned_to _ _ _
             (Kernel.mkWorld ke1.1 ke1.2 (log ++ calls_of p members)) tt).
    + apply (run_entities_returned p members hs); [done|].
      unfold Kernel.heap. cbn [Kernel.kernel Kernel.env Kernel.invoked].
      by rewrite <- (surjective_pairing ke).
    + rewrite IH. by rewrite <- app_assoc.
Qed.

Lemma run_entities_returns (p : string) (members : list (string * handle))
    (w : World) :
  returned (run_entities p members w) →
  ∃ hs, hooks_of (calls_of p members) hs ∧
        in_sequence hs (Kernel.heap w) =
          mkOutcome (Kernel.heap (final (run_entities p members w))) (inr tt).
Proof.
  revert w. induction members as [|[i e] members IH]; intros w Hret.
  - exists []. split; [constructor|done].
  - cbn [Kernel.run_entities] in *. unfold returned, raised, bind in Hret.
    unfold bind.
    destruct (behaviour_hook e p) as [h|] eqn:Hh.
    + rewrite (invoke_hook p i e h w Hh) in *. cbn [final result] in *.
      destruct (h (Kernel.heap w)) as [[k' env'] [x|[]]] eqn:Hcall;
        cbn [final result fst snd] in *; [done|].
      destruct (IH _ Hret) as (hs & Hhs & Hseq).
      exists (h :: hs). split; [by constructor|].
      cbn [in_sequence]. unfold bind. rewrite Hcall. exact Hseq.
    + unfold behaviour_hook in Hh. unfold Kernel.invoke, Kernel.dispatch in Hret.
      destruct (objects e); [done|done|]. unfold_m. done.
Qed.

Lemma run_phases_returns (ps : list string) (w : World) :
  returned (run_phases ps w) →
  ∃ calls, phased ps (Kernel.heap w) calls
             (Kernel.heap (final (run_phases ps w))).
Proof.
  revert w. induction ps as [|p ps IH]; intros w Hret.
  - exists []. constructor.
  - cbn [Kernel.run_phases] in *. unfold bind at 1 in Hret. unfold bind at 1.
    unfold get in *. cbn [final result] in *.
    destruct (Kernel._phase_registrations (Kernel.kernel w) !! p)
      as [members|] eqn:Hm; [|done].
    unfold returned, raised, bind in Hret. unfold bind.
    destruct (run_entities_returns p members w) as (hs & Hhs & Hseq).
    { unfold returned, raised.
      by destruct (result (run_entities p members w)). }
    destruct (run_entities p members w) as [w1 [x|[]]]; cbn [final result] in *;
      [done|].
    destruct (IH w1 Hret) as (calls & Hphased).
    exists (calls_of p members ++ calls).
    by apply (phased_phase p ps (Kernel.heap w) (Kernel.heap w1) _ members hs).
Qed.

(** The time goes up by one when all the phases have completed, from
    whatever the entities left there. *)
Lemma step_time (w w' : World) :
  run_phases (Kernel._phases (Kernel.kernel w)) w = mkOutcome w' (inr tt) →
  step w =
    mkOutcome
      (Kernel.set_kernel
         (Kernel.set_time (Kernel.time (Kernel.kernel w') + 1) (Kernel.kernel w'))
         w')
      (inr tt).
Proof.
  intros Hrun. unfold Kernel.step, bind, get, modify. cbn [final result].
  by rewrite Hrun.
Qed.

Lemma run_next (n : Z) (w : World) :
  0 ≤ n → run (n + 1) w = (step ;;; run n) w.
Proof.
  intros Hn. unfold Kernel.run.
  replace (Z.to_nat (n + 1)) with (S (Z.to_nat n)) by lia. done.
Qed.

(** *** The order of the schedule *)

(** The member list of a phase is in registration order: a registration
    that goes through puts the entity at its end. *)
Lemma register_appends (entity_id : string) (entity : handle) (p : string)
    (l : list (string * handle)) (k : Kernel.t) :
  p ∈ Kernel._phases k →
  Kernel.is_registered entity k = false →
  Kernel._phase_registrations k !! p = Some l →
  Kernel._phase_registrations (final (Kernel.register entity_id entity (Some p) k))
    !! p = Some (l ++ [(entity_id, entity)]).
Proof.
  intros Hp Hr Hl. unfold Kernel.register. unfold_m.
  rewrite bool_decide_eq_true_2 by done. simpl. rewrite Hr. simpl.
  rewrite Hl. simpl. apply lookup_insert_eq.
Qed.

Lemma phase_calls_phase (k : Kernel.t) (p : string) (c : Kernel.Call) :
  c ∈ Kernel.phase_calls k p → c.1.1 = p.
Proof.
  unfold Kernel.phase_calls. intros Hc. apply list_elem_of_In in Hc.
  apply in_map_iff in Hc as (ie & <- & _). done.
Qed.

Lemma flat_map_phase (k : Kernel.t) (ps : list string) (c : Kernel.Call) :
  c ∈ flat_map (Kernel.phase_calls k) ps → c.1.1 ∈ ps.
Proof.
  intros Hc. apply list_elem_of_In, in_flat_map in Hc as (p & Hp & Hc).
  apply list_elem_of_In in Hp, Hc.
  by rewrite (phase_calls_phase k p c Hc).
Qed.

(** The entries of a phase form one block of the schedule, after the
    blocks of the phases declared before it and before the blocks of those
    declared after it. *)
Lemma schedule_blocks (k : Kernel.t) (ps1 ps2 ps3 : list string)
    (p q : string) :
  Kernel._phases k = ps1 ++ p :: ps2 ++ q :: ps3 →
  Kernel.schedule k =
    flat_map (Kernel.phase_calls k) ps1 ++ Kernel.phase_calls k p ++
    flat_map (Kernel.phase_calls k) ps2 ++ Kernel.phase_calls k q ++
    flat_map (Kernel.phase_calls k) ps3.
Proof.
  intros Hps. unfold Kernel.schedule. rewrite Hps.
  rewrite flat_map_app. cbn [flat_map]. rewrite flat_map_app. cbn [flat_map].
  reflexivity.
Qed.

(** With no phase declared twice, the entries of the schedule come in the
    order of their phases: an entry of a phase declared earlier sits before
    every entry of a phase declared later. *)
Lemma schedule_strict_order (k : Kernel.t) (ps : list string) (x y i j : nat)
    (c d : Kernel.Call) :
  NoDup ps →
  flat_map (Kernel.phase_calls k) ps !! x = Some c →
  flat_map (Kernel.phase_calls k) ps !! y = Some d →
  ps !! i = Some c.1.1 → ps !! j = Some d.1.1 →
  (i < j)%nat → (x < y)%nat.
Proof.
  intros Hnd. revert x y i j.
  induction Hnd as [|p ps Hfresh Hnd IH]; intros x y i j Hx Hy Hi Hj Hij.
  - done.
  - cbn [flat_map] in Hx, Hy.
    assert (∀ z a, (Kernel.phase_calls k p ++
                    flat_map (Kernel.phase_calls k) ps) !! z = Some a →
              ((z < length (Kernel.phase_calls k p))%nat ∧ a.1.1 = p) ∨
              ((length (Kernel.phase_calls k p) ≤ z)%nat ∧ a.1.1 ∈ ps ∧
               flat_map (Kernel.phase_calls k) ps
                 !! (z - length (Kernel.phase_calls k p))%nat = Some a))
      as Hsplit.
    { intros z a Hz. apply lookup_app_Some in Hz as [Hz|[Hlen Hz]].
      - left. split; [by eapply lookup_lt_Some|].
        apply (phase_calls_phase k). by eapply list_elem_of_lookup_2.
      - right. split; [done|]. split; [|done].
        apply (flat_map_phase k). by eapply list_elem_of_lookup_2. }
    destruct j as [|j]; [lia|]. cbn in Hj.
    assert (d.1.1 ∈ ps) as Hd by (by eapply list_elem_of_lookup_2).
    destruct (Hsplit y d Hy) as [[_ Hdp]|(Hylen & _ & Hy')];
      [by rewrite Hdp in Hd|].
    destruct (Hsplit x c Hx) as [[Hxlen _]|(Hxlen & Hc & Hx')]; [lia|].
    destruct i as [|i]; [cbn in Hi; by simplify_eq|]. cbn in Hi.
    pose proof (IH _ _ i j Hx' Hy' Hi Hj ltac:(lia)). lia.
Qed.

(** *** The tick as a sequence of hooks *)

(** Every entry of the schedule has a hook, which is a quiet call wherever
    [Inv] holds. *)
Definition calm : Prop :=
  ∀ (c : Kernel.Call) (ke : Kernel.t * E),
    Inv ke → c ∈ Kernel.schedule ke.1 →
    ∃ h, behaviour_hook c.2 c.1.1 = Some h ∧ quiet_call ke (h ke).

Lemma calm_quiet : calm → quiet.
Proof.
  intros Hcalm c ke Hinv Hc.
  destruct (Hcalm c ke Hinv Hc) as (h & Hh & Hq).
  unfold behaviour_hook in Hh. unfold Kernel.dispatch.
  destruct (objects c.2); by simplify_eq.
Qed.

Lemma in_sequence_returned {S} (cs1 cs2 : list (M S unit)) (s s1 : S) :
  in_sequence cs1 s = mkOutcome s1 (inr tt) →
  in_sequence (cs1 ++ cs2) s = in_sequence cs2 s1.
Proof. intros H1. rewrite in_sequence_app. unfold bind. by rewrite H1. Qed.

Lemma run_phases_calm (ps : list string) (hs : list (M (Kernel.t * E) unit))
    (w : World) :
  calm → Inv (Kernel.heap w) →
  (∀ p, p ∈ ps → p ∈ Kernel._phases (Kernel.kernel w) ∧
     is_Some (Kernel._phase_registrations (Kernel.kernel w) !! p)) →
  hooks_of (flat_map (Kernel.phase_calls (Kernel.kernel w)) ps) hs →
  in_sequence hs (Kernel.heap w) =
    mkOutcome (Kernel.heap (final (run_phases ps w))) (inr tt).
Proof.
  intros Hcalm. pose proof (calm_quiet Hcalm) as Hq. revert hs w.
  induction ps as [|p ps IH]; intros hs w Hinv Hps Hhs.
  - apply Forall2_nil_inv_l in Hhs as ->. done.
  - destruct (Hps p) as [Hp [members Hm]]; [left|].
    cbn [flat_map] in Hhs.
    apply Forall2_app_inv_l in Hhs as (hs1 & hs2 & Hhs1 & Hhs2 & ->).
    assert (Kernel.phase_calls (Kernel.kernel w) p = calls_of p members)
      as Hcalls by (unfold Kernel.phase_calls; by rewrite Hm).
    rewrite Hcalls in Hhs1.
    destruct (run_entities_quiet p members w Hq Hinv)
      as (Hret & Hinv1 & Hreg1 & _ & _).
    { intros ie Hie. apply (phase_calls_in_schedule _ p); [done|].
      rewrite Hcalls. apply list_elem_of_fmap. by exists ie. }
    destruct (run_entities_hooks p members hs1 w Hhs1) as (Hres & Hheap & _).
    cbn [Kernel.run_phases]. unfold bind at 1. unfold get. cbn [final result].
    rewrite Hm. unfold bind.
    unfold returned, raised in Hret.
    destruct (run_entities p members w) as [w1 [x|[]]]; cbn [final result] in *;
      [done|].
    destruct (registry_phases _ _ Hreg1) as [Hph1 Hpr1].
    rewrite (in_sequence_returned hs1 hs2 _ (Kernel.heap w1))
      by (apply outcome_eta_full; done).
    apply IH; [done| |].
    + intros q Hq'. rewrite Hph1, Hpr1. apply Hps. by right.
    + assert (flat_map (Kernel.phase_calls (Kernel.kernel w1)) ps =
              flat_map (Kernel.phase_calls (Kernel.kernel w)) ps) as ->; [|done].
      apply flat_map_ext. intros q. unfold Kernel.phase_calls. by rewrite Hpr1.
Qed.

Lemma step_calm (hs : list (M (Kernel.t * E) unit)) (w : World) :
  calm → timeless → Inv (Kernel.heap w) →
  phases_keyed (Kernel.kernel w) →
  hooks_of (Kernel.schedule (Kernel.kernel w)) hs →
  tick_of hs (Kernel.heap w) =
    mkOutcome (Kernel.heap (final (step w))) (inr tt).
Proof.
  intros Hcalm Htl Hinv Hkeys Hhs.
  pose proof (run_phases_calm (Kernel._phases (Kernel.kernel w)) hs w Hcalm Hinv)
    as Hseq.
  destruct (run_phases_quiet (Kernel._phases (Kernel.kernel w)) w
              (calm_quiet Hcalm) Hinv) as (Hret & _).
  { intros p Hp. split; [done|by apply Hkeys]. }
  unfold returned, raised in Hret.
  unfold tick_of, bind. rewrite Hseq; [|intros p Hp; split; [done|by apply Hkeys]|done].
  cbn [final result]. unfold Kernel.step, bind, get, modify. cbn [final result].
  by destruct (run_phases (Kernel._phases (Kernel.kernel w)) w) as [w1 [x|[]]].
Qed.

Lemma repeat_step_calm (n : nat) (hs : list (M (Kernel.t * E) unit))
    (w : World) :
  calm → timeless → Inv (Kernel.heap w) →
  phases_keyed (Kernel.kernel w) →
  hooks_of (Kernel.schedule (Kernel.kernel w)) hs →
  in_sequence (replicate n (tick_of hs)) (Kernel.heap w) =
    mkOutcome (Kernel.heap (final (Kernel.repeat_step objects n w))) (inr tt).
Proof.
  intros Hcalm Htl. pose proof (calm_quiet Hcalm) as Hq. revert w.
  induction n as [|n IH]; intros w Hinv Hkeys Hhs; [done|].
  cbn [replicate in_sequence Kernel.repeat_step]. unfold bind.
  rewrite (step_calm hs w) by done. cbn [final result].
  destruct (step_quiet w Hq Htl Hinv Hkeys) as (Hret & Hinv1 & Hreg1 & _).
  unfold returned, raised in Hret.
  destruct (step w) as [w1 [x|[]]]; cbn [final result] in *; [done|].
  destruct (registry_phases _ _ Hreg1) as [Hph1 Hpr1].
  apply IH; [done| |].
  - unfold phases_keyed. rewrite Hph1, Hpr1. apply Hkeys.
  - by rewrite (schedule_registry _ _ Hreg1).
Qed.

(** C6. One tick goes through the declared phases in their order, as the
    specification words it in [phased]: a tick that goes that way returns,
    with the time one more than the hooks left it, and a tick that returns
    went that way. A phase calls the hooks of the members that its list held
    when the phase started, in the order of that list, which is the order of
    registration, each on the state the one before left: what a hook does to
    the registry meanwhile does not change who is called in that phase, and
    a hook that raises ends the tick. Everything called in the earlier
    phases comes before: the entries of a phase are one block of the
    schedule, after the blocks of the phases before it, and with no phase
    declared twice every entry of a phase declared earlier sits before every
    entry of a phase declared later. [run] is one tick after the other, none for a count of zero. Over
    entities that return and leave the registry and the time alone, a tick
    is therefore the hooks of the schedule in sequence followed by the
    increment, and [run] is that many such ticks. *)
Theorem tick_follows_schedule (w : World) (steps : Z) :
  let k := Kernel.kernel w in
  (∀ calls ke',
     phased (Kernel._phases k) (Kernel.heap w) calls ke' →
     step w =
       mkOutcome
         (Kernel.mkWorld (Kernel.set_time (Kernel.time ke'.1 + 1) ke'.1) ke'.2
            (Kernel.invoked w ++ calls))
         (inr tt)) ∧
  (returned (step w) →
   ∃ calls ke', phased (Kernel._phases k) (Kernel.heap w) calls ke') ∧
  (∀ w1 ps1 ps2 p members hs,
     Kernel._phases k = ps1 ++ p :: ps2 →
     run_phases ps1 w = mkOutcome w1 (inr tt) →
     Kernel._phase_registrations (Kernel.kernel w1) !! p = Some members →
     hooks_of (calls_of p members) hs →
     let o := in_sequence hs (Kernel.heap w1) in
     (∀ e, result o = inl e →
        result (step w) = inl e ∧ Kernel.heap (final (step w)) = final o ∧
        ∃ n, Kernel.invoked (final (step w)) =
               Kernel.invoked w1 ++ take n (calls_of p members)) ∧
     (returned o →
      step w =
        (run_phases ps2 ;;;
         modify (λ w', Kernel.set_kernel
                         (Kernel.set_time (Kernel.time (Kernel.kernel w') + 1)
                            (Kernel.kernel w')) w'))
          (Kernel.mkWorld (final o).1 (final o).2
             (Kernel.invoked w1 ++ calls_of p members)) ∧
      ∃ later, Kernel.invoked (final (step w)) =
                 Kernel.invoked w1 ++ calls_of p members ++ later)) ∧
  (∀ entity_id entity p l,
     p ∈ Kernel._phases k →
     Kernel.is_registered entity k = false →
     Kernel._phase_registrations k !! p = Some l →
     Kernel._phase_registrations
       (final (Kernel.register entity_id entity (Some p) k)) !! p =
       Some (l ++ [(entity_id, entity)])) ∧
  (∀ ps1 ps2 ps3 p q,
     Kernel._phases k = ps1 ++ p :: ps2 ++ q :: ps3 →
     Kernel.schedule k =
       flat_map (Kernel.phase_calls k) ps1 ++ Kernel.phase_calls k p ++
       flat_map (Kernel.phase_calls k) ps2 ++ Kernel.phase_calls k q ++
       flat_map (Kernel.phase_calls k) ps3) ∧
  (∀ x y i j c d,
     NoDup (Kernel._phases k) →
     Kernel.schedule k !! x = Some c → Kernel.schedule k !! y = Some d →
     Kernel._phases k !! i = Some c.1.1 → Kernel._phases k !! j = Some d.1.1 →
     (i < j)%nat → (x < y)%nat) ∧
  run 0 w = mkOutcome w (inr tt) ∧
  (0 ≤ steps → run (steps + 1) w = (step ;;; run steps) w) ∧
  (calm → timeless → Inv (Kernel.heap w) → phases_keyed k → 0 ≤ steps →
   ∀ hs, hooks_of (Kernel.schedule k) hs →
     let o := step w in
     let os := run steps w in
     (returned o ∧
      tick_of hs (Kernel.heap w) = mkOutcome (Kernel.heap (final o)) (inr tt) ∧
      Kernel.invoked (final o) = Kernel.invoked w ++ Kernel.schedule k ∧
      Kernel.time (Kernel.kernel (final o)) = Kernel.time k + 1) ∧
     (returned os ∧
      in_sequence (replicate (Z.to_nat steps) (tick_of hs)) (Kernel.heap w) =
        mkOutcome (Kernel.heap (final os)) (inr tt) ∧
      Kernel.invoked (final os) =
        Kernel.invoked w ++
        concat (replicate (Z.to_nat steps) (Kernel.schedule k)) ∧
      Kernel.time (Kernel.kernel (final os)) = Kernel.time k + steps)).
Proof.
  intros k. subst k.
  split.
  { intros calls ke' Hphased.
    rewrite (step_time w (Kernel.mkWorld ke'.1 ke'.2 (Kernel.invoked w ++ calls)));
      [done|].
    rewrite <- (world_eta w) at 2. by apply run_phases_phased. }
  split.
  { intros Hret.
    destruct (run_phases_returns (Kernel._phases (Kernel.kernel w)) w)
      as (calls & Hphased); [|by eexists _, _].
    rewrite step_unfold in Hret. unfold returned, raised, bind in *.
    by destruct (result (run_phases (Kernel._phases (Kernel.kernel w)) w)). }
  split; [intros w1 ps1 ps2 p members hs; apply step_phase_members|].
  split; [intros entity_id entity p l; apply register_appends|].
  split; [intros ps1 ps2 ps3 p q; apply schedule_blocks|].
  split.
  { intros x y i j c d Hnd. by apply schedule_strict_order. }
  split; [done|]. split; [apply run_next|].
  intros Hcalm Htl Hinv Hkeys Hsteps hs Hhs o os. subst o os.
  pose proof (calm_quiet Hcalm) as Hq.
  destruct (step_quiet w Hq Htl Hinv Hkeys) as (Hret & _ & _ & Htm & Hlog).
  destruct (repeat_step_quiet (Z.to_nat steps) w Hq Htl Hinv Hkeys)
    as (Hrets & _ & Htms & Hlogs).
  split.
  - split; [done|]. split; [by apply step_calm|]. done.
  - unfold Kernel.run. split; [done|].
    split; [by apply repeat_step_calm|]. split; [done|]. rewrite Htms. lia.
Qed.
End Ticks.

(** ** The registry invariant *)

Section Consistency.
Context `{PyRandom} `{HashLib} `{!Pickle KernelState}.

(** The entity objects in the order in which one tick calls them. *)
Definition scheduled (k : Kernel.t) : list handle := (Kernel.schedule k).*2.

(** How many of the calls went to [entity]. *)
Definition invocations (entity : handle) (calls : list Kernel.Call) : nat :=
  count_occ Nat.eq_dec calls.*2 entity.

(** What the constructor establishes for a phase list without repeats and
    what [register] keeps: no phase and no entity is listed twice, every
    phase has its list, and the tick reaches exactly the registered
    entities. *)
Record consistent (k : Kernel.t) : Prop := mkConsistent {
  phases_nodup : NoDup (Kernel._phases k);
  phases_have_lists : phases_keyed k;
  scheduled_nodup : NoDup (scheduled k);
  scheduled_registered : ∀ e, e ∈ scheduled k ↔ e ∈ (Kernel._entities k).*2;
  entities_nodup : NoDup (Kernel._entities k).*2
}.

(** The calls of one phase, from the dict of per-phase lists alone. *)
Definition calls_in (regs : gmap string (list (string * handle)))
    (p : string) : list Kernel.Call :=
  map (λ ie, (p, ie.1, ie.2)) (default [] (regs !! p)).

Lemma schedule_calls_in (k : Kernel.t) :
  Kernel.schedule k =
    flat_map (calls_in (Kernel._phase_registrations k)) (Kernel._phases k).
Proof. reflexivity. Qed.

Lemma init_registrations (ps : list string)
    (d : gmap string (list (string * handle))) (p : string) :
  foldl (λ d p, <[p := []]> d) d ps !! p =
    if decide (p ∈ ps) then Some [] else d !! p.
Proof.
  revert d. induction ps as [|q ps IH]; intros d; cbn [foldl].
  - destruct (decide (p ∈ [])) as [Hin|_]; [by apply elem_of_nil in Hin|done].
  - rewrite IH. destruct (decide (p ∈ ps)) as [Hin|Hnot].
    + rewrite decide_True; [done|by right].
    + destruct (decide (p = q)) as [->|Hne].
      * rewrite lookup_insert_eq. rewrite decide_True; [done|by left].
      * rewrite lookup_insert_ne by done.
        rewrite decide_False; [done|]. by intros [?|?]%elem_of_cons.
Qed.

Lemma flat_map_all_nil {A B} (f : A → list B) (l : list A) :
  (∀ x, x ∈ l → f x = []) → flat_map f l = [].
Proof.
  induction l as [|x l IH]; intros Hall; simpl; [done|].
  rewrite (Hall x) by left. apply IH. intros y Hy. apply Hall. by right.
Qed.

Lemma init_consistent (seed : Z) (phases : option (list string)) :
  NoDup (Kernel._phases (Kernel.init seed phases)) →
  consistent (Kernel.init seed phases).
Proof.
  intros Hnd.
  assert (∀ p, p ∈ Kernel._phases (Kernel.init seed phases) →
            Kernel._phase_registrations (Kernel.init seed phases) !! p = Some [])
    as Hreg.
  { intros p Hp. unfold Kernel.init in *. simpl in *.
    rewrite init_registrations. by rewrite decide_True. }
  assert (scheduled (Kernel.init seed phases) = []) as Hs.
  { unfold scheduled. rewrite schedule_calls_in, flat_map_all_nil; [done|].
    intros p Hp. unfold calls_in. by rewrite (Hreg p Hp). }
  split.
  - done.
  - intros p Hp. rewrite (Hreg p Hp). eauto.
  - rewrite Hs. constructor.
  - intros e. rewrite Hs. unfold Kernel.init. simpl. done.
  - unfold Kernel.init. simpl. constructor.
Qed.

Lemma calls_in_insert_ne (regs : gmap string (list (string * handle)))
    (phase p : string) (l : list (string * handle)) :
  p ≠ phase → calls_in (<[phase := l]> regs) p = calls_in regs p.
Proof. intros Hne. unfold calls_in. by rewrite lookup_insert_ne. Qed.

Lemma flat_map_calls_in_other (regs : gmap string (list (string * handle)))
    (phase : string) (l : list (string * handle)) (ps : list string) :
  phase ∉ ps →
  flat_map (calls_in (<[phase := l]> regs)) ps = flat_map (calls_in regs) ps.
Proof.
  induction ps as [|p ps IH]; intros Hnot; [done|].
  apply not_elem_of_cons in Hnot as [Hne Hnot]. simpl.
  rewrite calls_in_insert_ne by done. by rewrite IH.
Qed.

Lemma flat_map_calls_in_append (regs : gmap string (list (string * handle)))
    (phase : string) (l : list (string * handle)) (ie : string * handle)
    (ps : list string) :
  NoDup ps → phase ∈ ps → regs !! phase = Some l →
  flat_map (calls_in (<[phase := l ++ [ie]]> regs)) ps ≡ₚ
    (phase, ie.1, ie.2) :: flat_map (calls_in regs) ps.
Proof.
  intros Hnd Hin Hl. induction ps as [|p ps IH]; [by apply elem_of_nil in Hin|].
  apply NoDup_cons in Hnd as [Hfresh Hnd]. simpl.
  destruct (decide (p = phase)) as [->|Hne].
  - rewrite flat_map_calls_in_other by done.
    unfold calls_in at 1 3. rewrite lookup_insert_eq, Hl. simpl.
    rewrite map_app. simpl. rewrite <- app_assoc. simpl.
    symmetry. apply Permutation_middle.
  - rewrite calls_in_insert_ne by done.
    apply elem_of_cons in Hin as [->|Hin]; [done|].
    rewrite (IH Hnd Hin). symmetry. apply Permutation_middle.
Qed.
(** The kernel after a [register] that added the entity to [phase]. *)
Definition registered_in (phase : string) (l : list (string * handle))
    (ie : string * handle) (k : Kernel.t) : Kernel.t :=
  Kernel.set_phase_registrations
    (<[phase := l ++ [ie]]> (Kernel._phase_registrations k))
    (Kernel.set_entities (Kernel._entities k ++ [ie]) k).

Lemma register_new (entity_id : string) (entity : handle) (phase : string)
    (l : list (string * handle)) (k : Kernel.t) :
  phase ∈ Kernel._phases k →
  Kernel.is_registered entity k = false →
  Kernel._phase_registrations k !! phase = Some l →
  Kernel.register entity_id entity (Some phase) k =
    mkOutcome (registered_in phase l (entity_id, entity) k) (inr tt).
Proof.
  intros Hp Hr Hl. unfold Kernel.register. unfold_m.
  rewrite bool_decide_eq_true_2 by done. simpl. rewrite Hr. simpl.
  by rewrite Hl.
Qed.

Lemma register_cases (entity_id : string) (entity : handle)
    (phase : option string) (k : Kernel.t) :
  phases_keyed k →
  let o := Kernel.register entity_id entity phase k in
  (final o = k ∧ (returned o → Kernel.is_registered entity k = true)) ∨
  (∃ p l, p ∈ Kernel._phases k ∧
          Kernel.is_registered entity k = false ∧
          Kernel._phase_registrations k !! p = Some l ∧
          o = mkOutcome (registered_in p l (entity_id, entity) k) (inr tt)).
Proof.
  intros Hkeys o. subst o.
  assert (∀ p, Kernel.register entity_id entity (Some p) k =
               Kernel.register entity_id entity phase k →
               (final (Kernel.register entity_id entity phase k) = k ∧
                (returned (Kernel.register entity_id entity phase k) →
                 Kernel.is_registered entity k = true)) ∨
               (∃ p l, p ∈ Kernel._phases k ∧
                  Kernel.is_registered entity k = false ∧
                  Kernel._phase_registrations k !! p = Some l ∧
                  Kernel.register entity_id entity phase k =
                    mkOutcome (registered_in p l (entity_id, entity) k) (inr tt)))
    as Hsome.
  { intros p <-. destruct (decide (p ∈ Kernel._phases k)) as [Hp|Hp].
    - destruct (Kernel.is_registered entity k) eqn:Hr.
      + left. by rewrite register_duplicate.
      + right. destruct (Hkeys p Hp) as [l Hl]. exists p, l.
        by rewrite (register_new _ _ _ l).
    - left. by rewrite register_unknown. }
  destruct phase as [p|]; [by apply (Hsome p)|].
  destruct (Kernel._phases k) as [|p rest] eqn:Hps.
  - left. unfold Kernel.register. unfold_m. by rewrite Hps.
  - apply (Hsome p). symmetry. by apply (register_default_phase _ _ p rest).
Qed.

Lemma registered_in_consistent (phase : string) (l : list (string * handle))
    (ie : string * handle) (k : Kernel.t) :
  consistent k →
  phase ∈ Kernel._phases k →
  Kernel.is_registered ie.2 k = false →
  Kernel._phase_registrations k !! phase = Some l →
  consistent (registered_in phase l ie k).
Proof.
  intros [Hnd Hkeys Hsnd Hsreg Hend] Hp Hr Hl.
  assert (ie.2 ∉ (Kernel._entities k).*2) as Hfresh.
  { intros Hin%is_registered_spec. congruence. }
  assert (scheduled (registered_in phase l ie k) ≡ₚ ie.2 :: scheduled k) as Hperm.
  { unfold scheduled. rewrite !schedule_calls_in. simpl.
    by rewrite (flat_map_calls_in_append _ _ l ie _ Hnd Hp Hl). }
  split; simpl.
  - done.
  - intros p Hp'. simpl in *. destruct (decide (p = phase)) as [->|Hne].
    + rewrite lookup_insert_eq. eauto.
    + rewrite lookup_insert_ne by done. by apply Hkeys.
  - rewrite Hperm. apply NoDup_cons. split; [|done]. by rewrite Hsreg.
  - intros e. rewrite Hperm, fmap_app, elem_of_cons, elem_of_app, Hsreg.
    simpl. rewrite list_elem_of_singleton. tauto.
  - rewrite fmap_app. apply NoDup_app. split; [done|]. split.
    + intros e He. simpl. rewrite list_elem_of_singleton. by intros ->.
    + simpl. apply NoDup_singleton.
Qed.

Lemma register_consistent (entity_id : string) (entity : handle)
    (phase : option string) (k : Kernel.t) :
  consistent k →
  consistent (final (Kernel.register entity_id entity phase k)).
Proof.
  intros Hc.
  destruct (register_cases entity_id entity phase k (phases_have_lists k Hc))
    as [[-> _]|(p & l & Hp & Hr & Hl & ->)]; [done|].
  by apply (registered_in_consistent p l (entity_id, entity)).
Qed.


End Consistency.

Section RegisteredOnce.
Context `{PyRandom} `{HashLib} `{!Pickle KernelState} {E : Type}.
Variable objects : handle → Kernel.Entity (E := E).
Variable Inv : Kernel.t * E → Prop.


End RegisteredOnce.

(** ** What a run lets one observe of the streams *)

Section Positions.
Context `{PyRandom} `{HashLib} `{!Pickle KernelState}.

(** The positions of the master generator and of every named stream. The
    [master_seed] and [_seed] attributes are left out: no draw reads them. *)
Definition positions (m : RNGManager.t) : rng * gmap string rng :=
  (RNGManager.master m, RNGStream._rng <$> RNGManager._streams m).

Fixpoint draw_many (n : nat) (stream : string) : M RNGManager.t (list float) :=
  match n with
  | O => ret []
  | S n' =>
      v <~ RNGManager.on_stream stream RNGStream.random ;;
      vs <~ draw_many n' stream ;;
      ret (v :: vs)
  end.

(** The next [n] values of [kernel.get_rng(name).random()]. *)
Definition stream_values (name : string) (n : nat) (k : Kernel.t) :
    Exn + list float :=
  result ((stream <~ Kernel.get_rng name ;;
           zoom Kernel._rng_manager Kernel.set_rng_manager (draw_many n stream))
            k).

Lemma positions_lookup (m1 m2 : RNGManager.t) (name : string) :
  positions m1 = positions m2 →
  RNGStream._rng <$> RNGManager._streams m1 !! name =
    RNGStream._rng <$> RNGManager._streams m2 !! name.
Proof.
  unfold positions. intros [= _ Hs]. by rewrite <- !lookup_fmap, Hs.
Qed.

Lemma get_stream_positions (name : string) (m1 m2 : RNGManager.t) :
  positions m1 = positions m2 →
  positions (final (RNGManager.get_stream name m1)) =
    positions (final (RNGManager.get_stream name m2)).
Proof.
  intros Hpos. pose proof (positions_lookup m1 m2 name Hpos) as Hl.
  rewrite !get_stream_final.
  destruct (RNGManager._streams m1 !! name) as [s1|],
    (RNGManager._streams m2 !! name) as [s2|]; try done.
  unfold positions, derived in *. simpl. injection Hpos as Hm Hs.
  rewrite Hm. destruct (sha256_int name); [by rewrite Hs|].
  by rewrite !fmap_insert, Hs.
Qed.

Lemma get_stream_result_positions (name : string) (m1 m2 : RNGManager.t) :
  positions m1 = positions m2 →
  result (RNGManager.get_stream name m1) =
    result (RNGManager.get_stream name m2).
Proof.
  intros Hpos. pose proof (positions_lookup m1 m2 name Hpos) as Hl.
  rewrite !get_stream_result_cases.
  by destruct (RNGManager._streams m1 !! name) as [s1|],
    (RNGManager._streams m2 !! name) as [s2|].
Qed.

Lemma random_positions (name : string) (m1 m2 : RNGManager.t) :
  positions m1 = positions m2 →
  let o1 := RNGManager.on_stream name RNGStream.random m1 in
  let o2 := RNGManager.on_stream name RNGStream.random m2 in
  positions (final o1) = positions (final o2) ∧ result o1 = result o2.
Proof.
  intros Hpos. pose proof (positions_lookup m1 m2 name Hpos) as Hl. simpl.
  unfold RNGManager.on_stream, RNGStream.random. unfold_m.
  destruct (RNGManager._streams m1 !! name) as [s1|],
    (RNGManager._streams m2 !! name) as [s2|]; try done.
  simpl in Hl. injection Hl as Hl. rewrite Hl.
  destruct (rng_random (RNGStream._rng s2)) as [v r]. simpl.
  split; [|done]. unfold positions in *. simpl. injection Hpos as Hm Hs.
  by rewrite Hm, !fmap_insert, Hs.
Qed.

Lemma draw_many_positions (n : nat) (name : string) (m1 m2 : RNGManager.t) :
  positions m1 = positions m2 →
  positions (final (draw_many n name m1)) =
    positions (final (draw_many n name m2)) ∧
  result (draw_many n name m1) = result (draw_many n name m2).
Proof.
  revert m1 m2. induction n as [|n IH]; intros m1 m2 Hpos; [done|].
  destruct (random_positions name m1 m2 Hpos) as [Hpos1 Hres1].
  cbn [draw_many]. unfold bind at 1 3 5 7.
  destruct (RNGManager.on_stream name RNGStream.random m1) as [m1' r1],
    (RNGManager.on_stream name RNGStream.random m2) as [m2' r2].
  simpl in *. subst r2. destruct r1 as [e|v]; [done|].
  destruct (IH m1' m2' Hpos1) as [Hpos2 Hres2].
  unfold bind, ret.
  destruct (draw_many n name m1') as [m1'' q1],
    (draw_many n name m2') as [m2'' q2].
  simpl in *. subst q2. by destruct q1.
Qed.

Lemma stream_values_positions (name : string) (n : nat) (k1 k2 : Kernel.t) :
  positions (Kernel._rng_manager k1) = positions (Kernel._rng_manager k2) →
  stream_values name n k1 = stream_values name n k2.
Proof.
  intros Hpos. unfold stream_values, Kernel.get_rng.
  pose proof (get_stream_positions name _ _ Hpos) as Hpos1.
  pose proof (get_stream_result_positions name _ _ Hpos) as Hres1.
  unfold bind, zoom. cbn [final result]. rewrite Hres1.
  destruct (result (RNGManager.get_stream name (Kernel._rng_manager k2)))
    as [e|stream]; [done|]. cbn [final result Kernel._rng_manager].
  destruct (draw_many_positions n stream _ _ Hpos1) as [_ Hres].
  destruct k1, k2. exact Hres.
Qed.
End Positions.

(** ** Two runs side by side *)

(** A second run of a program builds its entity objects anew: they are
    other objects, [rename] apart, with the same behaviour. [RE] relates what
    the entities of the two runs own. *)
Section Simulation.
Context `{PyRandom} `{HashLib} `{!Pickle KernelState} {E : Type}.
Variable rename : handle → handle.
Hypothesis rename_inj : Inj (=) (=) rename.
Variable RE : E → E → Prop.
Variables objects1 objects2 : handle → Kernel.Entity (E := E).

Local Abbreviation World := (Kernel.World (E := E)).











Lemma register_unkeyed (entity_id : string) (entity : handle) (phase : string)
    (k : Kernel.t) :
  phase ∈ Kernel._phases k →
  Kernel.is_registered entity k = false →
  Kernel._phase_registrations k !! phase = None →
  Kernel.register entity_id entity (Some phase) k =
    mkOutcome (Kernel.set_entities (Kernel._entities k ++ [(entity_id, entity)]) k)
      (inl (KeyError phase)).
Proof.
  intros Hp Hr Hl. unfold Kernel.register. unfold_m.
  rewrite bool_decide_eq_true_2 by done. simpl. rewrite Hr. simpl.
  by rewrite Hl.
Qed.









(** *** Snapshots *)

(** The state dictionary that [snapshot] pickles. *)
Definition snapshot_state (k : Kernel.t) : KernelState :=
  mkKernelState (Some (Kernel.time k))
    (Some (mkRngState
             (Some (rng_getstate (RNGManager.master (Kernel._rng_manager k))))
             (Some (map_to_list
                      (rng_getstate ∘ RNGStream._rng <$>
                         RNGManager._streams (Kernel._rng_manager k))))))
    (Some (Kernel._phases k)).

Lemma snapshot_outcome (k : Kernel.t) :
  Kernel.snapshot k = mkOutcome k (inr (pickle_dumps (snapshot_state k))).
Proof.
  unfold Kernel.snapshot, RNGManager.get_state. unfold_m.
  f_equal. by destruct k.
Qed.

Lemma snapshot_tokens_accepted (d : gmap string RNGStream.t) :
  Forall (λ nt, accepted nt.2)
    (map_to_list (rng_getstate ∘ RNGStream._rng <$> d)).
Proof.
  apply Forall_forall. intros [name tok] Hin%elem_of_map_to_list.
  rewrite lookup_fmap in Hin. destruct (d !! name) as [s|]; [|done].
  simpl in *. injection Hin as <-. exists (RNGStream._rng s).
  apply rng_setstate_getstate.
Qed.



End Simulation.

(** ** The agents of agent.py as entities *)

Section Agents.
Context `{PyRandom} `{HashLib} `{!Pickle KernelState}.

(** [kernel.get_rng(agent_id).random()] *)
Definition drawn (agent_id : string) : M Kernel.t float :=
  stream <~ Kernel.get_rng agent_id ;; Agent.stream_random stream.

Lemma act_counter (self : handle) (k : Kernel.t) (objs : Agent.Objs)
    (agent_id : string) (counter : float) :
  objs !! self = Some (Agent.CounterAgent agent_id counter) →
  Agent.act self (k, objs) =
    match result (drawn agent_id k) with
    | inl e => mkOutcome (final (drawn agent_id k), objs) (inl e)
    | inr v =>
        mkOutcome
          (final (drawn agent_id k),
           <[self := Agent.CounterAgent agent_id (counter + v)]> objs)
          (inr tt)
    end.
Proof.
  intros Hl. unfold Agent.act, Agent.with_kernel, drawn. unfold_m. rewrite Hl.
  simpl.
  destruct (result (RNGManager.get_stream agent_id (Kernel._rng_manager k)))
    as [e|stream]; [done|]. simpl.
  unfold Agent.stream_random, zoom. simpl.
  by destruct (result (RNGManager.on_stream stream RNGStream.random _)).
Qed.

Lemma act_base (self : handle) (k : Kernel.t) (objs : Agent.Objs)
    (agent_id : string) :
  objs !! self = Some (Agent.BaseAgent agent_id) →
  Agent.act self (k, objs) = mkOutcome (k, objs) (inl NotImplementedError).
Proof. intros Hl. unfold Agent.act. unfold_m. by rewrite Hl. Qed.

Lemma drawn_frame (agent_id : string) (k : Kernel.t) :
  Kernel.registry (final (drawn agent_id k)) = Kernel.registry k ∧
  Kernel.time (final (drawn agent_id k)) = Kernel.time k.
Proof.
  unfold drawn, Kernel.get_rng, Agent.stream_random. unfold_m.
  by destruct (result (RNGManager.get_stream agent_id (Kernel._rng_manager k))).
Qed.

Lemma drawn_returns (agent_id : string) (k : Kernel.t) :
  is_Some (RNGManager._streams (Kernel._rng_manager k) !! agent_id) ∨
    encodable agent_id →
  returned (drawn agent_id k).
Proof.
  intros Hcan. unfold drawn, Kernel.get_rng, Agent.stream_random. unfold_m.
  rewrite get_stream_result by done. simpl.
  destruct (get_stream_present agent_id (Kernel._rng_manager k) Hcan)
    as [s Hs].
  unfold RNGManager.on_stream, RNGStream.random. unfold_m. rewrite Hs. simpl.
  by destruct (rng_random (RNGStream._rng s)).
Qed.

(** Every entity that the schedule reaches is a [CounterAgent] whose id
    UTF-8 can encode. *)
Definition counters_only (ke : Kernel.t * Agent.Objs) : Prop :=
  ∀ c : Kernel.Call, c ∈ Kernel.schedule ke.1 →
    ∃ agent_id counter,
      ke.2 !! c.2 = Some (Agent.CounterAgent agent_id counter) ∧
      encodable agent_id.

(** The hook of an agent is its [step_phase], which comes down to [act]. *)
Lemma agent_hook (self : handle) (phase : string) :
  behaviour_hook Agent.entity self phase = Some (Agent.act self).
Proof. reflexivity. Qed.

Lemma agent_hooks (calls : list Kernel.Call) :
  hooks_of Agent.entity calls (map (λ c : Kernel.Call, Agent.act c.2) calls).
Proof.
  unfold hooks_of. induction calls as [|c calls IH]; constructor; [|done].
  apply agent_hook.
Qed.

Lemma counter_agents_calm : calm Agent.entity counters_only.
Proof.
  intros c [k objs] Hinv Hin. simpl in Hin.
  destruct (Hinv c Hin) as (agent_id & counter & Hl & Henc). simpl in Hl.
  exists (Agent.act c.2). split; [apply agent_hook|].
  rewrite (act_counter _ _ _ agent_id counter Hl).
  destruct (drawn_frame agent_id k) as (Hreg & Htm).
  pose proof (drawn_returns agent_id k (or_intror Henc)) as Hret.
  unfold returned, raised in Hret.
  destruct (result (drawn agent_id k)) as [e|v]; [done|].
  split; [done|]. split; [|done].
  intros c' Hc'. simpl in *. rewrite (schedule_registry _ _ Hreg) in Hc'.
  destruct (decide (c'.2 = c.2)) as [->|Hne].
  - eexists _, _. split; [apply lookup_insert_eq|done].
  - destruct (Hinv c' Hc') as (a & b & Hl' & Henc'). exists a, b.
    by rewrite lookup_insert_ne.
Qed.

Lemma counter_agents_quiet : quiet Agent.entity counters_only.
Proof. exact (calm_quiet _ _ counter_agents_calm). Qed.

Lemma counter_agents_timeless : timeless counters_only.
Proof. intros k objs tm Hinv c Hc. by apply Hinv. Qed.

Section Renamed.
Variable rename : handle → handle.
Context {rename_inj : Inj (=) (=) rename}.



End Renamed.
End Agents.

(** * More of the code *)

(** ** Streams and their manager *)

Section StreamState.
Context `{PyRandom}.

(** X23. Rewinding a stream: [get_state] returns a token and changes
    nothing; [set_state] of that token, on the stream in whatever position
    it is by then, returns and puts the generator back where it was, and
    never touches [_seed]. So with the seed still the same, whatever is
    called on the stream after the [set_state] does what it would have done
    at the time of the [get_state]. [reseed] instead makes the stream the
    fresh stream of the new seed. *)
Theorem stream_rewind (s later : RNGStream.t) :
  ∃ tok,
    RNGStream.get_state s = mkOutcome s (inr tok) ∧
    let o := RNGStream.set_state tok later in
    returned o ∧
    RNGStream._rng (final o) = RNGStream._rng s ∧
    RNGStream._seed (final o) = RNGStream._seed later ∧
    (∀ A (c : M RNGStream.t A),
       RNGStream._seed later = RNGStream._seed s →
       (RNGStream.set_state tok ;;; c) later = c s) ∧
    (∀ A (c : M RNGStream.t A) seed,
       (RNGStream.reseed seed ;;; c) later = c (RNGStream.init seed)).
Proof.
  exists (rng_getstate (RNGStream._rng s)). split; [done|].
  unfold RNGStream.set_state, RNGStream.reseed. unfold_m.
  rewrite rng_setstate_getstate. simpl.
  split; [done|]. split; [done|]. split; [done|]. split; [|done].
  intros A c Hseed. unfold RNGStream.set_rng. rewrite Hseed.
  by destruct s.
Qed.
End StreamState.

Section MoreStreams.
Context `{PyRandom} `{HashLib}.

Lemma mixed_seed_mod (digest drawn : Z) :
  mixed_seed digest drawn = Z.lxor drawn (digest mod 2 ^ 64) mod 2 ^ 63.
Proof.
  unfold mixed_seed. change (2 ^ 63 - 1) with (Z.ones 63).
  change (2 ^ 64 - 1) with (Z.ones 64).
  by rewrite !Z.land_ones.
Qed.

(** X1. [_derive_seed] moves the master by one draw of 64 bits whether it
    succeeds or not, and touches no stream. If UTF-8 can encode the name it
    returns [(drawn xor (digest mod 2^64)) mod 2^63], a seed that is not
    negative and fits in 63 bits whatever was drawn; if not, it raises the
    encoder's error with the draw already made. *)
Theorem derive_seed_range (name : string) (m : RNGManager.t) :
  let o := RNGManager._derive_seed name m in
  let dr := rng_getrandbits 64 (RNGManager.master m) in
  RNGManager.master (final o) = dr.2 ∧
  RNGManager._streams (final o) = RNGManager._streams m ∧
  RNGManager.master_seed (final o) = RNGManager.master_seed m ∧
  (∀ digest, sha256_int name = inr digest →
     ∃ seed, result o = inr seed ∧
             seed = Z.lxor dr.1 (digest mod 2 ^ 64) mod 2 ^ 63 ∧
             0 ≤ seed < 2 ^ 63) ∧
  (∀ e, sha256_int name = inl e → result o = inl e).
Proof.
  simpl. unfold RNGManager._derive_seed. unfold_m.
  destruct (rng_getrandbits 64 (RNGManager.master m)) as [drawn r]. simpl.
  destruct (sha256_int name) as [e|digest]; simpl.
  - split; [done|]. split; [done|]. split; [done|]. split; [done|].
    by intros e' [= ->].
  - split; [done|]. split; [done|]. split; [done|]. split; [|done].
    intros digest' [= <-]. exists (mixed_seed digest drawn). split; [done|].
    rewrite mixed_seed_mod. split; [done|]. by apply Z.mod_pos_bound.
Qed.

Lemma on_stream_other {A} (a b : string) (c : M RNGStream.t A)
    (m : RNGManager.t) :
  a ≠ b →
  RNGManager._streams (final (RNGManager.on_stream b c m)) !! a =
    RNGManager._streams m !! a ∧
  RNGManager.master (final (RNGManager.on_stream b c m)) = RNGManager.master m.
Proof.
  intros Hne. unfold RNGManager.on_stream. unfold_m.
  destruct (RNGManager._streams m !! b) as [s|]; simpl; [|done].
  by rewrite lookup_insert_ne.
Qed.

Lemma get_stream_other (a b : string) (m : RNGManager.t) :
  a ≠ b →
  RNGManager._streams (final (RNGManager.get_stream b m)) !! a =
    RNGManager._streams m !! a.
Proof.
  intros Hne. rewrite get_stream_final.
  destruct (RNGManager._streams m !! b); [done|].
  unfold derived. simpl. destruct (sha256_int b); [done|].
  by rewrite lookup_insert_ne.
Qed.

Lemma on_stream_lookup {A} (a : string) (c : M RNGStream.t A)
    (m1 m2 : RNGManager.t) :
  RNGManager._streams m1 !! a = RNGManager._streams m2 !! a →
  result (RNGManager.on_stream a c m1) = result (RNGManager.on_stream a c m2).
Proof.
  intros Hl. unfold RNGManager.on_stream. unfold_m. rewrite Hl.
  by destruct (RNGManager._streams m2 !! a).
Qed.

(** X2. Streams are isolated: a method call on the stream named [b], be it
    a draw, [set_state] or [reseed], and the lookup or derivation of [b],
    leave the stream object of every other name as it was, so the next value
    of stream [a] is the same before and after. A call on a stream does not
    move the master generator either. *)
Theorem streams_isolated {A} (a b : string) (c : M RNGStream.t A)
    (m : RNGManager.t) :
  a ≠ b →
  let after_call := final (RNGManager.on_stream b c m) in
  let after_lookup := final (RNGManager.get_stream b m) in
  RNGManager._streams after_call !! a = RNGManager._streams m !! a ∧
  RNGManager.master after_call = RNGManager.master m ∧
  RNGManager._streams after_lookup !! a = RNGManager._streams m !! a ∧
  result (RNGManager.on_stream a RNGStream.random after_call) =
    result (RNGManager.on_stream a RNGStream.random m) ∧
  result (RNGManager.on_stream a RNGStream.random after_lookup) =
    result (RNGManager.on_stream a RNGStream.random m).
Proof.
  intros Hne after_call after_lookup. subst after_call after_lookup.
  destruct (on_stream_other a b c m Hne) as [Hs Hm].
  pose proof (get_stream_other a b m Hne) as Hg.
  repeat split; try done; by apply on_stream_lookup.
Qed.

(** The tokens of the streams of [d], as [get_state] lists them. *)
Definition stream_tokens (d : gmap string RNGStream.t) :
    list (string * token) :=
  map_to_list (rng_getstate ∘ RNGStream._rng <$> d).

Lemma stream_tokens_accepted (d : gmap string RNGStream.t) :
  Forall (λ nt, accepted nt.2) (stream_tokens d).
Proof.
  apply Forall_forall. intros [name tok] Hin%elem_of_map_to_list.
  rewrite lookup_fmap in Hin. destruct (d !! name) as [s|]; [|done].
  simpl in *. injection Hin as <-. exists (RNGStream._rng s).
  apply rng_setstate_getstate.
Qed.

Lemma stored_all_tokens (d d' : gmap string RNGStream.t) (name : string) :
  stored_all (stream_tokens d) d' !! name =
    match d !! name with
    | Some s =>
        Some (RNGStream.mk
                (match d' !! name with
                 | Some s' => RNGStream._seed s'
                 | None => 0
                 end)
                (RNGStream._rng s))
    | None => d' !! name
    end.
Proof.
  destruct (d !! name) as [s|] eqn:Hs.
  - apply (stored_all_imported _ _ name (rng_getstate (RNGStream._rng s))).
    + apply NoDup_fst_map_to_list.
    + apply stream_tokens_accepted.
    + apply elem_of_map_to_list. by rewrite lookup_fmap, Hs.
    + apply rng_setstate_getstate.
  - apply stored_all_other.
    intros ([n tok] & Hn & Hin%elem_of_map_to_list)%list_elem_of_fmap.
    simpl in Hn. subst n. by rewrite lookup_fmap, Hs in Hin.
Qed.

Lemma stored_all_own (d : gmap string RNGStream.t) :
  stored_all (stream_tokens d) d = d.
Proof.
  apply map_eq. intros name. rewrite stored_all_tokens.
  by destruct (d !! name) as [[seed r]|].
Qed.

Lemma stored_all_positions (d d' : gmap string RNGStream.t) :
  dom d' ⊆ dom d →
  RNGStream._rng <$> stored_all (stream_tokens d) d' = RNGStream._rng <$> d.
Proof.
  intros Hdom. apply map_eq. intros name.
  rewrite !lookup_fmap, stored_all_tokens.
  destruct (d !! name) as [s|] eqn:Hs; [done|].
  destruct (d' !! name) as [s'|] eqn:Hs'; [|done].
  assert (name ∈ dom d) as Hin by (apply Hdom, elem_of_dom; eauto).
  apply elem_of_dom in Hin as [s Hin]. congruence.
Qed.

Lemma get_state_outcome (m : RNGManager.t) :
  RNGManager.get_state m =
    mkOutcome m
      (inr (mkRngState (Some (rng_getstate (RNGManager.master m)))
              (Some (stream_tokens (RNGManager._streams m))))).
Proof. reflexivity. Qed.

(** X3. [get_state] changes nothing, and [set_state] of what it returned
    is the identity on the manager it came from. Given to another manager
    that has no stream of a name unknown to the first, it returns and puts
    the master and every stream at the positions of the first, keeping the
    [master_seed] attribute of the target. *)
Theorem manager_state_round_trip (m : RNGManager.t) :
  ∃ state,
    RNGManager.get_state m = mkOutcome m (inr state) ∧
    RNGManager.set_state state m = mkOutcome m (inr tt) ∧
    ∀ m',
      dom (RNGManager._streams m') ⊆ dom (RNGManager._streams m) →
      returned (RNGManager.set_state state m') ∧
      positions (final (RNGManager.set_state state m')) = positions m ∧
      RNGManager.master_seed (final (RNGManager.set_state state m')) =
        RNGManager.master_seed m'.
Proof.
  eexists. split; [apply get_state_outcome|].
  assert (∀ m', RNGManager.set_state
                  (mkRngState (Some (rng_getstate (RNGManager.master m)))
                     (Some (stream_tokens (RNGManager._streams m)))) m' =
                mkOutcome
                  (RNGManager.mk (RNGManager.master_seed m') (RNGManager.master m)
                     (stored_all (stream_tokens (RNGManager._streams m))
                        (RNGManager._streams m')))
                  (inr tt)) as Hset.
  { intros m'.
    exact (set_state_accepted
             (mkRngState (Some (rng_getstate (RNGManager.master m)))
                (Some (stream_tokens (RNGManager._streams m))))
             (rng_getstate (RNGManager.master m)) (RNGManager.master m) m'
             eq_refl (rng_setstate_getstate _) (stream_tokens_accepted _)). }
  split.
  - rewrite Hset, stored_all_own. by destruct m.
  - intros m' Hdom. rewrite Hset. simpl. split; [done|]. split; [|done].
    unfold positions. simpl. by rewrite stored_all_positions.
Qed.
End MoreStreams.

(** ** The constructor and [register] *)

Section MoreRegistration.
Context `{PyRandom} `{HashLib} `{!Pickle KernelState} {E : Type}.
Variable objects : handle → Kernel.Entity (E := E).

Lemma init_registrations_lookup (seed : Z) (phases : option (list string))
    (p : string) :
  Kernel._phase_registrations (Kernel.init seed phases) !! p =
    if decide (p ∈ Kernel._phases (Kernel.init seed phases)) then Some []
    else None.
Proof. unfold Kernel.init. simpl. by rewrite init_registrations. Qed.

Lemma run_phases_no_members (ps : list string) (w : Kernel.World (E := E)) :
  (∀ p, p ∈ ps →
     Kernel._phase_registrations (Kernel.kernel w) !! p = Some []) →
  Kernel.run_phases objects ps w = mkOutcome w (inr tt).
Proof.
  induction ps as [|p ps IH]; intros Hall; [done|].
  cbn [Kernel.run_phases]. unfold bind at 1. unfold get. simpl.
  rewrite (Hall p) by left. unfold bind. simpl.
  apply IH. intros q Hq. apply Hall. by right.
Qed.

(** X4. A new kernel, whatever the arguments: time 0, nobody registered, a
    phase list that is not empty (the default for [None] and for the empty
    list), an empty member list for exactly the declared phases, and no
    stream. Its first tick calls nothing and moves the time to 1, and a
    [register] without a phase returns. *)
Theorem init_fresh (seed : Z) (phases : option (list string)) (env : E)
    (entity_id : string) (entity : handle) :
  let k := Kernel.init seed phases in
  Kernel.time k = 0 ∧
  Kernel._entities k = [] ∧
  Kernel._phases k ≠ [] ∧
  Kernel._phases (Kernel.init seed (Some [])) = Kernel._phases (Kernel.init seed None) ∧
  (∀ p, Kernel._phase_registrations k !! p =
          if decide (p ∈ Kernel._phases k) then Some [] else None) ∧
  RNGManager._streams (Kernel._rng_manager k) = ∅ ∧
  Kernel.step objects (Kernel.mkWorld k env []) =
    mkOutcome (Kernel.mkWorld (Kernel.set_time 1 k) env []) (inr tt) ∧
  returned (Kernel.register entity_id entity None k).
Proof.
  intros k. subst k.
  assert (Kernel._phases (Kernel.init seed phases) ≠ []) as Hne
    by by destruct phases as [[|p rest]|].
  split; [done|]. split; [done|]. split; [done|]. split; [done|].
  split; [apply init_registrations_lookup|]. split; [done|]. split.
  - set (k := Kernel.init seed phases) in *.
    assert (Kernel.run_phases objects (Kernel._phases k)
              (Kernel.mkWorld k env []) =
            mkOutcome (Kernel.mkWorld k env []) (inr tt)) as Hrun.
    { apply run_phases_no_members. intros p Hp. cbn [Kernel.kernel].
      subst k. rewrite init_registrations_lookup. by rewrite decide_True. }
    unfold Kernel.step, bind, get. cbn [final result Kernel.kernel].
    rewrite Hrun. reflexivity.
  - destruct (Kernel._phases (Kernel.init seed phases)) as [|p rest] eqn:Hps;
      [done|].
    rewrite (register_default_phase _ _ p rest) by done.
    assert (p ∈ Kernel._phases (Kernel.init seed phases)) as Hp
      by (rewrite Hps; left).
    rewrite (register_new _ _ _ []); [done|done|done|].
    rewrite init_registrations_lookup. by rewrite decide_True.
Qed.
End MoreRegistration.

Section MoreRegister.
Context `{PyRandom} `{HashLib} `{!Pickle KernelState}.

Lemma register_outcomes (entity_id : string) (entity : handle)
    (phase : option string) (k : Kernel.t) :
  let o := Kernel.register entity_id entity phase k in
  final o = k ∨
  ∃ p, p ∈ Kernel._phases k ∧ Kernel.is_registered entity k = false ∧
    ((Kernel._phase_registrations k !! p = None ∧
      o = mkOutcome
            (Kernel.set_entities (Kernel._entities k ++ [(entity_id, entity)]) k)
            (inl (KeyError p))) ∨
     (∃ l, Kernel._phase_registrations k !! p = Some l ∧
        o = mkOutcome (registered_in p l (entity_id, entity) k) (inr tt))).
Proof.
  simpl.
  assert (∀ p, Kernel.register entity_id entity (Some p) k =
               Kernel.register entity_id entity phase k →
               final (Kernel.register entity_id entity phase k) = k ∨
               ∃ p, p ∈ Kernel._phases k ∧
                 Kernel.is_registered entity k = false ∧
                 ((Kernel._phase_registrations k !! p = None ∧
                   Kernel.register entity_id entity phase k =
                     mkOutcome
                       (Kernel.set_entities
                          (Kernel._entities k ++ [(entity_id, entity)]) k)
                       (inl (KeyError p))) ∨
                  (∃ l, Kernel._phase_registrations k !! p = Some l ∧
                     Kernel.register entity_id entity phase k =
                       mkOutcome (registered_in p l (entity_id, entity) k)
                         (inr tt)))) as Hsome.
  { intros p <-. destruct (decide (p ∈ Kernel._phases k)) as [Hp|Hp].
    - destruct (Kernel.is_registered entity k) eqn:Hr.
      + left. by rewrite register_duplicate.
      + right. exists p. split; [done|]. split; [done|].
        destruct (Kernel._phase_registrations k !! p) as [l|] eqn:Hl.
        * right. exists l. by rewrite (register_new _ _ _ l).
        * left. by rewrite register_unkeyed.
    - left. by rewrite register_unknown. }
  destruct phase as [p|]; [by apply (Hsome p)|].
  destruct (Kernel._phases k) as [|p rest] eqn:Hps.
  - left. unfold Kernel.register. unfold_m. by rewrite Hps.
  - apply (Hsome p). symmetry. by apply (register_default_phase _ _ p rest).
Qed.

Lemma register_checks_helper (entity_id : string) (entity : handle)
    (phase : option string) (k : Kernel.t) :
  Kernel.is_registered entity k = true →
  returned (Kernel.register entity_id entity phase k) →
  Kernel.register entity_id entity phase k = mkOutcome k (inr tt).
Proof.
  intros Hr Hret.
  destruct (register_outcomes entity_id entity phase k)
    as [Hk|(p & _ & Hr' & _)]; [|congruence].
  unfold returned, raised in Hret.
  destruct (Kernel.register entity_id entity phase k) as [k' [e|[]]];
    simpl in *; [done|by subst].
Qed.

(** X5. Whatever its arguments and however it ends, [register] writes
    neither the time, nor the phase list, nor the stream manager. It removes
    nothing: the global list and every phase list are as before or longer by
    the one new pair at the end, and no phase gets or loses its list. *)
Theorem register_frame (entity_id : string) (entity : handle)
    (phase : option string) (k : Kernel.t) :
  let k' := final (Kernel.register entity_id entity phase k) in
  Kernel.time k' = Kernel.time k ∧
  Kernel._phases k' = Kernel._phases k ∧
  Kernel._rng_manager k' = Kernel._rng_manager k ∧
  (Kernel._entities k' = Kernel._entities k ∨
   Kernel._entities k' = Kernel._entities k ++ [(entity_id, entity)]) ∧
  ∀ p,
    Kernel._phase_registrations k' !! p = Kernel._phase_registrations k !! p ∨
    ∃ l, Kernel._phase_registrations k !! p = Some l ∧
         Kernel._phase_registrations k' !! p = Some (l ++ [(entity_id, entity)]).
Proof.
  intros k'. subst k'.
  destruct (register_outcomes entity_id entity phase k)
    as [->|(p & Hp & Hr & [[Hl ->]|(l & Hl & ->)])]; simpl.
  - repeat split; try done; by left.
  - repeat split; try done; [by right|by left].
  - repeat split; try done; [by right|].
    intros q. destruct (decide (q = p)) as [->|Hne].
    + right. exists l. by rewrite lookup_insert_eq.
    + left. by rewrite lookup_insert_ne.
Qed.
End MoreRegister.

Section MoreScheduling.
Context `{PyRandom} `{HashLib} `{!Pickle KernelState} {E : Type}.
Variable objects : handle → Kernel.Entity (E := E).

(** X6. The duplicate check of [register] compares objects, not ids: two
    different objects registered under one id are both accepted, one after
    the other in the global list and in the phase, and the registry stays
    consistent. *)
Theorem register_ignores_ids (entity_id p : string) (e1 e2 : handle)
    (k : Kernel.t) :
  consistent k → p ∈ Kernel._phases k → e1 ≠ e2 →
  Kernel.is_registered e1 k = false → Kernel.is_registered e2 k = false →
  let o1 := Kernel.register entity_id e1 (Some p) k in
  let o2 := Kernel.register entity_id e2 (Some p) (final o1) in
  returned o1 ∧ returned o2 ∧
  Kernel._entities (final o2) =
    Kernel._entities k ++ [(entity_id, e1); (entity_id, e2)] ∧
  Kernel.phase_calls (final o2) p =
    Kernel.phase_calls k p ++ [(p, entity_id, e1); (p, entity_id, e2)] ∧
  consistent (final o2).
Proof.
  intros Hc Hp Hne Hr1 Hr2 o1 o2. subst o1 o2.
  destruct (phases_have_lists k Hc p Hp) as [l Hl].
  rewrite (register_new _ e1 _ l) by done. simpl.
  set (k1 := registered_in p l (entity_id, e1) k).
  assert (consistent k1) as Hc1
    by by apply (registered_in_consistent p l (entity_id, e1)).
  assert (Kernel.is_registered e2 k1 = false) as Hr2'.
  { apply not_true_is_false. intros Hin%is_registered_spec.
    subst k1. simpl in Hin. rewrite fmap_app in Hin.
    apply elem_of_app in Hin as [Hin|Hin].
    - apply is_registered_spec in Hin. congruence.
    - simpl in Hin. apply list_elem_of_singleton in Hin. congruence. }
  assert (Kernel._phase_registrations k1 !! p = Some (l ++ [(entity_id, e1)]))
    as Hl1 by (subst k1; simpl; apply lookup_insert_eq).
  rewrite (register_new _ e2 _ (l ++ [(entity_id, e1)])) by done. simpl.
  split; [done|]. split; [done|]. split; [by rewrite <- app_assoc|]. split.
  - unfold Kernel.phase_calls. simpl. rewrite lookup_insert_eq, Hl. simpl.
    by rewrite !map_app, <- app_assoc.
  - by apply (registered_in_consistent p _ (entity_id, e2)).
Qed.

(** X7. When a declared phase has no member list, which only a [restore]
    with another phase list brings about, [register] into it raises
    [KeyError] after it has put the entity into the global list: the entity
    is in no phase, the schedule is as before, and from then on every
    [register] of that entity with a declared phase is a no-op. *)
Theorem register_half_done_without_list (entity_id other_id phase p : string)
    (entity : handle) (k : Kernel.t) :
  phase ∈ Kernel._phases k →
  Kernel._phase_registrations k !! phase = None →
  Kernel.is_registered entity k = false →
  p ∈ Kernel._phases k →
  let o := Kernel.register entity_id entity (Some phase) k in
  raised o = Some (KeyError phase) ∧
  Kernel._entities (final o) = Kernel._entities k ++ [(entity_id, entity)] ∧
  Kernel._phase_registrations (final o) = Kernel._phase_registrations k ∧
  Kernel.schedule (final o) = Kernel.schedule k ∧
  Kernel.register other_id entity (Some p) (final o) =
    mkOutcome (final o) (inr tt).
Proof.
  intros Hphase Hl Hr Hp o. subst o. rewrite register_unkeyed by done. simpl.
  repeat split; try done.
  apply register_duplicate; [done|]. apply is_registered_spec. simpl.
  rewrite fmap_app. apply elem_of_app. right. simpl. by left.
Qed.

(** X8. A tick that comes to a declared phase without a member list raises
    [KeyError] for that phase: the phases before it have run, nothing of it
    or after it is called, and the time is not incremented. [run] stops
    there. *)
Theorem step_raises_without_list (w w1 : Kernel.World (E := E))
    (ps1 ps2 : list string) (p : string) (steps : Z) :
  Kernel._phases (Kernel.kernel w) = ps1 ++ p :: ps2 →
  Kernel.run_phases objects ps1 w = mkOutcome w1 (inr tt) →
  Kernel._phase_registrations (Kernel.kernel w1) !! p = None →
  0 < steps →
  Kernel.step objects w = mkOutcome w1 (inl (KeyError p)) ∧
  Kernel.run objects steps w = mkOutcome w1 (inl (KeyError p)).
Proof.
  intros Hps H1 Hl Hsteps.
  assert (Kernel.step objects w = mkOutcome w1 (inl (KeyError p))) as Hstep.
  { unfold Kernel.step. unfold bind at 1. unfold get. simpl.
    apply bind_raised. rewrite Hps, run_phases_app.
    rewrite (bind_returned _ _ _ _ _ H1). simpl.
    unfold bind, get. simpl. by rewrite Hl. }
  split; [done|].
  unfold Kernel.run. destruct (Z.to_nat steps) as [|n] eqn:Hn; [lia|].
  simpl. by apply bind_raised.
Qed.

Lemma repeat_step_add (n m : nat) (w : Kernel.World (E := E)) :
  Kernel.repeat_step objects (n + m) w =
    (Kernel.repeat_step objects n ;;; Kernel.repeat_step objects m) w.
Proof.
  revert w. induction n as [|n IH]; intros w.
  - simpl. unfold bind, ret. simpl.
    by destruct (Kernel.repeat_step objects m w).
  - cbn [Nat.add Kernel.repeat_step]. unfold bind in *.
    destruct (Kernel.step objects w) as [w1 [x|[]]]; simpl; [done|].
    apply IH.
Qed.

(** X9. [run] composes: [run(a)] followed by [run(b)] is [run(a + b)], the
    failure of a tick included, and a count that is zero or negative runs no
    tick at all. *)
Theorem run_splits (a b : Z) (w : Kernel.World (E := E)) :
  0 ≤ a → 0 ≤ b →
  Kernel.run objects (a + b) w =
    (Kernel.run objects a ;;; Kernel.run objects b) w ∧
  Kernel.run objects (- a) w = mkOutcome w (inr tt).
Proof.
  intros Ha Hb. unfold Kernel.run. split.
  - rewrite Z2Nat.inj_add by done. apply repeat_step_add.
  - replace (Z.to_nat (- a)) with 0%nat by lia. done.
Qed.
End MoreScheduling.

(** ** [unregister] *)

Section Unregister.
Context `{PyRandom} `{HashLib} `{!Pickle KernelState}.

(** The dict of member lists after the loop of [unregister] went through
    the phases [ps]. *)
Definition swept (entity : handle) (ps : list string)
    (d : gmap string (list (string * handle))) :
    gmap string (list (string * handle)) :=
  foldl (λ d p, match d !! p with
                | Some l => <[p := Kernel.without entity l]> d
                | None => d
                end) d ps.

(** The kernel after an [unregister] that went through. *)
Definition unregistered (entity : handle) (k : Kernel.t) : Kernel.t :=
  Kernel.set_phase_registrations
    (swept entity (Kernel._phases k) (Kernel._phase_registrations k))
    (Kernel.set_entities (Kernel.without entity (Kernel._entities k)) k).

Lemma without_without (entity : handle) (l : list (string * handle)) :
  Kernel.without entity (Kernel.without entity l) = Kernel.without entity l.
Proof.
  unfold Kernel.without. induction l as [|ie l IH]; [done|].
  rewrite filter_cons. case_decide as Hie; [|done].
  rewrite filter_cons, decide_True by done. by rewrite IH.
Qed.

Lemma without_absent (entity : handle) (l : list (string * handle)) :
  entity ∉ l.*2 → Kernel.without entity l = l.
Proof.
  unfold Kernel.without. induction l as [|ie l IH]; intros Hnot; [done|].
  simpl in Hnot. apply not_elem_of_cons in Hnot as [Hne Hnot].
  rewrite filter_cons, decide_True by done. by rewrite IH.
Qed.

Lemma without_handles (entity : handle) (l : list (string * handle)) :
  (Kernel.without entity l).*2 = filter (λ e, e ≠ entity) l.*2.
Proof.
  unfold Kernel.without. induction l as [|ie l IH]; [done|].
  rewrite fmap_cons, !filter_cons.
  destruct (decide (ie.2 ≠ entity)); rewrite ?fmap_cons, IH; done.
Qed.

Lemma swept_lookup (entity : handle) (ps : list string)
    (d : gmap string (list (string * handle))) (q : string) :
  swept entity ps d !! q =
    if decide (q ∈ ps) then Kernel.without entity <$> d !! q else d !! q.
Proof.
  unfold swept. revert d. induction ps as [|p ps IH]; intros d; cbn [foldl].
  - destruct (decide (q ∈ [])) as [Hin|_]; [by apply elem_of_nil in Hin|done].
  - rewrite IH.
    assert (match d !! p with
            | Some l => <[p := Kernel.without entity l]> d
            | None => d
            end !! q =
            if decide (q = p) then Kernel.without entity <$> d !! q
            else d !! q) as Hstep.
    { destruct (decide (q = p)) as [->|Hne].
      - destruct (d !! p) as [l|] eqn:Hl; [|by rewrite Hl].
        by rewrite lookup_insert_eq.
      - destruct (d !! p); [|done]. by rewrite lookup_insert_ne. }
    rewrite Hstep.
    destruct (decide (q ∈ ps)) as [Hin|Hnot].
    + rewrite (decide_True (P := q ∈ p :: ps)) by by right.
      destruct (decide (q = p)); [|done].
      destruct (d !! q); simpl; [|done]. by rewrite without_without.
    + destruct (decide (q = p)) as [->|Hne].
      * rewrite (decide_True (P := p ∈ p :: ps)); [done|by left].
      * rewrite (decide_False (P := q ∈ p :: ps)); [done|].
        by intros [?|?]%elem_of_cons.
Qed.

Lemma unregister_phases_keyed (entity : handle) (ps : list string)
    (k : Kernel.t) :
  (∀ p, p ∈ ps → is_Some (Kernel._phase_registrations k !! p)) →
  Kernel.unregister_phases entity ps k =
    mkOutcome
      (Kernel.set_phase_registrations
         (swept entity ps (Kernel._phase_registrations k)) k)
      (inr tt).
Proof.
  revert k. induction ps as [|p ps IH]; intros k Hkeys.
  - simpl. unfold ret. by destruct k.
  - destruct (Hkeys p) as [l Hl]; [left|].
    cbn [Kernel.unregister_phases]. unfold bind, get, modify. simpl.
    rewrite Hl. simpl. rewrite IH.
    + reflexivity.
    + intros q Hq. simpl. destruct (decide (q = p)) as [->|Hne].
      * rewrite lookup_insert_eq. eauto.
      * rewrite lookup_insert_ne by done. apply Hkeys. by right.
Qed.

Lemma unregister_keyed (entity : handle) (k : Kernel.t) :
  phases_keyed k →
  Kernel.unregister entity k = mkOutcome (unregistered entity k) (inr tt).
Proof.
  intros Hkeys. unfold Kernel.unregister, bind, get, modify. simpl.
  by rewrite unregister_phases_keyed.
Qed.

Lemma unregistered_calls (entity : handle) (k : Kernel.t) (p : string) :
  p ∈ Kernel._phases k →
  Kernel.phase_calls (unregistered entity k) p =
    filter (λ c : Kernel.Call, c.2 ≠ entity) (Kernel.phase_calls k p).
Proof.
  intros Hp. unfold Kernel.phase_calls. simpl.
  rewrite swept_lookup, decide_True by done.
  destruct (Kernel._phase_registrations k !! p) as [l|]; simpl; [|done].
  unfold Kernel.without. induction l as [|ie l IH]; [done|].
  rewrite filter_cons. simpl. rewrite filter_cons. simpl.
  case_decide; simpl; by rewrite IH.
Qed.

Lemma unregistered_schedule (entity : handle) (k : Kernel.t) :
  Kernel.schedule (unregistered entity k) =
    filter (λ c : Kernel.Call, c.2 ≠ entity) (Kernel.schedule k).
Proof.
  unfold Kernel.schedule.
  change (Kernel._phases (unregistered entity k)) with (Kernel._phases k).
  assert (∀ ps, (∀ p, p ∈ ps → p ∈ Kernel._phases k) →
            flat_map (Kernel.phase_calls (unregistered entity k)) ps =
            filter (λ c : Kernel.Call, c.2 ≠ entity)
              (flat_map (Kernel.phase_calls k) ps)) as Hall.
  { induction ps as [|p ps IH]; intros Hsub; [done|].
    simpl. rewrite filter_app, unregistered_calls by (apply Hsub; left).
    rewrite IH; [done|]. intros q Hq. apply Hsub. by right. }
  by apply Hall.
Qed.

Lemma scheduled_unregistered (entity : handle) (k : Kernel.t) :
  scheduled (unregistered entity k) = filter (λ e, e ≠ entity) (scheduled k).
Proof.
  unfold scheduled. rewrite unregistered_schedule.
  induction (Kernel.schedule k) as [|c l IH]; [done|].
  rewrite fmap_cons, !filter_cons.
  destruct (decide (c.2 ≠ entity)); rewrite ?fmap_cons, IH; done.
Qed.

Lemma unregistered_consistent (entity : handle) (k : Kernel.t) :
  consistent k → consistent (unregistered entity k).
Proof.
  intros [Hnd Hkeys Hsnd Hsreg Hend]. split.
  - done.
  - intros p Hp. simpl in *. rewrite swept_lookup, decide_True by done.
    destruct (Hkeys p Hp) as [l ->]. simpl. eauto.
  - rewrite scheduled_unregistered. by apply NoDup_filter.
  - intros e. rewrite scheduled_unregistered. simpl.
    rewrite without_handles, !list_elem_of_filter, Hsreg. done.
  - simpl. rewrite without_handles. by apply NoDup_filter.
Qed.

(** X10. On a kernel in which every declared phase has its list,
    [unregister] returns and removes the entity everywhere: it is gone from
    the global list and from the schedule, the other entities keep their
    order, and time, phase list and streams are untouched. A consistent
    registry stays consistent. *)
Theorem unregister_removes (entity : handle) (k : Kernel.t) :
  phases_keyed k →
  let o := Kernel.unregister entity k in
  returned o ∧
  Kernel._entities (final o) = Kernel.without entity (Kernel._entities k) ∧
  Kernel.schedule (final o) =
    filter (λ c : Kernel.Call, c.2 ≠ entity) (Kernel.schedule k) ∧
  Kernel.is_registered entity (final o) = false ∧
  invocations entity (Kernel.schedule (final o)) = 0%nat ∧
  Kernel.time (final o) = Kernel.time k ∧
  Kernel._phases (final o) = Kernel._phases k ∧
  Kernel._rng_manager (final o) = Kernel._rng_manager k ∧
  (consistent k → consistent (final o)).
Proof.
  intros Hkeys o. subst o. rewrite unregister_keyed by done. simpl.
  split; [done|]. split; [done|]. split; [apply unregistered_schedule|].
  split.
  - apply not_true_is_false. intros Hin%is_registered_spec. simpl in Hin.
    rewrite without_handles in Hin. by apply list_elem_of_filter in Hin as [? _].
  - split; [|by repeat split; try apply unregistered_consistent].
    unfold invocations. apply count_occ_not_In. intros Hin%list_elem_of_In.
    fold (scheduled (unregistered entity k)) in Hin.
    rewrite scheduled_unregistered in Hin.
    by apply list_elem_of_filter in Hin as [? _].
Qed.
Lemma member_scheduled (k : Kernel.t) (p : string)
    (l : list (string * handle)) (e : handle) :
  p ∈ Kernel._phases k → Kernel._phase_registrations k !! p = Some l →
  e ∈ l.*2 → e ∈ scheduled k.
Proof.
  intros Hp Hl (ie & -> & Hin)%list_elem_of_fmap. unfold scheduled.
  apply list_elem_of_fmap. exists (p, ie.1, ie.2). split; [done|].
  apply (phase_calls_in_schedule k p); [done|].
  unfold Kernel.phase_calls. rewrite Hl. simpl.
  apply list_elem_of_fmap. by exists ie.
Qed.

Lemma unregistered_absent (entity : handle) (k : Kernel.t) :
  entity ∉ (Kernel._entities k).*2 →
  (∀ p l, p ∈ Kernel._phases k → Kernel._phase_registrations k !! p = Some l →
     entity ∉ l.*2) →
  unregistered entity k = k.
Proof.
  intros Hents Hlists. unfold unregistered.
  rewrite (without_absent _ _ Hents).
  assert (swept entity (Kernel._phases k) (Kernel._phase_registrations k) =
          Kernel._phase_registrations k) as ->.
  { apply map_eq. intros q. rewrite swept_lookup. case_decide as Hq; [|done].
    destruct (Kernel._phase_registrations k !! q) as [l|] eqn:Hl; [|done].
    simpl. by rewrite (without_absent _ _ (Hlists q l Hq Hl)). }
  by destruct k.
Qed.

(** X11. [unregister] of an entity that is nowhere in the registry is a
    no-op on a kernel in which every declared phase has its list: it returns
    and the kernel is exactly as before. *)
Theorem unregister_absent_noop (entity : handle) (k : Kernel.t) :
  phases_keyed k → ¬ in_registry entity k →
  Kernel.unregister entity k = mkOutcome k (inr tt).
Proof.
  intros Hkeys Hnot. rewrite unregister_keyed by done.
  rewrite unregistered_absent; [done| |].
  - intros Hin. apply Hnot. by left.
  - intros p l Hp Hl Hin. apply Hnot. right. by exists p, l.
Qed.

(** X12. [unregister] undoes [register]: on a consistent kernel, a
    [register] of an entity that was not registered, if it returns, followed
    by [unregister] of that entity gives back exactly the kernel before the
    two calls. *)
Theorem register_unregister_round_trip (entity_id : string) (entity : handle)
    (phase : option string) (k : Kernel.t) :
  consistent k →
  Kernel.is_registered entity k = false →
  returned (Kernel.register entity_id entity phase k) →
  Kernel.unregister entity (final (Kernel.register entity_id entity phase k)) =
    mkOutcome k (inr tt).
Proof.
  intros Hc Hr Hret. pose proof Hc as [Hnd Hkeys Hsnd Hsreg Hend].
  assert (entity ∉ (Kernel._entities k).*2) as Hfresh.
  { intros Hin%is_registered_spec. congruence. }
  assert (∀ q l, q ∈ Kernel._phases k →
            Kernel._phase_registrations k !! q = Some l → entity ∉ l.*2)
    as Hlists.
  { intros q l Hq Hl Hin. apply Hfresh, Hsreg.
    by apply (member_scheduled k q l). }
  destruct (register_cases entity_id entity phase k Hkeys)
    as [[_ Hdup]|(p & l & Hp & _ & Hl & Heq)]; [specialize (Hdup Hret); congruence|].
  rewrite Heq. simpl.
  pose proof (registered_in_consistent p l (entity_id, entity) k Hc Hp Hr Hl)
    as Hc1.
  rewrite unregister_keyed by apply (phases_have_lists _ Hc1).
  f_equal. unfold unregistered, registered_in. simpl.
  assert (Kernel.without entity (Kernel._entities k ++ [(entity_id, entity)]) =
          Kernel._entities k) as ->.
  { unfold Kernel.without. rewrite filter_app, filter_cons. simpl.
    rewrite decide_False by (by intros ?). rewrite filter_nil, app_nil_r.
    by apply without_absent. }
  assert (swept entity (Kernel._phases k)
            (<[p := l ++ [(entity_id, entity)]]> (Kernel._phase_registrations k)) =
          Kernel._phase_registrations k) as ->.
  { apply map_eq. intros q. rewrite swept_lookup.
    destruct (decide (q = p)) as [->|Hne].
    - rewrite decide_True by done. rewrite lookup_insert_eq, Hl. simpl.
      f_equal. unfold Kernel.without. rewrite filter_app, filter_cons. simpl.
      rewrite decide_False by (by intros ?). rewrite filter_nil, app_nil_r.
      apply without_absent, (Hlists p l Hp Hl).
    - rewrite lookup_insert_ne by done. case_decide as Hq; [|done].
      destruct (Kernel._phase_registrations k !! q) as [lq|] eqn:Hlq; [|done].
      simpl. by rewrite (without_absent _ _ (Hlists q lq Hq Hlq)). }
  by destruct k.
Qed.

Lemma unregister_phases_unkeyed (entity : handle) (ps1 ps2 : list string)
    (p : string) (k : Kernel.t) :
  (∀ q, q ∈ ps1 → is_Some (Kernel._phase_registrations k !! q)) →
  Kernel._phase_registrations k !! p = None →
  Kernel.unregister_phases entity (ps1 ++ p :: ps2) k =
    mkOutcome
      (Kernel.set_phase_registrations
         (swept entity ps1 (Kernel._phase_registrations k)) k)
      (inl (KeyError p)).
Proof.
  revert k. induction ps1 as [|q ps1 IH]; intros k Hkeys Hp.
  - simpl. unfold bind, get, raise. simpl. rewrite Hp. by destruct k.
  - destruct (Hkeys q) as [l Hl]; [left|].
    assert (q ≠ p) as Hne by (intros ->; congruence).
    cbn [app Kernel.unregister_phases]. unfold bind, get, modify. simpl.
    rewrite Hl. simpl. rewrite IH.
    + reflexivity.
    + intros r Hr. simpl. destruct (decide (r = q)) as [->|Hrq].
      * rewrite lookup_insert_eq. eauto.
      * rewrite lookup_insert_ne by done. apply Hkeys. by right.
    + simpl. by rewrite lookup_insert_ne.
Qed.

(** X13. When a declared phase has no member list, [unregister] raises
    [KeyError] for the first such phase after it has removed the entity from
    the global list and from the phases before that one; the lists of the
    phases after it are not cleaned. *)
Theorem unregister_half_done_without_list (entity : handle)
    (ps1 ps2 : list string) (p : string) (k : Kernel.t) :
  Kernel._phases k = ps1 ++ p :: ps2 →
  (∀ q, q ∈ ps1 → is_Some (Kernel._phase_registrations k !! q)) →
  Kernel._phase_registrations k !! p = None →
  let o := Kernel.unregister entity k in
  raised o = Some (KeyError p) ∧
  Kernel._entities (final o) = Kernel.without entity (Kernel._entities k) ∧
  ∀ q, Kernel._phase_registrations (final o) !! q =
         if decide (q ∈ ps1)
         then Kernel.without entity <$> Kernel._phase_registrations k !! q
         else Kernel._phase_registrations k !! q.
Proof.
  intros Hps Hkeys Hp o. subst o.
  unfold Kernel.unregister, bind, get, modify. simpl. rewrite Hps.
  rewrite unregister_phases_unkeyed by done. simpl.
  split; [done|]. split; [done|]. intros q. apply swept_lookup.
Qed.
End Unregister.

(** ** [snapshot] and [restore] on one kernel *)

Section Rollback.
Context `{PyRandom} `{HashLib} `{!Pickle KernelState}.

Lemma stored_all_same_seeds (d d' : gmap string RNGStream.t) :
  (∀ name, RNGStream._seed <$> d' !! name = RNGStream._seed <$> d !! name) →
  stored_all (stream_tokens d) d' = d.
Proof.
  intros Hseeds. apply map_eq. intros name. rewrite stored_all_tokens.
  specialize (Hseeds name).
  destruct (d !! name) as [[seed r]|], (d' !! name) as [[seed' r']|];
    simpl in *; congruence.
Qed.

Lemma restore_snapshot_outcome (k later : Kernel.t) :
  Kernel.restore (pickle_dumps (snapshot_state k)) later =
    mkOutcome
      (restored (Kernel.time k) (Some (Kernel._phases k))
         (RNGManager.master (Kernel._rng_manager k))
         (stream_tokens (RNGManager._streams (Kernel._rng_manager k))) later)
      (inr tt).
Proof.
  exact (restore_accepted _ later (snapshot_state k) (Kernel.time k)
           (mkRngState
              (Some (rng_getstate (RNGManager.master (Kernel._rng_manager k))))
              (Some (stream_tokens (RNGManager._streams (Kernel._rng_manager k)))))
           (rng_getstate (RNGManager.master (Kernel._rng_manager k)))
           (RNGManager.master (Kernel._rng_manager k))
           (pickle_loads_dumps _) eq_refl eq_refl eq_refl
           (rng_setstate_getstate _) (stream_tokens_accepted _)).
Qed.

Lemma restore_snapshot_same (k later : Kernel.t) :
  Kernel._entities later = Kernel._entities k →
  Kernel._phase_registrations later = Kernel._phase_registrations k →
  RNGManager.master_seed (Kernel._rng_manager later) =
    RNGManager.master_seed (Kernel._rng_manager k) →
  (∀ name,
     RNGStream._seed <$> RNGManager._streams (Kernel._rng_manager later) !! name =
     RNGStream._seed <$> RNGManager._streams (Kernel._rng_manager k) !! name) →
  Kernel.restore (pickle_dumps (snapshot_state k)) later = mkOutcome k (inr tt).
Proof.
  intros Hents Hregs Hms Hseeds. rewrite restore_snapshot_outcome. f_equal.
  unfold restored. rewrite Hents, Hregs, Hms, stored_all_same_seeds by done.
  simpl. destruct k as [tm [ms m d] ents ps regs]. done.
Qed.

(** X14. [snapshot] changes nothing and always returns a blob, and
    [restore] of that blob into the kernel it was taken from is the
    identity. *)
Theorem snapshot_restore_identity (k : Kernel.t) :
  ∃ b, Kernel.snapshot k = mkOutcome k (inr b) ∧
       Kernel.restore b k = mkOutcome k (inr tt).
Proof.
  exists (pickle_dumps (snapshot_state k)). split; [apply snapshot_outcome|].
  by apply restore_snapshot_same.
Qed.

(** X15. Going back: the snapshot of a kernel restored into a later state
    of it that has derived no stream since brings back the time, the phase
    list and the position of the master and of every stream, so every stream
    yields again the values it yielded after the snapshot; the registry of
    the later state stays. If the later state differs from the first in time
    and positions only, the restored kernel is the first one exactly. *)
Theorem restore_goes_back (k later : Kernel.t) (b : blob) :
  result (Kernel.snapshot k) = inr b →
  dom (RNGManager._streams (Kernel._rng_manager later)) ⊆
    dom (RNGManager._streams (Kernel._rng_manager k)) →
  let o := Kernel.restore b later in
  returned o ∧
  Kernel.time (final o) = Kernel.time k ∧
  Kernel._phases (final o) = Kernel._phases k ∧
  positions (Kernel._rng_manager (final o)) = positions (Kernel._rng_manager k) ∧
  Kernel._entities (final o) = Kernel._entities later ∧
  Kernel._phase_registrations (final o) = Kernel._phase_registrations later ∧
  (∀ name n, stream_values name n (final o) = stream_values name n k) ∧
  (Kernel._entities later = Kernel._entities k →
   Kernel._phase_registrations later = Kernel._phase_registrations k →
   RNGManager.master_seed (Kernel._rng_manager later) =
     RNGManager.master_seed (Kernel._rng_manager k) →
   (∀ name,
      RNGStream._seed <$> RNGManager._streams (Kernel._rng_manager later) !! name =
      RNGStream._seed <$> RNGManager._streams (Kernel._rng_manager k) !! name) →
   final o = k).
Proof.
  intros Hb Hdom o. subst o.
  rewrite snapshot_outcome in Hb. simpl in Hb. injection Hb as <-.
  assert (positions
            (Kernel._rng_manager
               (final (Kernel.restore (pickle_dumps (snapshot_state k)) later))) =
          positions (Kernel._rng_manager k)) as Hpos.
  { rewrite restore_snapshot_outcome. unfold positions. simpl.
    by rewrite stored_all_positions. }
  split; [by rewrite restore_snapshot_outcome|].
  split; [by rewrite restore_snapshot_outcome|].
  split; [by rewrite restore_snapshot_outcome|].
  split; [done|].
  split; [by rewrite restore_snapshot_outcome|].
  split; [by rewrite restore_snapshot_outcome|].
  split; [intros name n; by apply stream_values_positions|].
  intros Hents Hregs Hms Hseeds.
  by rewrite restore_snapshot_same.
Qed.
End Rollback.

(** ** [CounterAgent.act] *)

Section MoreAgents.
Context `{PyRandom} `{HashLib} `{!Pickle KernelState}.

Lemma on_stream_master {A} (b : string) (c : M RNGStream.t A)
    (m : RNGManager.t) :
  RNGManager.master (final (RNGManager.on_stream b c m)) = RNGManager.master m.
Proof.
  unfold RNGManager.on_stream. unfold_m.
  by destruct (RNGManager._streams m !! b).
Qed.

Lemma drawn_outcome (agent_id : string) (k : Kernel.t) :
  is_Some (RNGManager._streams (Kernel._rng_manager k) !! agent_id) ∨
    encodable agent_id →
  drawn agent_id k =
    let m1 := final (RNGManager.get_stream agent_id (Kernel._rng_manager k)) in
    let o := RNGManager.on_stream agent_id RNGStream.random m1 in
    mkOutcome (Kernel.set_rng_manager (final o) k) (result o).
Proof.
  intros Hcan. unfold drawn, Kernel.get_rng, Agent.stream_random. unfold_m.
  rewrite get_stream_result by done. simpl. by destruct k.
Qed.

Lemma drawn_unencodable (agent_id : string) (k : Kernel.t) (e : Exn) :
  RNGManager._streams (Kernel._rng_manager k) !! agent_id = None →
  sha256_int agent_id = inl e →
  drawn agent_id k =
    mkOutcome
      (Kernel.set_rng_manager
         (RNGManager.set_master
            (rng_getrandbits 64 (RNGManager.master (Kernel._rng_manager k))).2
            (Kernel._rng_manager k))
         k)
      (inl e).
Proof.
  intros Hs He. unfold drawn, Kernel.get_rng. unfold_m.
  by rewrite (get_stream_unencodable agent_id _ e).
Qed.

Lemma drawn_streams (agent_id name : string) (k : Kernel.t) :
  name ≠ agent_id →
  RNGManager._streams (Kernel._rng_manager (final (drawn agent_id k))) !! name =
    RNGManager._streams (Kernel._rng_manager k) !! name.
Proof.
  intros Hne. unfold drawn, Kernel.get_rng, Agent.stream_random. unfold_m.
  pose proof (get_stream_other name agent_id (Kernel._rng_manager k) Hne) as Hg.
  pose proof (get_stream_result_cases agent_id (Kernel._rng_manager k)) as Hr.
  destruct (result (RNGManager.get_stream agent_id (Kernel._rng_manager k)))
    as [e|stream]; simpl; [done|].
  assert (stream = agent_id) as ->.
  { destruct (RNGManager._streams (Kernel._rng_manager k) !! agent_id),
      (sha256_int agent_id); congruence. }
  destruct (on_stream_other name agent_id RNGStream.random
              (final (RNGManager.get_stream agent_id (Kernel._rng_manager k)))
              Hne) as [-> _].
  done.
Qed.

Lemma drawn_master (agent_id : string) (k : Kernel.t) :
  is_Some (RNGManager._streams (Kernel._rng_manager k) !! agent_id) →
  RNGManager.master (Kernel._rng_manager (final (drawn agent_id k))) =
    RNGManager.master (Kernel._rng_manager k).
Proof.
  intros Hin. rewrite drawn_outcome by by left. simpl.
  rewrite on_stream_master, get_stream_final. by destruct Hin as [s ->].
Qed.

(** X16. One [act] of a [CounterAgent] looks up the stream named by its
    id, deriving it from the master generator if it is not there yet, draws
    one value from it and adds the value to its counter. It returns when the
    stream is there or UTF-8 can encode the id; otherwise it raises the
    encoder's error with the counter as it was and the master one draw
    further. Either way it changes no other agent object and no other
    stream, nor the time or the registry, and it leaves the master alone
    when the stream was there. *)
Theorem counter_act_frame (self : handle) (k : Kernel.t) (objs : Agent.Objs)
    (agent_id : string) (counter : float) :
  objs !! self = Some (Agent.CounterAgent agent_id counter) →
  let o := Agent.act self (k, objs) in
  let before := Kernel._rng_manager k in
  let after := Kernel._rng_manager (final o).1 in
  (is_Some (RNGManager._streams before !! agent_id) ∨ encodable agent_id →
   ∃ v,
     result (drawn agent_id k) = inr v ∧
     o = mkOutcome
           (final (drawn agent_id k),
            <[self := Agent.CounterAgent agent_id (counter + v)]> objs)
           (inr tt)) ∧
  (∀ e, RNGManager._streams before !! agent_id = None →
     sha256_int agent_id = inl e →
     o = mkOutcome
           (Kernel.set_rng_manager
              (RNGManager.set_master
                 (rng_getrandbits 64 (RNGManager.master before)).2 before) k,
            objs)
           (inl e)) ∧
  (∀ other, other ≠ self → (final o).2 !! other = objs !! other) ∧
  (∀ name, name ≠ agent_id →
     RNGManager._streams after !! name = RNGManager._streams before !! name) ∧
  (is_Some (RNGManager._streams before !! agent_id) →
   RNGManager.master after = RNGManager.master before) ∧
  Kernel.time (final o).1 = Kernel.time k ∧
  Kernel.registry (final o).1 = Kernel.registry k.
Proof.
  intros Hl o before after. subst o before after.
  rewrite (act_counter _ _ _ agent_id counter Hl).
  destruct (drawn_frame agent_id k) as (Hreg & Htm).
  split.
  { intros Hcan. pose proof (drawn_returns agent_id k Hcan) as Hret.
    unfold returned, raised in Hret.
    destruct (result (drawn agent_id k)) as [e|v]; [done|]. by exists v. }
  split.
  { intros e Hs He. by rewrite (drawn_unencodable agent_id k e). }
  pose proof (drawn_streams agent_id) as Hstreams.
  pose proof (drawn_master agent_id k) as Hmaster.
  destruct (result (drawn agent_id k)) as [e|v]; cbn [final fst snd].
  - split; [done|]. split; [intros name Hne; by apply Hstreams|]. done.
  - split; [intros other Hne; by rewrite lookup_insert_ne|].
    split; [intros name Hne; by apply Hstreams|]. done.
Qed.
End MoreAgents.

(** ** agent.py: lifecycle hooks and agent snapshots *)

Module AgentObj.

(** The dict that [snapshot] returns and [restore] reads; an absent key is
    [None]. *)
Record State : Type := mkState {
  agent_id : option string;
  counter : option float
}.

(** [self.agent_id] *)
Definition attr_agent_id (o : Agent.Obj) : string :=
  match o with
  | Agent.BaseAgent i => i
  | Agent.CounterAgent i _ => i
  end.

(** [on_start] and [observe] are [pass]. *)
Definition on_start (self : handle) : M Agent.Objs unit :=
  objs <~ get ;;
  match objs !! self with
  | None => raise (AttributeError "on_start")
  | Some _ => ret tt
  end.

Definition observe (self : handle) : M Agent.Objs unit :=
  objs <~ get ;;
  match objs !! self with
  | None => raise (AttributeError "observe")
  | Some _ => ret tt
  end.

Definition snapshot (self : handle) : M Agent.Objs State :=
  objs <~ get ;;
  match objs !! self with
  | None => raise (AttributeError "snapshot")
  | Some (Agent.BaseAgent i) => ret (mkState (Some i) None)
  | Some (Agent.CounterAgent i c) => ret (mkState (Some i) (Some c))
  end.

(** [BaseAgent.restore], and [CounterAgent.restore], which calls it and
    then reads the counter, [0.0] if the key is absent. *)
Definition restored (data : State) (o : Agent.Obj) : Agent.Obj :=
  match o with
  | Agent.BaseAgent i => Agent.BaseAgent (default i (agent_id data))
  | Agent.CounterAgent i c =>
      Agent.CounterAgent (default i (agent_id data))
        (default 0%float (counter data))
  end.

Definition restore (self : handle) (data : State) : M Agent.Objs unit :=
  objs <~ get ;;
  match objs !! self with
  | None => raise (AttributeError "restore")
  | Some o => modify (λ objs, <[self := restored data o]> objs)
  end.
End AgentObj.

(** ** snapshot.py *)

Module Snapshot.
Section Snapshot.
Context `{PyRandom} `{!Pickle KernelState}.

Record t : Type := mk {
  kernel_blob : blob;
  agent_states : gmap string AgentObj.State
}.
End Snapshot.
End Snapshot.

(** ** runner.py: class Experiment *)

Module Experiment.
Section Experiment.
Context `{PyRandom} `{HashLib} `{!Pickle KernelState}.

(** [world] holds [self.kernel] and the agent objects it calls into;
    [agents] is [self.agents]. [self.logger] is always [None]. *)
Record t : Type := mk {
  world : Kernel.World (E := Agent.Objs);
  agents : list handle
}.

Definition set_world (w : Kernel.World (E := Agent.Objs)) (x : t) : t :=
  mk w (agents x).
Definition set_env (objs : Agent.Objs) (w : Kernel.World (E := Agent.Objs)) :
    Kernel.World (E := Agent.Objs) :=
  Kernel.mkWorld (Kernel.kernel w) objs (Kernel.invoked w).

Definition on_kernel {A} (c : M Kernel.t A) : M t A :=
  zoom world set_world (Kernel.on_kernel c).
Definition on_agents {A} (c : M Agent.Objs A) : M t A :=
  zoom world set_world (zoom Kernel.env set_env c).

Definition init (seed : Z) (phases : option (list string))
    (objs : Agent.Objs) : t :=
  mk (Kernel.mkWorld (Kernel.init seed phases) objs []) [].

Definition add_agent (agent : handle) (phase : option string) : M t unit :=
  modify (λ x, mk (world x) (agents x ++ [agent])) ;;;
  x <~ get ;;
  match Kernel.env (world x) !! agent with
  | None => raise (AttributeError "agent_id")
  | Some o => on_kernel (Kernel.register (AgentObj.attr_agent_id o) agent phase)
  end.

Fixpoint start_all (l : list handle) : M Agent.Objs unit :=
  match l with
  | [] => ret tt
  | a :: rest => AgentObj.on_start a ;;; start_all rest
  end.

(** [run(steps=10)] *)
Definition run (steps : option Z) : M t unit :=
  x <~ get ;;
  on_agents (start_all (agents x)) ;;;
  zoom world set_world (Kernel.run Agent.entity (default 10 steps)).

(** [{a.agent_id: a.snapshot() for a in self.agents}] *)
Fixpoint collect_states (l : list handle)
    (acc : gmap string AgentObj.State) :
    M Agent.Objs (gmap string AgentObj.State) :=
  match l with
  | [] => ret acc
  | a :: rest =>
      objs <~ get ;;
      match objs !! a with
      | None => raise (AttributeError "agent_id")
      | Some o =>
          st <~ AgentObj.snapshot a ;;
          collect_states rest (<[AgentObj.attr_agent_id o := st]> acc)
      end
  end.

Definition snapshot : M t Snapshot.t :=
  x <~ get ;;
  agent_states <~ on_agents (collect_states (agents x) ∅) ;;
  b <~ on_kernel Kernel.snapshot ;;
  ret (Snapshot.mk b agent_states).

(** [snapshot_obj.agent_states.get(a.agent_id, {})] for each agent. *)
Fixpoint restore_agents (states : gmap string AgentObj.State)
    (l : list handle) : M Agent.Objs unit :=
  match l with
  | [] => ret tt
  | a :: rest =>
      objs <~ get ;;
      match objs !! a with
      | None => raise (AttributeError "agent_id")
      | Some o =>
          AgentObj.restore a
            (default (AgentObj.mkState None None)
               (states !! AgentObj.attr_agent_id o)) ;;;
          restore_agents states rest
      end
  end.

Definition restore (snapshot_obj : Snapshot.t) : M t unit :=
  on_kernel (Kernel.restore (Snapshot.kernel_blob snapshot_obj)) ;;;
  x <~ get ;;
  on_agents (restore_agents (Snapshot.agent_states snapshot_obj) (agents x)).
End Experiment.
End Experiment.

(** ** network.py *)

Module Network.
Section Network.
(** The type of a topology, with the empty one that [topology or {}] falls
    back to, and the type of a payload. *)
Context {Topology Payload : Type} (no_topology : Topology).

Record Message : Type := mkMessage {
  src : string;
  dst : string;
  payload : Payload
}.

Record t : Type := mk {
  topology : Topology;
  messages : list Message
}.

Definition init (topology : option Topology) : t :=
  mk (default no_topology topology) [].

Definition send (src dst : string) (payload : Payload) : M t unit :=
  modify (λ n, mk (topology n) (messages n ++ [mkMessage src dst payload])).

Definition drain : M t (list Message) :=
  n <~ get ;;
  let msgs := messages n in
  modify (λ n, mk (topology n) []) ;;;
  ret msgs.

Fixpoint send_all (ms : list Message) : M t unit :=
  match ms with
  | [] => ret tt
  | m :: rest => send (src m) (dst m) (payload m) ;;; send_all rest
  end.
End Network.
End Network.

(** ** Properties of the network stub *)

Section NetworkProperties.
Context {Topology Payload : Type}.

Lemma send_all_outcome (ms : list (Network.Message (Payload := Payload)))
    (n : Network.t (Topology := Topology)) :
  Network.send_all ms n =
    mkOutcome (Network.mk (Network.topology n) (Network.messages n ++ ms))
      (inr tt).
Proof.
  revert n. induction ms as [|m ms IH]; intros n.
  - simpl. unfold ret. rewrite app_nil_r. by destruct n.
  - cbn [Network.send_all]. unfold bind, Network.send, modify. simpl.
    rewrite IH. simpl. rewrite <- app_assoc. by destruct m.
Qed.

(** X17. The network is a queue: [drain] returns every message sent since
    the last drain, oldest first, after those that were waiting, and leaves
    the queue empty, so that a second [drain] returns nothing; the topology
    is never touched. *)
Theorem drain_returns_all_in_order
    (ms : list (Network.Message (Payload := Payload)))
    (n : Network.t (Topology := Topology)) :
  let sent := final (Network.send_all ms n) in
  let emptied := Network.mk (Network.topology n) [] in
  returned (Network.send_all ms n) ∧
  Network.drain sent = mkOutcome emptied (inr (Network.messages n ++ ms)) ∧
  Network.drain (final (Network.drain sent)) = mkOutcome emptied (inr []).
Proof. simpl. by rewrite send_all_outcome. Qed.
End NetworkProperties.

(** ** Properties of the experiment runner *)

Section ExperimentProperties.
Context `{PyRandom} `{HashLib} `{!Pickle KernelState}.

Local Abbreviation env x := (Kernel.env (Experiment.world x)).
Local Abbreviation kernel x := (Kernel.kernel (Experiment.world x)).

(** [a.snapshot()] as a function of the object. *)
Definition state_of (o : Agent.Obj) : AgentObj.State :=
  match o with
  | Agent.BaseAgent i => AgentObj.mkState (Some i) None
  | Agent.CounterAgent i c => AgentObj.mkState (Some i) (Some c)
  end.

(** The class and the id of an object. *)
Definition shape (o : Agent.Obj) : bool * string :=
  match o with
  | Agent.BaseAgent i => (false, i)
  | Agent.CounterAgent i _ => (true, i)
  end.

Definition ids_of (objs : Agent.Objs) (l : list handle) : list (option string) :=
  (λ a, AgentObj.attr_agent_id <$> objs !! a) <$> l.

Definition states_of (objs : Agent.Objs) (l : list handle)
    (acc : gmap string AgentObj.State) : gmap string AgentObj.State :=
  foldl (λ acc a, match objs !! a with
                  | Some o => <[AgentObj.attr_agent_id o := state_of o]> acc
                  | None => acc
                  end) acc l.

(** What [restore] makes of an object, given the states of a snapshot. *)
Definition restored_from (states : gmap string AgentObj.State)
    (o : Agent.Obj) : Agent.Obj :=
  AgentObj.restored
    (default (AgentObj.mkState None None) (states !! AgentObj.attr_agent_id o)) o.

Definition restored_all (states : gmap string AgentObj.State)
    (l : list handle) (objs : Agent.Objs) : Agent.Objs :=
  foldl (λ objs a, match objs !! a with
                   | Some o => <[a := restored_from states o]> objs
                   | None => objs
                   end) objs l.

Lemma start_all_live (l : list handle) (objs : Agent.Objs) :
  Forall (λ a, is_Some (objs !! a)) l →
  Experiment.start_all l objs = mkOutcome objs (inr tt).
Proof.
  induction 1 as [|a l [o Ho] _ IH]; [done|].
  cbn [Experiment.start_all]. unfold AgentObj.on_start, bind, get.
  cbn [final result]. rewrite Ho. apply IH.
Qed.

Lemma collect_states_outcome (l : list handle) (objs : Agent.Objs)
    (acc : gmap string AgentObj.State) :
  Forall (λ a, is_Some (objs !! a)) l →
  Experiment.collect_states l acc objs =
    mkOutcome objs (inr (states_of objs l acc)).
Proof.
  intros Hlive. revert acc. induction Hlive as [|a l [o Ho] _ IH]; intros acc.
  - done.
  - cbn [Experiment.collect_states]. unfold AgentObj.snapshot, bind, get.
    cbn [final result]. rewrite Ho. unfold states_of. cbn [foldl].
    rewrite Ho. destruct o; cbn [final result ret]; apply IH.
Qed.

Lemma restore_agents_outcome (states : gmap string AgentObj.State)
    (l : list handle) (objs : Agent.Objs) :
  Forall (λ a, is_Some (objs !! a)) l →
  Experiment.restore_agents states l objs =
    mkOutcome (restored_all states l objs) (inr tt).
Proof.
  revert objs. induction l as [|a l IH]; intros objs Hlive; [done|].
  apply Forall_cons in Hlive as [[o Ho] Hlive].
  cbn [Experiment.restore_agents]. unfold AgentObj.restore, bind, get, modify.
  cbn [final result]. rewrite Ho. cbn [final result].
  unfold restored_all. cbn [foldl]. rewrite Ho.
  apply IH. eapply Forall_impl; [exact Hlive|]. intros b [ob Hb]. simpl.
  destruct (decide (b = a)) as [->|Hne].
  - rewrite lookup_insert_eq. eauto.
  - rewrite lookup_insert_ne by done. eauto.
Qed.

Lemma restored_all_lookup (states : gmap string AgentObj.State)
    (l : list handle) (objs : Agent.Objs) (a : handle) :
  NoDup l →
  restored_all states l objs !! a =
    if decide (a ∈ l) then restored_from states <$> objs !! a else objs !! a.
Proof.
  unfold restored_all. intros Hnd. revert objs.
  induction Hnd as [|b l Hfresh Hnd IH]; intros objs; cbn [foldl].
  - destruct (decide (a ∈ [])) as [Hin|_]; [by apply elem_of_nil in Hin|done].
  - rewrite IH. destruct (decide (a = b)) as [->|Hne].
    + rewrite (decide_False (P := b ∈ l)) by done.
      rewrite (decide_True (P := b ∈ b :: l)) by by left.
      destruct (objs !! b) as [o|] eqn:Ho; [|by rewrite Ho].
      by rewrite lookup_insert_eq.
    + assert (match objs !! b with
              | Some o => <[b := restored_from states o]> objs
              | None => objs
              end !! a = objs !! a) as ->.
      { destruct (objs !! b); [|done]. by rewrite lookup_insert_ne. }
      destruct (decide (a ∈ l)) as [Hin|Hnot].
      * by rewrite (decide_True (P := a ∈ b :: l)) by by right.
      * rewrite (decide_False (P := a ∈ b :: l)); [done|].
        by intros [?|?]%elem_of_cons.
Qed.

Lemma states_of_lookup (objs : Agent.Objs) (l : list handle)
    (acc : gmap string AgentObj.State) (o : Agent.Obj) :
  (∀ b ob, b ∈ l → objs !! b = Some ob →
     AgentObj.attr_agent_id ob = AgentObj.attr_agent_id o → ob = o) →
  (∃ a, a ∈ l ∧ objs !! a = Some o) ∨
    acc !! AgentObj.attr_agent_id o = Some (state_of o) →
  states_of objs l acc !! AgentObj.attr_agent_id o = Some (state_of o).
Proof.
  unfold states_of. revert acc.
  induction l as [|b l IH]; intros acc Hinj Hcase; cbn [foldl].
  - destruct Hcase as [(a & Hin & _)|Hacc]; [by apply elem_of_nil in Hin|done].
  - apply IH; [intros c oc Hc; apply Hinj; by right|].
    destruct Hcase as [(a & Hin & Ha)|Hacc].
    + apply elem_of_cons in Hin as [->|Hin]; [|left; by exists a].
      right. rewrite Ha. apply lookup_insert_eq.
    + right. destruct (objs !! b) as [ob|] eqn:Hb; [|done].
      destruct (decide (AgentObj.attr_agent_id ob = AgentObj.attr_agent_id o))
        as [Heq|Hne].
      * rewrite (Hinj b ob) by (done || by left). apply lookup_insert_eq.
      * by rewrite lookup_insert_ne.
Qed.

Lemma ids_injective (objs : Agent.Objs) (l : list handle) (a b : handle) :
  NoDup (ids_of objs l) → a ∈ l → b ∈ l →
  AgentObj.attr_agent_id <$> objs !! a = AgentObj.attr_agent_id <$> objs !! b →
  a = b.
Proof.
  unfold ids_of. intros Hnd Ha Hb Heq.
  induction l as [|c l IH]; [by apply elem_of_nil in Ha|].
  rewrite fmap_cons in Hnd. apply NoDup_cons in Hnd as [Hfresh Hnd].
  apply elem_of_cons in Ha as [->|Ha], Hb as [->|Hb]; [done| | |by apply IH].
  - destruct Hfresh. rewrite Heq. apply list_elem_of_fmap. by exists b.
  - destruct Hfresh. rewrite <- Heq. apply list_elem_of_fmap. by exists a.
Qed.

Lemma restored_own_state (o : Agent.Obj) :
  AgentObj.restored (state_of o) o = o.
Proof. by destruct o. Qed.

Lemma restored_same_shape (o o' : Agent.Obj) :
  shape o' = shape o → AgentObj.restored (state_of o) o' = o.
Proof. destruct o, o'; simpl; congruence. Qed.
Lemma snapshot_experiment_outcome (x : Experiment.t) :
  Forall (λ a, is_Some (env x !! a)) (Experiment.agents x) →
  Experiment.snapshot x =
    mkOutcome x
      (inr (Snapshot.mk (pickle_dumps (snapshot_state (kernel x)))
              (states_of (env x) (Experiment.agents x) ∅))).
Proof.
  intros Hlive.
  unfold Experiment.snapshot, Experiment.on_agents, Experiment.on_kernel,
    Kernel.on_kernel, zoom, bind, get.
  cbn [final result]. rewrite collect_states_outcome by done.
  cbn [final result Experiment.world Experiment.set_world Experiment.set_env
       Kernel.kernel].
  rewrite snapshot_outcome. cbn [final result].
  by destruct x as [[k objs log] l].
Qed.

Lemma restore_experiment_outcome (s : Snapshot.t) (x : Experiment.t)
    (k' : Kernel.t) :
  Kernel.restore (Snapshot.kernel_blob s) (kernel x) = mkOutcome k' (inr tt) →
  Forall (λ a, is_Some (env x !! a)) (Experiment.agents x) →
  Experiment.restore s x =
    mkOutcome
      (Experiment.mk
         (Kernel.mkWorld k'
            (restored_all (Snapshot.agent_states s) (Experiment.agents x) (env x))
            (Kernel.invoked (Experiment.world x)))
         (Experiment.agents x))
      (inr tt).
Proof.
  intros Hk Hlive.
  unfold Experiment.restore, Experiment.on_agents, Experiment.on_kernel,
    Kernel.on_kernel, zoom, bind, get.
  cbn [final result]. rewrite Hk.
  cbn [final result Experiment.world Experiment.set_world Experiment.agents
       Kernel.set_kernel Kernel.env].
  by rewrite restore_agents_outcome.
Qed.

(** X18. [add_agent] puts the agent on the list of the experiment before it
    registers it with the kernel under its [agent_id]: the list grows by the
    agent however [register] ends. With an undeclared phase the call raises
    and the agent is on the list though the kernel does not know it; for an
    agent the kernel already has, the call returns, the kernel is as before
    and the list has one more entry for it. *)
Theorem add_agent_lists_before_registering (x : Experiment.t) (agent : handle)
    (phase : option string) (o : Agent.Obj) :
  env x !! agent = Some o →
  let r := Experiment.add_agent agent phase x in
  let reg := Kernel.register (AgentObj.attr_agent_id o) agent phase (kernel x) in
  Experiment.agents (final r) = Experiment.agents x ++ [agent] ∧
  result r = result reg ∧
  kernel (final r) = final reg ∧
  env (final r) = env x ∧
  (∀ p, phase = Some p → p ∉ Kernel._phases (kernel x) →
     raised r = Some (ValueError ("Unknown phase: " +:+ p)) ∧
     kernel (final r) = kernel x) ∧
  (Kernel.is_registered agent (kernel x) = true → returned reg →
   returned r ∧ kernel (final r) = kernel x).
Proof.
  intros Ho r reg. subst r reg.
  unfold Experiment.add_agent, Experiment.on_kernel, Kernel.on_kernel, zoom,
    bind, get, modify.
  cbn [final result Experiment.world Experiment.agents]. rewrite Ho.
  cbn [final result Experiment.world Experiment.set_world Experiment.agents
       Kernel.set_kernel Kernel.kernel Kernel.env].
  split; [done|]. split; [done|]. split; [done|]. split; [done|]. split.
  - intros p -> Hp. by rewrite register_unknown.
  - intros Hr Hret.
    pose proof (register_checks_helper (AgentObj.attr_agent_id o) agent phase
                  (kernel x) Hr Hret) as Heq.
    unfold returned, raised in *. by rewrite Heq.
Qed.

(** X19. [run] over counter agents: with every scheduled entity a
    [CounterAgent] whose id UTF-8 can encode, every declared phase keyed and
    every listed agent alive, [run] returns after as many ticks as asked
    ([10] when the argument is left out, none when it is negative). The
    kernel and the agent objects are then what that many rounds leave, a
    round being the [act] of each entry of the schedule in its order and
    then one more on the time; the calls made are the schedule once per
    tick, and the list of agents and the registry are as before. *)
Theorem experiment_run_counters (x : Experiment.t) (steps : option Z) :
  counters_only (Kernel.heap (Experiment.world x)) →
  phases_keyed (kernel x) →
  Forall (λ a, is_Some (env x !! a)) (Experiment.agents x) →
  let n := Z.to_nat (default 10 steps) in
  let o := Experiment.run steps x in
  let round :=
    tick_of (map (λ c : Kernel.Call, Agent.act c.2) (Kernel.schedule (kernel x))) in
  returned o ∧
  in_sequence (replicate n round) (Kernel.heap (Experiment.world x)) =
    mkOutcome (Kernel.heap (Experiment.world (final o))) (inr tt) ∧
  Experiment.agents (final o) = Experiment.agents x ∧
  Kernel.registry (kernel (final o)) = Kernel.registry (kernel x) ∧
  Kernel.time (kernel (final o)) = Kernel.time (kernel x) + Z.of_nat n ∧
  Kernel.invoked (Experiment.world (final o)) =
    Kernel.invoked (Experiment.world x) ++
    concat (replicate n (Kernel.schedule (kernel x))).
Proof.
  intros Hinv Hkeys Hlive n o round. subst n o round.
  unfold Experiment.run, Experiment.on_agents, zoom, bind, get.
  cbn [final result]. rewrite start_all_live by done.
  destruct x as [[k objs log] l].
  cbn [final result Experiment.world Experiment.set_world Experiment.set_env
       Experiment.agents Kernel.kernel Kernel.env Kernel.invoked] in *.
  unfold Kernel.run.
  destruct (repeat_step_quiet Agent.entity counters_only
              (Z.to_nat (default 10 steps)) (Kernel.mkWorld k objs log)
              counter_agents_quiet counter_agents_timeless Hinv Hkeys)
    as (Hret & Hreg & Htm & Hlog).
  pose proof (repeat_step_calm Agent.entity counters_only
                (Z.to_nat (default 10 steps)) _ (Kernel.mkWorld k objs log)
                counter_agents_calm counter_agents_timeless Hinv Hkeys
                (agent_hooks (Kernel.schedule k))) as Hheap.
  done.
Qed.

Lemma restored_all_back (objs objs' : Agent.Objs) (l : list handle)
    (a : handle) :
  Forall (λ a, is_Some (objs !! a)) l →
  NoDup (ids_of objs l) →
  (∀ a, a ∈ l → shape <$> objs' !! a = shape <$> objs !! a) →
  restored_all (states_of objs l ∅) l objs' !! a =
    if decide (a ∈ l) then objs !! a else objs' !! a.
Proof.
  intros Hlive Hids Hshape.
  rewrite restored_all_lookup by (eapply NoDup_fmap_1; exact Hids).
  destruct (decide (a ∈ l)) as [Hin|]; [|done].
  rewrite Forall_forall in Hlive. destruct (Hlive a Hin) as [o Ho].
  specialize (Hshape a Hin). rewrite Ho in Hshape |- *.
  destruct (objs' !! a) as [o'|]; [|done]. simpl in *.
  injection Hshape as Hshape. f_equal. unfold restored_from.
  assert (AgentObj.attr_agent_id o' = AgentObj.attr_agent_id o) as ->.
  { destruct o, o'; simpl in *; congruence. }
  rewrite (states_of_lookup objs l ∅ o).
  - by apply restored_same_shape.
  - intros b ob Hb Hob Heq.
    assert (b = a) as ->; [|congruence].
    apply (ids_injective objs l); [done..|]. rewrite Hob, Ho. simpl. by rewrite Heq.
  - left. by exists a.
Qed.

(** X20. Going back with an experiment: let every listed agent be alive and
    no two of them share an id when the snapshot is taken, and let the later
    state list the same agents, each of the same class and id as then, with
    no stream derived since. Then [restore] returns; the time, the phases
    and the position of every generator are those of the snapshot; every
    listed agent object is what it was, counter included; objects that are
    not listed are left as they are. *)
Theorem experiment_restore_goes_back (x later : Experiment.t) (s : Snapshot.t) :
  Forall (λ a, is_Some (env x !! a)) (Experiment.agents x) →
  NoDup (ids_of (env x) (Experiment.agents x)) →
  result (Experiment.snapshot x) = inr s →
  Experiment.agents later = Experiment.agents x →
  (∀ a, a ∈ Experiment.agents x →
     shape <$> env later !! a = shape <$> env x !! a) →
  dom (RNGManager._streams (Kernel._rng_manager (kernel later))) ⊆
    dom (RNGManager._streams (Kernel._rng_manager (kernel x))) →
  let o := Experiment.restore s later in
  returned o ∧
  Experiment.agents (final o) = Experiment.agents x ∧
  Kernel.time (kernel (final o)) = Kernel.time (kernel x) ∧
  Kernel._phases (kernel (final o)) = Kernel._phases (kernel x) ∧
  positions (Kernel._rng_manager (kernel (final o))) =
    positions (Kernel._rng_manager (kernel x)) ∧
  (∀ a, a ∈ Experiment.agents x → env (final o) !! a = env x !! a) ∧
  (∀ a, a ∉ Experiment.agents x → env (final o) !! a = env later !! a).
Proof.
  intros Hlive Hids Hs Hagents Hshape Hdom o. subst o.
  rewrite snapshot_experiment_outcome in Hs by done.
  simpl in Hs. injection Hs as <-.
  assert (Forall (λ a, is_Some (env later !! a)) (Experiment.agents later))
    as Hlive'.
  { rewrite Hagents. rewrite Forall_forall in Hlive |- *. intros a Hin.
    destruct (Hlive a Hin) as [o Ho]. specialize (Hshape a Hin).
    rewrite Ho in Hshape. by destruct (env later !! a). }
  rewrite (restore_experiment_outcome
             (Snapshot.mk (pickle_dumps (snapshot_state (kernel x)))
                (states_of (env x) (Experiment.agents x) ∅))
             later _
             (restore_snapshot_outcome (kernel x) (kernel later)) Hlive').
  cbn [final result Experiment.world Experiment.agents Kernel.kernel
       Kernel.env Snapshot.agent_states].
  split; [done|]. split; [done|]. split; [done|]. split; [done|].
  split; [unfold positions; simpl; by rewrite stored_all_positions|].
  rewrite Hagents.
  split; intros a Hin; rewrite restored_all_back by done.
  - by rewrite decide_True.
  - by rewrite decide_False.
Qed.

(** X21. A snapshot of an experiment whose listed agents are alive and have
    distinct ids changes nothing, and restoring it at once is the
    identity. *)
Theorem experiment_snapshot_restore_identity (x : Experiment.t) :
  Forall (λ a, is_Some (env x !! a)) (Experiment.agents x) →
  NoDup (ids_of (env x) (Experiment.agents x)) →
  ∃ s, Experiment.snapshot x = mkOutcome x (inr s) ∧
       Experiment.restore s x = mkOutcome x (inr tt).
Proof.
  intros Hlive Hids. eexists. split; [by apply snapshot_experiment_outcome|].
  rewrite (restore_experiment_outcome
             (Snapshot.mk (pickle_dumps (snapshot_state (kernel x)))
                (states_of (env x) (Experiment.agents x) ∅))
             x (kernel x));
    [|by apply restore_snapshot_same|done].
  f_equal. cbn [Snapshot.agent_states].
  assert (restored_all (states_of (env x) (Experiment.agents x) ∅)
            (Experiment.agents x) (env x) = env x) as ->.
  { apply map_eq. intros a. rewrite restored_all_back by done.
    by destruct (decide (a ∈ Experiment.agents x)). }
  by destruct x as [[k objs log] l].
Qed.

(** X22. [restore] restores the kernel first and the agents after it. If the
    kernel raises, the agents are not touched. If it returns, every listed
    agent is reset from the entry of the snapshot under its id: an agent
    with no entry keeps its id, and a [CounterAgent] without entry, or with
    an entry without counter, gets the counter [0.0]; objects that are not
    listed are left as they are. *)
Theorem experiment_restore_cases (s : Snapshot.t) (x : Experiment.t) :
  Forall (λ a, is_Some (env x !! a)) (Experiment.agents x) →
  NoDup (Experiment.agents x) →
  let ko := Kernel.restore (Snapshot.kernel_blob s) (kernel x) in
  let o := Experiment.restore s x in
  kernel (final o) = final ko ∧
  Experiment.agents (final o) = Experiment.agents x ∧
  (∀ e, raised ko = Some e → raised o = Some e ∧ env (final o) = env x) ∧
  (returned ko →
   returned o ∧
   (∀ a, a ∉ Experiment.agents x → env (final o) !! a = env x !! a) ∧
   (∀ a ob, a ∈ Experiment.agents x → env x !! a = Some ob →
      env (final o) !! a = Some (restored_from (Snapshot.agent_states s) ob) ∧
      (Snapshot.agent_states s !! AgentObj.attr_agent_id ob = None →
       AgentObj.attr_agent_id (restored_from (Snapshot.agent_states s) ob) =
         AgentObj.attr_agent_id ob ∧
       ∀ i c, ob = Agent.CounterAgent i c →
         restored_from (Snapshot.agent_states s) ob =
           Agent.CounterAgent i 0%float))).
Proof.
  intros Hlive Hnd ko o. subst ko o.
  destruct (Kernel.restore (Snapshot.kernel_blob s) (kernel x))
    as [k' [e|[]]] eqn:Hk.
  - unfold Experiment.restore, Experiment.on_kernel, Kernel.on_kernel, zoom,
      bind. cbn [final result]. rewrite Hk.
    cbn [final result Experiment.world Experiment.set_world Experiment.agents
         Kernel.set_kernel Kernel.env Kernel.kernel].
    split; [done|]. split; [done|]. split; [|done].
    intros e' He'. unfold raised in *. simpl in *. done.
  - rewrite (restore_experiment_outcome s x k' Hk Hlive).
    cbn [final result Experiment.world Experiment.agents Kernel.kernel
         Kernel.env].
    split; [done|]. split; [done|]. split; [done|]. intros _.
    split; [done|]. split.
    + intros a Hin. rewrite restored_all_lookup by done.
      by rewrite decide_False.
    + intros a ob Hin Ha. rewrite restored_all_lookup by done.
      rewrite decide_True by done. rewrite Ha. split; [done|].
      intros Hnone. unfold restored_from. rewrite Hnone.
      split; [by destruct ob|]. by intros i c ->.
Qed.
End ExperimentProperties.

(** * The properties on concrete runs *)

Local Existing Instances Standin.lcg Standin.digest Standin.codec.

(** The kernel of [test_reproducible_runs_multi_agent]: seed 123 and the
    default phases. *)
Definition kernel0 : Kernel.t := Kernel.init 123 None.

Lemma default_phases_nodup : NoDup (Kernel._phases kernel0).
Proof. apply (bool_decide_unpack _). by vm_compute. Qed.

Lemma nonexistent_undeclared : "nonexistent" ∉ Kernel._phases kernel0.
Proof. apply (bool_decide_unpack _). by vm_compute. Qed.

Lemma register_unknown_phase_raises_witness :
  ("nonexistent" ∉ Kernel._phases kernel0) ∧
  (let o := Kernel.register "a0" 1%nat (Some "nonexistent") kernel0 in
   raised o = Some (ValueError "Unknown phase: nonexistent") ∧
   final o = kernel0 ∧
   (¬ in_registry 1%nat kernel0 → ¬ in_registry 1%nat (final o))).
Proof.
  split; [exact nonexistent_undeclared|].
  exact (register_unknown_phase_raises "a0" 1%nat "nonexistent" kernel0
           nonexistent_undeclared).
Defined.

(** [kernel0] after [register('a0', <object 1>)]. *)
Definition kernel1 : Kernel.t :=
  final (Kernel.register "a0" 1%nat None kernel0).

Lemma register_checks_phase_before_duplicate_witness :
  Kernel.is_registered 1%nat kernel1 = true ∧
  Kernel.register "a0" 1%nat (Some "nonexistent") kernel1 =
    mkOutcome kernel1 (inl (ValueError "Unknown phase: nonexistent")) ∧
  Kernel.register "other" 1%nat (Some "commit") kernel1 =
    mkOutcome kernel1 (inr tt) ∧
  Kernel.register "other" 1%nat None kernel1 = mkOutcome kernel1 (inr tt).
Proof.
  assert (Kernel.is_registered 1%nat kernel1 = true) as Hr by reflexivity.
  split; [exact Hr|]. split; [|split].
  - exact (register_checks_phase_before_duplicate "a0" 1%nat
             (Some "nonexistent") kernel1 Hr).
  - exact (register_checks_phase_before_duplicate "other" 1%nat
             (Some "commit") kernel1 Hr).
  - exact (register_checks_phase_before_duplicate "other" 1%nat None kernel1 Hr).
Defined.

(** A blob with a time and nothing else, as a foreign pickle might be. *)
Definition time_only_blob : blob :=
  pickle_dumps (mkKernelState (Some 7) None None).

(** C3 as stated fails: on a blob without the ['rng'] key [restore] raises
    [KeyError] after it has overwritten the time, so the kernel is not left
    in its prior state. *)
Lemma restore_partial_on_missing_rng :
  raised (Kernel.restore time_only_blob kernel0) = Some (KeyError "rng") ∧
  Kernel.time kernel0 = 0 ∧
  Kernel.time (final (Kernel.restore time_only_blob kernel0)) = 7 ∧
  final (Kernel.restore time_only_blob kernel0) ≠ kernel0.
Proof.
  split; [reflexivity|]. split; [reflexivity|]. split; [reflexivity|].
  intros Heq. apply (f_equal Kernel.time) in Heq. discriminate Heq.
Qed.

(** The str ['\udc80'], a lone surrogate. *)
Definition lone_surrogate : string :=
  String (Ascii.ascii_of_nat 237)
    (String (Ascii.ascii_of_nat 178)
       (String (Ascii.ascii_of_nat 128) EmptyString)).

(** C5 as stated fails: for a name that UTF-8 cannot encode the first
    [get_stream] raises after the master has drawn and registers no stream,
    and the next [get_stream] of that name draws from the master again. *)
Lemma get_stream_unencodable_draws_again :
  let m := RNGManager.init 123 in
  let first := RNGManager.get_stream lone_surrogate m in
  let second := RNGManager.get_stream lone_surrogate (final first) in
  raised first = Some UnicodeEncodeError ∧
  RNGManager._streams (final first) !! lone_surrogate = None ∧
  raised second = Some UnicodeEncodeError ∧
  rng_getstate (RNGManager.master (final first)) ≠
    rng_getstate (RNGManager.master m) ∧
  rng_getstate (RNGManager.master (final second)) ≠
    rng_getstate (RNGManager.master (final first)).
Proof.
  split; [reflexivity|]. split; [reflexivity|]. split; [reflexivity|].
  split; vm_compute; intros Heq; discriminate Heq.
Qed.

(** The run of [test_snapshot_and_restore_multi_agent]: two counter agents,
    the second one moved to the last phase, and three ticks. *)
Definition agents0 : Agent.Objs :=
  {[ 1%nat := Agent.CounterAgent "a0" 0%float;
     2%nat := Agent.CounterAgent "a1" 0%float ]}.

Definition script0 : list Kernel.Registration :=
  [("a0", 1%nat, None); ("a1", 2%nat, Some "commit")].

Definition world0 : Kernel.World :=
  final (Kernel.register_all script0 (Kernel.mkWorld kernel0 agents0 [])).

Definition world3 : Kernel.World :=
  final (Kernel.run Agent.entity 3 world0).

Lemma schedule_world0 :
  Kernel.schedule (Kernel.kernel world0) =
    [("perceive", "a0", 1%nat); ("commit", "a1", 2%nat)].
Proof. by vm_compute. Qed.

Lemma world0_consistent : consistent (Kernel.kernel world0).
Proof.
  apply (register_consistent "a1" 2%nat (Some "commit")).
  apply (register_consistent "a0" 1%nat None).
  apply init_consistent, default_phases_nodup.
Qed.

Lemma a0_encodable : encodable "a0".
Proof. by eexists. Qed.

Lemma a1_encodable : encodable "a1".
Proof. by eexists. Qed.

Lemma world0_counters : counters_only (Kernel.heap world0).
Proof.
  intros c Hc. simpl in Hc. rewrite schedule_world0 in Hc.
  apply elem_of_cons in Hc as [->|Hc].
  - eexists _, _. split; [reflexivity|exact a0_encodable].
  - apply list_elem_of_singleton in Hc as ->.
    eexists _, _. split; [reflexivity|exact a1_encodable].
Qed.

(** Entities that keep a log of their own in the place of their state.
    Object 1 has only a generic [step]: it notes its call and registers
    object 2 into the first phase, which is its own. Object 2 has a
    [step_phase] and notes the phase it is called in. Object 3 has only a
    generic [step], which notes its call and then fails. *)
Definition noting (line : string) : M (Kernel.t * list string) unit :=
  modify (λ ke, (ke.1, ke.2 ++ [line])).

Definition recorders (h : handle) : Kernel.Entity (E := list string) :=
  match h with
  | 1%nat =>
      Kernel.Generic
        (noting "A" ;;;
         zoom fst (λ k ke, (k, ke.2)) (Kernel.register "B" 2%nat None))
  | 2%nat => Kernel.PhaseAware (λ phase, noting ("B@" +:+ phase))
  | 3%nat =>
      Kernel.Generic (noting "C" ;;; raise (EntityStepError "C failed"))
  | _ => Kernel.NoStep
  end.

(** Object 1 alone is registered. *)
Definition world_rec : Kernel.World (E := list string) :=
  final (Kernel.register_all [("A", 1%nat, None)] (Kernel.mkWorld kernel0 [] [])).

Definition world_rec1 : Kernel.World (E := list string) :=
  final (Kernel.step recorders world_rec).

Definition acts0 : list (M (Kernel.t * Agent.Objs) unit) :=
  [Agent.act 1%nat; Agent.act 2%nat].

Lemma tick_follows_schedule_witness :
  calm Agent.entity counters_only ∧ timeless counters_only ∧
  counters_only (Kernel.heap world0) ∧
  phases_keyed (Kernel.kernel world0) ∧
  hooks_of Agent.entity (Kernel.schedule (Kernel.kernel world0)) acts0 ∧
  (let o := Kernel.step Agent.entity world0 in
   let os := Kernel.run Agent.entity 3 world0 in
   returned o ∧
   tick_of acts0 (Kernel.heap world0) =
     mkOutcome (Kernel.heap (final o)) (inr tt) ∧
   Kernel.invoked (final o) =
     [("perceive", "a0", 1%nat); ("commit", "a1", 2%nat)] ∧
   Kernel.time (Kernel.kernel (final o)) = 1 ∧
   returned os ∧
   in_sequence [tick_of acts0; tick_of acts0; tick_of acts0]
     (Kernel.heap world0) =
     mkOutcome (Kernel.heap (final os)) (inr tt) ∧
   Kernel.invoked (final os) =
     [("perceive", "a0", 1%nat); ("commit", "a1", 2%nat);
      ("perceive", "a0", 1%nat); ("commit", "a1", 2%nat);
      ("perceive", "a0", 1%nat); ("commit", "a1", 2%nat)] ∧
   Kernel.time (Kernel.kernel (final os)) = 3 ∧
   Kernel.run Agent.entity 0 world0 = mkOutcome world0 (inr tt)) ∧
  (let o1 := Kernel.step recorders world_rec in
   let o2 := Kernel.step recorders world_rec1 in
   Kernel._phase_registrations (Kernel.kernel world_rec) !! "perceive" =
     Some [("A", 1%nat)] ∧
   returned o1 ∧
   Kernel.env (final o1) = ["A"] ∧
   Kernel.invoked (final o1) = [("perceive", "A", 1%nat)] ∧
   Kernel._phase_registrations (Kernel.kernel (final o1)) !! "perceive" =
     Some [("A", 1%nat); ("B", 2%nat)] ∧
   Kernel.time (Kernel.kernel (final o1)) = 1 ∧
   Kernel.env (final o2) = ["A"; "A"; "B@perceive"] ∧
   Kernel.time (Kernel.kernel (final o2)) = 2).
Proof.
  pose proof (phases_have_lists _ world0_consistent) as Hkeys.
  assert (hooks_of Agent.entity (Kernel.schedule (Kernel.kernel world0)) acts0)
    as Hhooks
    by (rewrite schedule_world0;
        exact (agent_hooks [("perceive", "a0", 1%nat); ("commit", "a1", 2%nat)])).
  split; [exact counter_agents_calm|]. split; [exact counter_agents_timeless|].
  split; [exact world0_counters|]. split; [exact Hkeys|].
  split; [exact Hhooks|].
  destruct (tick_follows_schedule Agent.entity counters_only world0 3)
    as (_ & _ & _ & _ & _ & _ & Hzero & _ & Hstatic).
  destruct (Hstatic counter_agents_calm counter_agents_timeless world0_counters
              Hkeys ltac:(lia) acts0 Hhooks)
    as ((Hret & Hheap & Hlog & Htm) & (Hrets & Hheaps & Hlogs & Htms)).
  rewrite schedule_world0 in Hlog, Hlogs.
  split.
  { split; [exact Hret|]. split; [exact Hheap|]. split; [exact Hlog|].
    split; [exact Htm|]. split; [exact Hrets|]. split; [exact Hheaps|].
    split; [exact Hlogs|]. split; [exact Htms|exact Hzero]. }
  assert (Kernel._phase_registrations (Kernel.kernel world_rec) !! "perceive" =
          Some [("A", 1%nat)]) as Hmembers by (vm_compute; reflexivity).
  set (hookA := noting "A" ;;;
                zoom fst (λ k ke, (k, ke.2)) (Kernel.register "B" 2%nat None)).
  assert (hooks_of recorders (calls_of "perceive" [("A", 1%nat)]) [hookA])
    as HhooksA by (repeat constructor).
  destruct (tick_follows_schedule recorders (λ _, True) world_rec 1)
    as (_ & _ & Hphase & _).
  destruct (Hphase world_rec [] ["act"; "commit"] "perceive" [("A", 1%nat)]
              [hookA] eq_refl eq_refl Hmembers HhooksA) as [_ Hgoes].
  assert (returned (in_sequence [hookA] (Kernel.heap world_rec))) as HretA
    by reflexivity.
  destruct (Hgoes HretA) as [Hgoes' _]. clear Hgoes.
  pose proof Hgoes' as Hgoes. clear Hgoes'.
  assert (returned (Kernel.step recorders world_rec)) as Hret1
    by (rewrite Hgoes; reflexivity).
  split; [exact Hmembers|]. split; [exact Hret1|].
  split; [rewrite Hgoes; vm_compute; reflexivity|].
  split; [rewrite Hgoes; vm_compute; reflexivity|].
  split; [rewrite Hgoes; vm_compute; reflexivity|].
  split; [rewrite Hgoes; vm_compute; reflexivity|].
  split; vm_compute; reflexivity.
Defined.

(** A tick that fails half way: a counter agent in the first phase, and in
    the second a [BaseAgent], whose [act] raises. *)
Definition agents_bad : Agent.Objs :=
  {[ 1%nat := Agent.CounterAgent "a0" 0%float;
     3%nat := Agent.BaseAgent "b" ]}.

Definition world_bad : Kernel.World :=
  final (Kernel.register_all [("a0", 1%nat, None); ("b", 3%nat, Some "act")]
           (Kernel.mkWorld kernel0 agents_bad [])).

Definition world_bad1 : Kernel.World :=
  final (Kernel.run_phases Agent.entity ["perceive"] world_bad).

Definition world_bad2 : Kernel.World :=
  Kernel.mkWorld (Kernel.kernel world_bad1) (Kernel.env world_bad1)
    (Kernel.invoked world_bad1 ++ [("act", "b", 3%nat)]).

(** Object 2, which notes its calls, in the first phase, and in the second
    object 3, whose generic [step] notes its call and fails. *)
Definition world_fail : Kernel.World (E := list string) :=
  final (Kernel.register_all
           [("B", 2%nat, Some "perceive"); ("C", 3%nat, Some "act")]
           (Kernel.mkWorld kernel0 [] [])).

Definition world_fail1 : Kernel.World (E := list string) :=
  final (Kernel.run_phases recorders ["perceive"] world_fail).

Definition world_fail2 : Kernel.World (E := list string) :=
  Kernel.mkWorld (Kernel.kernel world_fail1) (Kernel.env world_fail1 ++ ["C"])
    (Kernel.invoked world_fail1 ++ [("act", "C", 3%nat)]).

Lemma step_failure_propagates_witness :
  (Kernel.step Agent.entity world_bad =
     mkOutcome world_bad2 (inl NotImplementedError) ∧
   Kernel.run Agent.entity 5 world_bad =
     mkOutcome world_bad2 (inl NotImplementedError) ∧
   Kernel.time (Kernel.kernel (final (Kernel.step Agent.entity world_bad))) =
     Kernel.time (Kernel.kernel world_bad) ∧
   Kernel.invoked world_bad2 =
     [("perceive", "a0", 1%nat); ("act", "b", 3%nat)] ∧
   Kernel.env world_bad2 !! 1%nat ≠ Kernel.env world_bad !! 1%nat) ∧
  (Kernel.step recorders world_fail =
     mkOutcome world_fail2 (inl (EntityStepError "C failed")) ∧
   Kernel.run recorders 5 world_fail =
     mkOutcome world_fail2 (inl (EntityStepError "C failed")) ∧
   Kernel.env world_fail2 = ["B@perceive"; "C"] ∧
   Kernel.invoked world_fail2 =
     [("perceive", "B", 2%nat); ("act", "C", 3%nat)] ∧
   Kernel.time (Kernel.kernel world_fail2) = 0).
Proof.
  split.
  - assert (Kernel.run_phases Agent.entity ["perceive"] world_bad =
            mkOutcome world_bad1 (inr tt)) as H1
      by (unfold world_bad1; apply outcome_eta; vm_compute; reflexivity).
    assert (Kernel._phase_registrations (Kernel.kernel world_bad1) !! "act" =
            Some ([] ++ [("b", 3%nat)])) as H2 by (vm_compute; reflexivity).
    assert (Kernel.env world_bad1 !! 3%nat = Some (Agent.BaseAgent "b")) as Hb
      by (vm_compute; reflexivity).
    destruct (step_failure_propagates Agent.entity world_bad world_bad1
                ["perceive"] ["commit"] "act" [] [] "b" 3%nat []
                (Agent.act 3%nat) (Kernel.heap world_bad1)
                (Kernel.heap world_bad1) NotImplementedError 5
                eq_refl H1 H2 (hooks_of_nil Agent.entity) eq_refl eq_refl
                (act_base 3%nat _ _ "b" Hb) eq_refl)
      as (Hstep & Hrun & Htm).
    split; [exact Hstep|]. split; [exact Hrun|].
    split; [rewrite Htm; vm_compute; reflexivity|].
    split; [vm_compute; reflexivity|].
    vm_compute. intros Heq. discriminate Heq.
  - assert (Kernel.run_phases recorders ["perceive"] world_fail =
            mkOutcome world_fail1 (inr tt)) as H1
      by (unfold world_fail1; apply outcome_eta; vm_compute; reflexivity).
    assert (Kernel._phase_registrations (Kernel.kernel world_fail1) !! "act" =
            Some ([] ++ [("C", 3%nat)])) as H2 by (vm_compute; reflexivity).
    destruct (step_failure_propagates recorders world_fail world_fail1
                ["perceive"] ["commit"] "act" [] [] "C" 3%nat []
                (noting "C" ;;; raise (EntityStepError "C failed"))
                (Kernel.heap world_fail1)
                (Kernel.kernel world_fail1, Kernel.env world_fail1 ++ ["C"])
                (EntityStepError "C failed") 5
                eq_refl H1 H2 (hooks_of_nil recorders) eq_refl eq_refl eq_refl
                eq_refl)
      as (Hstep & Hrun & _).
    split; [exact Hstep|]. split; [exact Hrun|].
    split; [vm_compute; reflexivity|].
    split; vm_compute; reflexivity.
Defined.



(** Restoring the snapshot taken after three ticks into a kernel that
    already has a stream of its own. *)
Definition snapshot3 : blob :=
  pickle_dumps (snapshot_state (Kernel.kernel world3)).

Definition kernel_zz : Kernel.t :=
  final (Kernel.get_rng "zz" (Kernel.init 5 (Some ["only"]))).

Lemma restore_frame_witness :
  pickle_loads snapshot3 = inr (snapshot_state (Kernel.kernel world3)) ∧
  (let o := Kernel.restore snapshot3 kernel_zz in
   let after := RNGManager._streams (Kernel._rng_manager (final o)) in
   returned o ∧
   Kernel.time (final o) = 3 ∧
   Kernel._phases (final o) = ["perceive"; "act"; "commit"] ∧
   Kernel._entities (final o) = Kernel._entities kernel_zz ∧
   Kernel._phase_registrations (final o) =
     Kernel._phase_registrations kernel_zz ∧
   after !! "zz" = RNGManager._streams (Kernel._rng_manager kernel_zz) !! "zz" ∧
   RNGStream._rng <$> after !! "a0" =
     RNGStream._rng <$>
       RNGManager._streams (Kernel._rng_manager (Kernel.kernel world3)) !! "a0").
Proof.
  split; [apply pickle_loads_dumps|].
  set (k := Kernel.kernel world3).
  set (items := map_to_list
                  (rng_getstate ∘ RNGStream._rng <$>
                     RNGManager._streams (Kernel._rng_manager k))).
  destruct (restore_frame snapshot3 kernel_zz (snapshot_state k) (Kernel.time k)
              (mkRngState
                 (Some (rng_getstate (RNGManager.master (Kernel._rng_manager k))))
                 (Some items))
              (rng_getstate (RNGManager.master (Kernel._rng_manager k)))
              (RNGManager.master (Kernel._rng_manager k))
              (pickle_loads_dumps _) eq_refl eq_refl eq_refl
              (rng_setstate_getstate _)
              (snapshot_tokens_accepted _)
              (NoDup_fst_map_to_list _))
    as (Hret & Htm & Hps & _ & Hents & Hregs & Hin & Hout).
  split; [exact Hret|].
  split; [rewrite Htm; vm_compute; reflexivity|].
  split; [rewrite Hps; vm_compute; reflexivity|].
  split; [exact Hents|]. split; [exact Hregs|]. split.
  - apply Hout. apply (bool_decide_unpack _). vm_compute. exact I.
  - assert (is_Some (RNGManager._streams (Kernel._rng_manager k) !! "a0"))
      as [s Hs] by (apply (bool_decide_unpack _); vm_compute; exact I).
    rewrite Hs. apply (Hin "a0" (rng_getstate (RNGStream._rng s))).
    + apply elem_of_map_to_list. rewrite lookup_fmap, Hs. reflexivity.
    + apply rng_setstate_getstate.
Defined.









(** ** More concrete runs *)

(** The stream manager after the three ticks of [world3]. *)
Definition manager3 : RNGManager.t := Kernel._rng_manager (Kernel.kernel world3).

Lemma streams_isolated_witness :
  "a0" ≠ "a1" ∧
  (let after_call := final (RNGManager.on_stream "a1" RNGStream.random manager3) in
   let after_lookup := final (RNGManager.get_stream "a1" manager3) in
   RNGManager._streams after_call !! "a0" = RNGManager._streams manager3 !! "a0" ∧
   RNGManager.master after_call = RNGManager.master manager3 ∧
   RNGManager._streams after_lookup !! "a0" =
     RNGManager._streams manager3 !! "a0" ∧
   result (RNGManager.on_stream "a0" RNGStream.random after_call) =
     result (RNGManager.on_stream "a0" RNGStream.random manager3) ∧
   result (RNGManager.on_stream "a0" RNGStream.random after_lookup) =
     result (RNGManager.on_stream "a0" RNGStream.random manager3)).
Proof.
  assert ("a0" ≠ "a1") as Hne by discriminate.
  split; [exact Hne|].
  exact (streams_isolated "a0" "a1" RNGStream.random manager3 Hne).
Defined.

Lemma act_declared : "act" ∈ Kernel._phases kernel0.
Proof. apply (bool_decide_unpack _). by vm_compute. Qed.

Lemma register_ignores_ids_witness :
  consistent kernel0 ∧ "act" ∈ Kernel._phases kernel0 ∧ 1%nat ≠ 2%nat ∧
  (let o1 := Kernel.register "twin" 1%nat (Some "act") kernel0 in
   let o2 := Kernel.register "twin" 2%nat (Some "act") (final o1) in
   returned o1 ∧ returned o2 ∧
   Kernel._entities (final o2) =
     Kernel._entities kernel0 ++ [("twin", 1%nat); ("twin", 2%nat)] ∧
   Kernel.phase_calls (final o2) "act" =
     Kernel.phase_calls kernel0 "act" ++
     [("act", "twin", 1%nat); ("act", "twin", 2%nat)] ∧
   consistent (final o2)).
Proof.
  pose proof (init_consistent 123 None default_phases_nodup) as Hc.
  assert (1%nat ≠ 2%nat) as Hne by discriminate.
  split; [exact Hc|]. split; [exact act_declared|]. split; [exact Hne|].
  exact (register_ignores_ids "twin" "act" 1%nat 2%nat kernel0 Hc act_declared
           Hne eq_refl eq_refl).
Defined.

(** [world0] after the restore of a snapshot from a kernel with another
    phase list: the phase ["extra"] is declared and has no member list. *)
Definition moved_blob : blob :=
  pickle_dumps
    (snapshot_state (Kernel.init 0 (Some ["perceive"; "extra"; "commit"]))).

Definition world_moved : Kernel.World :=
  final (Kernel.on_kernel (Kernel.restore moved_blob) world0).

Definition kernel_moved : Kernel.t := Kernel.kernel world_moved.

Definition world_moved1 : Kernel.World :=
  final (Kernel.run_phases Agent.entity ["perceive"] world_moved).

Lemma moved_phases :
  Kernel._phases kernel_moved = ["perceive"] ++ "extra" :: ["commit"].
Proof. by vm_compute. Qed.

Lemma extra_declared : "extra" ∈ Kernel._phases kernel_moved.
Proof. apply (bool_decide_unpack _). by vm_compute. Qed.

Lemma commit_declared : "commit" ∈ Kernel._phases kernel_moved.
Proof. apply (bool_decide_unpack _). by vm_compute. Qed.

Lemma extra_unkeyed : Kernel._phase_registrations kernel_moved !! "extra" = None.
Proof. by vm_compute. Qed.

Lemma register_half_done_without_list_witness :
  "extra" ∈ Kernel._phases kernel_moved ∧
  Kernel._phase_registrations kernel_moved !! "extra" = None ∧
  Kernel.is_registered 5%nat kernel_moved = false ∧
  "commit" ∈ Kernel._phases kernel_moved ∧
  (let o := Kernel.register "late" 5%nat (Some "extra") kernel_moved in
   raised o = Some (KeyError "extra") ∧
   Kernel._entities (final o) = Kernel._entities kernel_moved ++ [("late", 5%nat)] ∧
   Kernel._phase_registrations (final o) =
     Kernel._phase_registrations kernel_moved ∧
   Kernel.schedule (final o) = Kernel.schedule kernel_moved ∧
   Kernel.register "again" 5%nat (Some "commit") (final o) =
     mkOutcome (final o) (inr tt)).
Proof.
  split; [exact extra_declared|]. split; [exact extra_unkeyed|].
  split; [reflexivity|]. split; [exact commit_declared|].
  exact (register_half_done_without_list "late" "again" "extra" "commit" 5%nat
           kernel_moved extra_declared extra_unkeyed eq_refl commit_declared).
Defined.

Lemma step_raises_without_list_witness :
  Kernel._phases kernel_moved = ["perceive"] ++ "extra" :: ["commit"] ∧
  Kernel.run_phases Agent.entity ["perceive"] world_moved =
    mkOutcome world_moved1 (inr tt) ∧
  Kernel._phase_registrations (Kernel.kernel world_moved1) !! "extra" = None ∧
  0 < 4 ∧
  Kernel.step Agent.entity world_moved =
    mkOutcome world_moved1 (inl (KeyError "extra")) ∧
  Kernel.run Agent.entity 4 world_moved =
    mkOutcome world_moved1 (inl (KeyError "extra")) ∧
  Kernel.invoked world_moved1 = [("perceive", "a0", 1%nat)] ∧
  Kernel.time (Kernel.kernel world_moved1) =
    Kernel.time (Kernel.kernel world_moved).
Proof.
  assert (Kernel.run_phases Agent.entity ["perceive"] world_moved =
          mkOutcome world_moved1 (inr tt)) as H1
    by (unfold world_moved1; apply outcome_eta; vm_compute; reflexivity).
  assert (Kernel._phase_registrations (Kernel.kernel world_moved1) !! "extra" =
          None) as H2 by (vm_compute; reflexivity).
  assert (0 < 4) as H3 by lia.
  destruct (step_raises_without_list Agent.entity world_moved world_moved1
              ["perceive"] ["commit"] "extra" 4 moved_phases H1 H2 H3)
    as [Hstep Hrun].
  split; [exact moved_phases|]. split; [exact H1|]. split; [exact H2|].
  split; [exact H3|]. split; [exact Hstep|]. split; [exact Hrun|].
  split; vm_compute; reflexivity.
Defined.

Lemma run_splits_witness :
  0 ≤ 1 ∧ 0 ≤ 2 ∧
  Kernel.run Agent.entity (1 + 2) world0 =
    (Kernel.run Agent.entity 1 ;;; Kernel.run Agent.entity 2) world0 ∧
  Kernel.run Agent.entity (- 1) world0 = mkOutcome world0 (inr tt).
Proof.
  assert (0 ≤ 1) as Ha by lia. assert (0 ≤ 2) as Hb by lia.
  split; [exact Ha|]. split; [exact Hb|].
  exact (run_splits Agent.entity 1 2 world0 Ha Hb).
Defined.

Lemma unregister_removes_witness :
  phases_keyed (Kernel.kernel world0) ∧
  (let o := Kernel.unregister 1%nat (Kernel.kernel world0) in
   returned o ∧
   Kernel._entities (final o) = [("a1", 2%nat)] ∧
   Kernel.schedule (final o) = [("commit", "a1", 2%nat)] ∧
   Kernel.is_registered 1%nat (final o) = false ∧
   invocations 1%nat (Kernel.schedule (final o)) = 0%nat ∧
   Kernel.time (final o) = Kernel.time (Kernel.kernel world0) ∧
   Kernel._phases (final o) = Kernel._phases (Kernel.kernel world0) ∧
   Kernel._rng_manager (final o) = Kernel._rng_manager (Kernel.kernel world0) ∧
   consistent (final o)).
Proof.
  pose proof (phases_have_lists _ world0_consistent) as Hkeys.
  split; [exact Hkeys|].
  destruct (unregister_removes 1%nat (Kernel.kernel world0) Hkeys)
    as (Hret & Hents & Hsched & Hreg & Hinv & Htm & Hps & Hm & Hc).
  split; [exact Hret|].
  split; [rewrite Hents; vm_compute; reflexivity|].
  split; [rewrite Hsched, schedule_world0; vm_compute; reflexivity|].
  split; [exact Hreg|]. split; [exact Hinv|]. split; [exact Htm|].
  split; [exact Hps|]. split; [exact Hm|].
  exact (Hc world0_consistent).
Defined.

Lemma stranger_absent : ¬ in_registry 7%nat (Kernel.kernel world0).
Proof.
  assert (map_Forall (λ (_ : string) (members : list (string * handle)),
                        7%nat ∉ members.*2)
            (Kernel._phase_registrations (Kernel.kernel world0))) as Hall
    by (apply (bool_decide_unpack _); vm_compute; exact I).
  intros [Hin|(p & members & Hl & Hin)].
  - revert Hin. apply (bool_decide_unpack _). vm_compute. exact I.
  - exact (Hall p members Hl Hin).
Qed.

Lemma unregister_absent_noop_witness :
  phases_keyed (Kernel.kernel world0) ∧
  ¬ in_registry 7%nat (Kernel.kernel world0) ∧
  Kernel.unregister 7%nat (Kernel.kernel world0) =
    mkOutcome (Kernel.kernel world0) (inr tt).
Proof.
  pose proof (phases_have_lists _ world0_consistent) as Hkeys.
  split; [exact Hkeys|]. split; [exact stranger_absent|].
  exact (unregister_absent_noop 7%nat (Kernel.kernel world0) Hkeys
           stranger_absent).
Defined.

Lemma register_unregister_round_trip_witness :
  consistent (Kernel.kernel world0) ∧
  Kernel.is_registered 5%nat (Kernel.kernel world0) = false ∧
  returned (Kernel.register "late" 5%nat (Some "act") (Kernel.kernel world0)) ∧
  Kernel.unregister 5%nat
    (final (Kernel.register "late" 5%nat (Some "act") (Kernel.kernel world0))) =
    mkOutcome (Kernel.kernel world0) (inr tt).
Proof.
  assert (returned (Kernel.register "late" 5%nat (Some "act")
                      (Kernel.kernel world0))) as Hret by reflexivity.
  split; [exact world0_consistent|]. split; [reflexivity|].
  split; [exact Hret|].
  exact (register_unregister_round_trip "late" 5%nat (Some "act")
           (Kernel.kernel world0) world0_consistent eq_refl Hret).
Defined.

Lemma unregister_half_done_without_list_witness :
  Kernel._phases kernel_moved = ["perceive"] ++ "extra" :: ["commit"] ∧
  Kernel._phase_registrations kernel_moved !! "extra" = None ∧
  (let o := Kernel.unregister 2%nat kernel_moved in
   raised o = Some (KeyError "extra") ∧
   Kernel._entities (final o) = [("a0", 1%nat)] ∧
   Kernel._phase_registrations (final o) !! "commit" = Some [("a1", 2%nat)]).
Proof.
  assert (∀ q, q ∈ ["perceive"] →
            is_Some (Kernel._phase_registrations kernel_moved !! q))
    as Hkeys.
  { intros q Hq. apply list_elem_of_singleton in Hq as ->.
    apply (bool_decide_unpack _). vm_compute. exact I. }
  split; [exact moved_phases|]. split; [exact extra_unkeyed|].
  destruct (unregister_half_done_without_list 2%nat ["perceive"] ["commit"]
              "extra" kernel_moved moved_phases Hkeys extra_unkeyed)
    as (Hraised & Hents & Hregs).
  split; [exact Hraised|].
  split; [rewrite Hents; vm_compute; reflexivity|].
  rewrite Hregs. rewrite decide_False; [vm_compute; reflexivity|].
  apply (bool_decide_unpack _). vm_compute. exact I.
Defined.

(** Two more ticks after the snapshot. *)
Definition world5 : Kernel.World :=
  final (Kernel.run Agent.entity 2 world3).

Lemma no_new_streams :
  dom (RNGManager._streams (Kernel._rng_manager (Kernel.kernel world5))) ⊆
    dom (RNGManager._streams (Kernel._rng_manager (Kernel.kernel world3))).
Proof. apply (bool_decide_unpack _). vm_compute. exact I. Qed.

Lemma snapshot3_taken :
  result (Kernel.snapshot (Kernel.kernel world3)) = inr snapshot3.
Proof. by rewrite snapshot_outcome. Qed.

Lemma restore_goes_back_witness :
  result (Kernel.snapshot (Kernel.kernel world3)) = inr snapshot3 ∧
  dom (RNGManager._streams (Kernel._rng_manager (Kernel.kernel world5))) ⊆
    dom (RNGManager._streams (Kernel._rng_manager (Kernel.kernel world3))) ∧
  Kernel.time (Kernel.kernel world5) = 5 ∧
  (let o := Kernel.restore snapshot3 (Kernel.kernel world5) in
   returned o ∧
   Kernel.time (final o) = 3 ∧
   positions (Kernel._rng_manager (final o)) =
     positions (Kernel._rng_manager (Kernel.kernel world3)) ∧
   (∀ name n,
      stream_values name n (final o) =
        stream_values name n (Kernel.kernel world3)) ∧
   final o = Kernel.kernel world3).
Proof.
  split; [exact snapshot3_taken|]. split; [exact no_new_streams|].
  split; [vm_compute; reflexivity|].
  destruct (restore_goes_back (Kernel.kernel world3) (Kernel.kernel world5)
              snapshot3 snapshot3_taken no_new_streams)
    as (Hret & Htm & _ & Hpos & _ & _ & Hvals & Hsame).
  split; [exact Hret|].
  split; [rewrite Htm; vm_compute; reflexivity|].
  split; [exact Hpos|]. split; [exact Hvals|].
  apply Hsame.
  - vm_compute. reflexivity.
  - vm_compute. reflexivity.
  - vm_compute. reflexivity.
  - assert (RNGStream._seed <$>
              RNGManager._streams (Kernel._rng_manager (Kernel.kernel world5)) =
            RNGStream._seed <$>
              RNGManager._streams (Kernel._rng_manager (Kernel.kernel world3)))
      as Hseeds by (vm_compute; reflexivity).
    intros name. by rewrite <- !lookup_fmap, Hseeds.
Defined.

(** An agent whose id UTF-8 cannot encode. *)
Definition agents_odd : Agent.Objs :=
  {[ 4%nat := Agent.CounterAgent lone_surrogate 0%float ]}.

Lemma counter_act_frame_witness :
  agents0 !! 1%nat = Some (Agent.CounterAgent "a0" 0%float) ∧
  agents_odd !! 4%nat = Some (Agent.CounterAgent lone_surrogate 0%float) ∧
  (∃ v,
     result (drawn "a0" kernel0) = inr v ∧
     Agent.act 1%nat (kernel0, agents0) =
       mkOutcome
         (final (drawn "a0" kernel0),
          <[1%nat := Agent.CounterAgent "a0" (0 + v)]> agents0)
         (inr tt)) ∧
  Agent.act 4%nat (kernel0, agents_odd) =
    mkOutcome
      (Kernel.set_rng_manager
         (RNGManager.set_master
            (rng_getrandbits 64 (RNGManager.master (Kernel._rng_manager kernel0))).2
            (Kernel._rng_manager kernel0))
         kernel0,
       agents_odd)
      (inl UnicodeEncodeError).
Proof.
  assert (agents0 !! 1%nat = Some (Agent.CounterAgent "a0" 0%float)) as Hl
    by reflexivity.
  assert (agents_odd !! 4%nat = Some (Agent.CounterAgent lone_surrogate 0%float))
    as Hodd by reflexivity.
  split; [exact Hl|]. split; [exact Hodd|].
  destruct (counter_act_frame 1%nat kernel0 agents0 "a0" 0%float Hl)
    as (Hreturns & _).
  destruct (counter_act_frame 4%nat kernel0 agents_odd lone_surrogate 0%float
              Hodd) as (_ & Hraises & _).
  split; [exact (Hreturns (or_intror a0_encodable))|].
  exact (Hraises UnicodeEncodeError eq_refl eq_refl).
Defined.

(** The experiment of the tests: the two counter agents handed to
    [add_agent]. *)
Definition experiment0 : Experiment.t := Experiment.mk world0 [1%nat; 2%nat].
Definition experiment3 : Experiment.t := Experiment.mk world3 [1%nat; 2%nat].
Definition experiment5 : Experiment.t := Experiment.mk world5 [1%nat; 2%nat].

Definition experiment_new : Experiment.t := Experiment.init 123 None agents0.

Lemma add_agent_lists_before_registering_witness :
  Kernel.env (Experiment.world experiment_new) !! 1%nat =
    Some (Agent.CounterAgent "a0" 0%float) ∧
  ("nonexistent" ∉ Kernel._phases kernel0) ∧
  (let r := Experiment.add_agent 1%nat (Some "nonexistent") experiment_new in
   Experiment.agents (final r) = [1%nat] ∧
   raised r = Some (ValueError "Unknown phase: nonexistent") ∧
   Kernel.kernel (Experiment.world (final r)) = kernel0 ∧
   Kernel.is_registered 1%nat (Kernel.kernel (Experiment.world (final r))) = false).
Proof.
  assert (Kernel.env (Experiment.world experiment_new) !! 1%nat =
          Some (Agent.CounterAgent "a0" 0%float)) as Hl by reflexivity.
  split; [exact Hl|]. split; [exact nonexistent_undeclared|].
  destruct (add_agent_lists_before_registering experiment_new 1%nat
              (Some "nonexistent") (Agent.CounterAgent "a0" 0%float) Hl)
    as (Hlist & _ & _ & _ & Hunknown & _).
  destruct (Hunknown "nonexistent" eq_refl nonexistent_undeclared)
    as [Hraised Hk].
  split; [exact Hlist|]. split; [exact Hraised|].
  split; [exact Hk|]. rewrite Hk. reflexivity.
Defined.

Lemma experiment0_live :
  Forall (λ a, is_Some (Kernel.env world0 !! a)) [1%nat; 2%nat].
Proof. repeat constructor; apply (bool_decide_unpack _); vm_compute; exact I. Qed.

Lemma experiment_run_counters_witness :
  counters_only (Kernel.heap (Experiment.world experiment0)) ∧
  phases_keyed (Kernel.kernel (Experiment.world experiment0)) ∧
  Forall (λ a, is_Some (Kernel.env (Experiment.world experiment0) !! a))
    (Experiment.agents experiment0) ∧
  (let o := Experiment.run None experiment0 in
   returned o ∧
   in_sequence (replicate 10 (tick_of acts0)) (Kernel.heap world0) =
     mkOutcome (Kernel.heap (Experiment.world (final o))) (inr tt) ∧
   Experiment.agents (final o) = [1%nat; 2%nat] ∧
   Kernel.time (Kernel.kernel (Experiment.world (final o))) = 10 ∧
   length (Kernel.invoked (Experiment.world (final o))) = 20%nat).
Proof.
  pose proof (phases_have_lists _ world0_consistent) as Hkeys.
  split; [exact world0_counters|]. split; [exact Hkeys|].
  split; [exact experiment0_live|].
  destruct (experiment_run_counters experiment0 None world0_counters Hkeys
              experiment0_live) as (Hret & Hheap & Hagents & _ & Htm & Hlog).
  cbn [Experiment.world experiment0] in Hheap.
  rewrite schedule_world0 in Hheap.
  split; [exact Hret|]. split; [exact Hheap|]. split; [exact Hagents|].
  split; [rewrite Htm; vm_compute; reflexivity|].
  rewrite Hlog. simpl Kernel.kernel. rewrite schedule_world0. vm_compute. reflexivity.
Defined.

(** The snapshot of the experiment after three ticks. *)
Definition experiment_snapshot3 : Snapshot.t :=
  Snapshot.mk snapshot3 (states_of (Kernel.env world3) [1%nat; 2%nat] ∅).

Lemma experiment3_live :
  Forall (λ a, is_Some (Kernel.env (Experiment.world experiment3) !! a))
    (Experiment.agents experiment3).
Proof. repeat constructor; apply (bool_decide_unpack _); vm_compute; exact I. Qed.

Lemma experiment3_ids :
  NoDup (ids_of (Kernel.env (Experiment.world experiment3))
           (Experiment.agents experiment3)).
Proof. apply (bool_decide_unpack _). vm_compute. exact I. Qed.

Lemma experiment3_nodup : NoDup (Experiment.agents experiment3).
Proof. apply (bool_decide_unpack _). vm_compute. exact I. Qed.

Lemma experiment_snapshot3_taken :
  result (Experiment.snapshot experiment3) = inr experiment_snapshot3.
Proof. by rewrite (snapshot_experiment_outcome experiment3 experiment3_live). Qed.

Lemma experiment5_shapes (a : handle) :
  a ∈ Experiment.agents experiment3 →
  shape <$> Kernel.env (Experiment.world experiment5) !! a =
    shape <$> Kernel.env (Experiment.world experiment3) !! a.
Proof.
  intros Ha. apply elem_of_cons in Ha as [->|Ha]; [by vm_compute|].
  apply list_elem_of_singleton in Ha as ->. by vm_compute.
Qed.

Lemma experiment_restore_goes_back_witness :
  Forall (λ a, is_Some (Kernel.env (Experiment.world experiment3) !! a))
    (Experiment.agents experiment3) ∧
  NoDup (ids_of (Kernel.env (Experiment.world experiment3))
           (Experiment.agents experiment3)) ∧
  result (Experiment.snapshot experiment3) = inr experiment_snapshot3 ∧
  Kernel.env (Experiment.world experiment5) !! 1%nat ≠
    Kernel.env (Experiment.world experiment3) !! 1%nat ∧
  (let o := Experiment.restore experiment_snapshot3 experiment5 in
   returned o ∧
   Experiment.agents (final o) = Experiment.agents experiment3 ∧
   Kernel.time (Kernel.kernel (Experiment.world (final o))) = 3 ∧
   positions (Kernel._rng_manager (Kernel.kernel (Experiment.world (final o)))) =
     positions (Kernel._rng_manager (Kernel.kernel (Experiment.world experiment3))) ∧
   Kernel.env (Experiment.world (final o)) !! 1%nat =
     Kernel.env (Experiment.world experiment3) !! 1%nat ∧
   Kernel.env (Experiment.world (final o)) !! 2%nat =
     Kernel.env (Experiment.world experiment3) !! 2%nat).
Proof.
  split; [exact experiment3_live|]. split; [exact experiment3_ids|].
  split; [exact experiment_snapshot3_taken|].
  split; [vm_compute; intros Heq; discriminate Heq|].
  destruct (experiment_restore_goes_back experiment3 experiment5
              experiment_snapshot3 experiment3_live experiment3_ids
              experiment_snapshot3_taken eq_refl experiment5_shapes
              no_new_streams)
    as (Hret & Hagents & Htm & _ & Hpos & Hin & _).
  split; [exact Hret|]. split; [exact Hagents|].
  split; [rewrite Htm; vm_compute; reflexivity|].
  split; [exact Hpos|].
  split; apply Hin; apply (bool_decide_unpack _); vm_compute; exact I.
Defined.

Lemma experiment_snapshot_restore_identity_witness :
  Forall (λ a, is_Some (Kernel.env (Experiment.world experiment3) !! a))
    (Experiment.agents experiment3) ∧
  NoDup (ids_of (Kernel.env (Experiment.world experiment3))
           (Experiment.agents experiment3)) ∧
  ∃ s, Experiment.snapshot experiment3 = mkOutcome experiment3 (inr s) ∧
       Experiment.restore s experiment3 = mkOutcome experiment3 (inr tt).
Proof.
  split; [exact experiment3_live|]. split; [exact experiment3_ids|].
  exact (experiment_snapshot_restore_identity experiment3 experiment3_live
           experiment3_ids).
Defined.

(** A snapshot of the kernel without any agent state. *)
Definition kernel_only_snapshot3 : Snapshot.t := Snapshot.mk snapshot3 ∅.

Lemma experiment_restore_cases_witness :
  Forall (λ a, is_Some (Kernel.env (Experiment.world experiment3) !! a))
    (Experiment.agents experiment3) ∧
  NoDup (Experiment.agents experiment3) ∧
  (let o := Experiment.restore kernel_only_snapshot3 experiment3 in
   returned o ∧
   Kernel.env (Experiment.world (final o)) !! 1%nat =
     Some (Agent.CounterAgent "a0" 0%float) ∧
   Kernel.env (Experiment.world (final o)) !! 2%nat =
     Some (Agent.CounterAgent "a1" 0%float) ∧
   Kernel.env (Experiment.world experiment3) !! 1%nat ≠
     Some (Agent.CounterAgent "a0" 0%float)).
Proof.
  split; [exact experiment3_live|]. split; [exact experiment3_nodup|].
  destruct (experiment_restore_cases kernel_only_snapshot3 experiment3
              experiment3_live experiment3_nodup)
    as (_ & _ & _ & Hreturned).
  destruct Hreturned as (Hret & _ & Hin); [reflexivity|].
  cbv zeta. split; [exact Hret|].
  assert (∃ c, Kernel.env (Experiment.world experiment3) !! 1%nat =
               Some (Agent.CounterAgent "a0" c)) as [c1 H1]
    by (eexists; vm_compute; reflexivity).
  assert (∃ c, Kernel.env (Experiment.world experiment3) !! 2%nat =
               Some (Agent.CounterAgent "a1" c)) as [c2 H2]
    by (eexists; vm_compute; reflexivity).
  split; [|split].
  - destruct (Hin 1%nat _ ltac:(by left) H1) as [Heq Hnone].
    etrans; [exact Heq|]. exact (f_equal Some (proj2 (Hnone eq_refl) "a0" c1 eq_refl)).
  - destruct (Hin 2%nat _ ltac:(right; by left) H2) as [Heq Hnone].
    etrans; [exact Heq|]. exact (f_equal Some (proj2 (Hnone eq_refl) "a1" c2 eq_refl)).
  - vm_compute. intros Heq. discriminate Heq.
Defined.
